(** * Graph query engine and graph assembly: a shallow embedding

    This development embeds the graph store (a [networkx.DiGraph] as used by
    [graph_builder.py] and [graph_query_engine.py]), the two build operations
    of [GraphBuilder], and the classifier, entity resolver, reasoning
    strategies and evidence renderer of [GraphQueryEngine].

    Conventions.
    - Python [str] values are modelled as [string] (8-bit characters); the
      case conversion and the regular expressions are the ASCII ones.
    - A Python [dict] of keyword attributes is a record of [option] fields:
      [None] is an absent key.
    - A Python [set] is a [gset string]; the order in which a set is listed
      ([list(s)]) is not fixed by Python, so it is a parameter [set_iter] of
      the engine.
    - A raised exception is [None] in the [option] monad. *)

From Stdlib Require Import String Ascii ZArith DecimalString Permutation.
From stdpp Require Import base option list gmap sets strings.

Local Open Scope string_scope.

(** ** Python string primitives *)

Module PyStr.

Definition is_upper (c : ascii) : bool :=
  let n := nat_of_ascii c in (65 <=? n)%nat && (n <=? 90)%nat.

Definition is_lower (c : ascii) : bool :=
  let n := nat_of_ascii c in (97 <=? n)%nat && (n <=? 122)%nat.

Definition is_digit (c : ascii) : bool :=
  let n := nat_of_ascii c in (48 <=? n)%nat && (n <=? 57)%nat.

(** [\w]: letters, digits and the underscore. *)
Definition is_word (c : ascii) : bool :=
  is_upper c || is_lower c || is_digit c || (nat_of_ascii c =? 95)%nat.

(** [\s] on a [str] pattern: tab, line feed, vertical tab, form feed,
    carriage return, the separators 28..31 and the space. *)
Definition is_space (c : ascii) : bool :=
  let n := nat_of_ascii c in
  ((9 <=? n)%nat && (n <=? 13)%nat) || ((28 <=? n)%nat && (n <=? 32)%nat).

Definition lower_char (c : ascii) : ascii :=
  if is_upper c then ascii_of_nat (nat_of_ascii c + 32) else c.

(** [s.lower()] *)
Fixpoint lower (s : string) : string :=
  match s with
  | EmptyString => EmptyString
  | String c s' => String (lower_char c) (lower s')
  end.

(** [needle in hay] for two strings. *)
Fixpoint contains (needle hay : string) : bool :=
  String.prefix needle hay ||
  match hay with
  | EmptyString => false
  | String _ hay' => contains needle hay'
  end.

(** [s[:n]] *)
Fixpoint slice_to (n : nat) (s : string) : string :=
  match n, s with
  | S n', String c s' => String c (slice_to n' s')
  | _, _ => EmptyString
  end.

(** The line feed. *)
Definition nl : string := String (ascii_of_nat 10) EmptyString.

(** [str(n)] for a non-negative integer. *)
Definition of_nat (n : nat) : string :=
  NilZero.string_of_uint (Nat.to_uint n).

(** [sep.join(parts)] *)
Fixpoint join (sep : string) (parts : list string) : string :=
  match parts with
  | [] => EmptyString
  | [p] => p
  | p :: rest => p ++ sep ++ join sep rest
  end.

(** Truthiness of a string: [if s]. *)
Definition truthy (s : string) : bool :=
  match s with EmptyString => false | _ => true end.

End PyStr.

(** ** The two regular expressions of the entity resolver *)

Module Regex.
Import PyStr.

(** The longest prefix of [s] whose characters satisfy [p], and the rest. *)
Fixpoint span (p : ascii -> bool) (s : string) : string * string :=
  match s with
  | EmptyString => (EmptyString, EmptyString)
  | String c s' =>
      if p c then let '(run, rest) := span p s' in (String c run, rest)
      else (EmptyString, s)
  end.

Definition is_quote (c : ascii) : bool := (nat_of_ascii c =? 34)%nat.

(** [re.findall] of the first pattern of [_extract_entities] (a double
    quote, a captured non-empty run of characters other than the double
    quote, a double quote): a scan with the text since the last opening
    quote, if one is open.  An opening quote directly followed by a quote
    matches nothing and the second quote opens the next attempt. *)
Fixpoint quoted_scan (open : option string) (s : string) : list string :=
  match s with
  | EmptyString => []
  | String c s' =>
      match open with
      | None => if is_quote c then quoted_scan (Some EmptyString) s'
                else quoted_scan None s'
      | Some acc =>
          if is_quote c then
            if truthy acc then acc :: quoted_scan None s'
            else quoted_scan (Some EmptyString) s'
          else quoted_scan (Some (acc ++ String c EmptyString)) s'
      end
  end.

Definition findall_quoted (s : string) : list string := quoted_scan None s.

(** [[A-Z][a-z]+] at the head of [s]: the word and what follows it. *)
Definition cap_word (s : string) : option (string * string) :=
  match s with
  | EmptyString => None
  | String c s' =>
      if is_upper c then
        let '(run, rest) := span is_lower s' in
        if truthy run then Some (String c run, rest) else None
      else None
  end.

(** The greedy iterations of [(?:\s+[A-Z][a-z]+)*] after [matched]: every
    stopping point the matcher can fall back to, the longest first. *)
Fixpoint cap_chain (fuel : nat) (matched rest : string)
    : list (string * string) :=
  match fuel with
  | O => [(matched, rest)]
  | S fuel' =>
      let '(ws, r1) := span is_space rest in
      if truthy ws then
        match cap_word r1 with
        | Some (w, r2) =>
            (cap_chain fuel' (matched ++ ws ++ w) r2 ++ [(matched, rest)])%list
        | None => [(matched, rest)]
        end
      else [(matched, rest)]
  end.

(** The closing [\b]: the match ends in a letter, so the next character
    must not be a word character. *)
Definition at_boundary (rest : string) : bool :=
  match rest with
  | EmptyString => true
  | String c _ => negb (is_word c)
  end.

(** One match attempt of [[A-Z][a-z]+(?:\s+[A-Z][a-z]+)*\b] at the head. *)
Definition cap_match (s : string) : option (string * string) :=
  match cap_word s with
  | None => None
  | Some (w, rest) =>
      List.find (fun cand => at_boundary (snd cand))
                (cap_chain (String.length rest) w rest)
  end.

(** [re.findall(r'\b[A-Z][a-z]+(?:\s+[A-Z][a-z]+)*\b', s)]; [prev_word]
    says whether the character before the head is a word character (the
    opening [\b] needs it not to be). *)
Fixpoint cap_scan (fuel : nat) (prev_word : bool) (s : string)
    : list string :=
  match fuel with
  | O => []
  | S fuel' =>
      match s with
      | EmptyString => []
      | String c s' =>
          match (if prev_word then None else cap_match s) with
          | Some (m, rest) => m :: cap_scan fuel' true rest
          | None => cap_scan fuel' (is_word c) s'
          end
      end
  end.

Definition findall_cap_phrases (s : string) : list string :=
  cap_scan (String.length s) false s.

End Regex.

(** ** The graph store: [networkx.DiGraph]

    Nodes are kept in insertion order with their attribute dictionary.  Edges
    are kept in one list in the order of their first insertion: listing the
    edges out of (into) a node in that order is the order of the adjacency
    dictionary of that node. *)

Module DiGraph.

Record NodeData := mkNode {
  n_type : option string;
  n_name : option string;
  n_description : option string;
  n_files : option (list string);
  n_functions : option (list string);
  n_full_content : option string;
  n_modality : option string
}.

Record EdgeData := mkEdge {
  e_relation : option string;
  e_description : option string;
  e_confidence : option Z;
  e_evidence : option string;
  e_cross_modal : option bool;
  e_intra_paper : option bool
}.

Record t := mkGraph {
  g_nodes : list (string * NodeData);
  g_edges : list ((string * string) * EdgeData)
}.

Definition no_node_attrs : NodeData :=
  mkNode None None None None None None None.

(** [dict.update] for one key: a key of the new dictionary wins. *)
Definition upd {A} (old new : option A) : option A :=
  match new with Some _ => new | None => old end.

Definition update_node (old new : NodeData) : NodeData :=
  mkNode (upd (n_type old) (n_type new))
         (upd (n_name old) (n_name new))
         (upd (n_description old) (n_description new))
         (upd (n_files old) (n_files new))
         (upd (n_functions old) (n_functions new))
         (upd (n_full_content old) (n_full_content new))
         (upd (n_modality old) (n_modality new)).

Definition update_edge (old new : EdgeData) : EdgeData :=
  mkEdge (upd (e_relation old) (e_relation new))
         (upd (e_description old) (e_description new))
         (upd (e_confidence old) (e_confidence new))
         (upd (e_evidence old) (e_evidence new))
         (upd (e_cross_modal old) (e_cross_modal new))
         (upd (e_intra_paper old) (e_intra_paper new)).

(** An association list as an insertion-ordered dictionary. *)
Section Alist.
Context {K V : Type} `{EqDecision K}.

Fixpoint alist_get (k : K) (l : list (K * V)) : option V :=
  match l with
  | [] => None
  | (k', v) :: l' => if decide (k = k') then Some v else alist_get k l'
  end.

(** [d[k] = f(d[k])] when the key is there, [d[k] = fresh] appended at
    the end when it is not. *)
Fixpoint alist_upsert (k : K) (f : V -> V) (fresh : V) (l : list (K * V))
    : list (K * V) :=
  match l with
  | [] => [(k, fresh)]
  | (k', v) :: l' =>
      if decide (k = k') then (k', f v) :: l'
      else (k', v) :: alist_upsert k f fresh l'
  end.
End Alist.

Definition empty : t := mkGraph [] [].

(** [G.clear()] *)
Definition clear (g : t) : t := empty.

(** [G.has_node(n)] *)
Definition has_node (g : t) (n : string) : bool :=
  bool_decide (is_Some (alist_get n (g_nodes g))).

(** [G.nodes[n]]; a missing node raises. *)
Definition node_data (g : t) (n : string) : option NodeData :=
  alist_get n (g_nodes g).

(** [G.edges[u, v]]; a missing edge raises. *)
Definition edge_data (g : t) (u v : string) : option EdgeData :=
  alist_get (u, v) (g_edges g).

(** [G.add_node(n, **attrs)] *)
Definition add_node (g : t) (n : string) (attrs : NodeData) : t :=
  mkGraph
    (alist_upsert n (fun old => update_node old attrs)
                  (update_node no_node_attrs attrs) (g_nodes g))
    (g_edges g).

(** [G.add_edge(u, v, **attrs)]: missing endpoints become nodes without
    attributes, an edge that is there keeps its place and has its
    attributes updated. *)
Definition add_edge (g : t) (u v : string) (attrs : EdgeData) : t :=
  let g1 := if has_node g u then g else add_node g u no_node_attrs in
  let g2 := if has_node g1 v then g1 else add_node g1 v no_node_attrs in
  mkGraph
    (g_nodes g2)
    (alist_upsert (u, v) (fun old => update_edge old attrs) attrs (g_edges g2)).

Definition node_ids (g : t) : list string := (g_nodes g).*1.

Definition succ_list (g : t) (n : string) : list string :=
  omap (fun e => if decide (e.1.1 = n) then Some e.1.2 else None) (g_edges g).

Definition pred_list (g : t) (n : string) : list string :=
  omap (fun e => if decide (e.1.2 = n) then Some e.1.1 else None) (g_edges g).

(** [G.successors(n)], also [G.neighbors(n)]; a missing node raises. *)
Definition successors (g : t) (n : string) : option (list string) :=
  if has_node g n then Some (succ_list g n) else None.

(** [G.predecessors(n)]; a missing node raises. *)
Definition predecessors (g : t) (n : string) : option (list string) :=
  if has_node g n then Some (pred_list g n) else None.

(** [G.edges()]: for every node in order, its out-edges in order. *)
Definition edges_iter (g : t) : list (string * string) :=
  flat_map (fun n => (fun v => (n, v)) <$> succ_list g n) (node_ids g).

(** [G.number_of_nodes()] and [G.number_of_edges()] *)
Definition number_of_nodes (g : t) : nat := length (g_nodes g).
Definition number_of_edges (g : t) : nat := length (g_edges g).

(** [G.degree()]: in-degree plus out-degree, per node in order. *)
Definition degree (g : t) : list (string * nat) :=
  (fun n => (n, length (pred_list g n) + length (succ_list g n))) <$> node_ids g.

(** The representation invariant of a [DiGraph]: node keys are distinct,
    edge keys are distinct, and both ends of every edge are nodes. *)
Definition wf (g : t) : bool :=
  bool_decide (NoDup (node_ids g)) &&
  bool_decide (NoDup (g_edges g).*1) &&
  forallb (fun e => has_node g e.1.1 && has_node g e.1.2) (g_edges g).

(** The last part of the invariant as a proposition. *)
Definition closed (g : t) : Prop :=
  forall u v, (u, v) ∈ (g_edges g).*1 -> u ∈ node_ids g /\ v ∈ node_ids g.

(** *** [networkx.shortest_path(G, source, target)]

    Breadth-first search from [source]; the frontier holds the paths of
    the current length, reversed.  A missing endpoint ([NodeNotFound]) and
    an unreachable target ([NetworkXNoPath]) are both [None].  Which of
    several shortest paths the library returns is not modelled: this
    search returns the first one it meets. *)

Definition path_head (p : list string) : string :=
  match p with [] => EmptyString | n :: _ => n end.

Fixpoint bfs_expand (g : t) (frontier : list (list string)) (seen : list string)
    : list (list string) * list string :=
  match frontier with
  | [] => ([], seen)
  | p :: frontier' =>
      let fresh :=
        remove_dups (List.filter (fun v => bool_decide (v ∉ seen))
                                 (succ_list g (path_head p))) in
      let '(next, seen') := bfs_expand g frontier' (seen ++ fresh)%list in
      ((((fun v => v :: p) <$> fresh) ++ next)%list, seen')
  end.

Fixpoint bfs (g : t) (target : string) (fuel : nat)
    (frontier : list (list string)) (seen : list string)
    : option (list string) :=
  match List.find (fun p => bool_decide (path_head p = target)) frontier with
  | Some p => Some (rev p)
  | None =>
      match fuel with
      | O => None
      | S fuel' =>
          let '(next, seen') := bfs_expand g frontier seen in
          match next with
          | [] => None
          | _ => bfs g target fuel' next seen'
          end
      end
  end.

Definition shortest_path (g : t) (source target : string)
    : option (list string) :=
  if has_node g source && has_node g target then
    bfs g target (number_of_nodes g) [[source]] [source]
  else None.

End DiGraph.

(** ** Graph assembly: [GraphBuilder] *)

Module GraphBuilder.
Import DiGraph.

(** An element of [feature_data['features']]: every key is read
    unconditionally. *)
Record Feature := mkFeature {
  f_id : string;
  f_name : string;
  f_description : string;
  f_files : list string;
  f_functions : list string
}.

(** A relationship or edge record: [source], [target] and [type] are read
    unconditionally, the other keys through [.get] with a default. *)
Record EdgeRec := mkEdgeRec {
  r_source : string;
  r_target : string;
  r_type : string;
  r_description : option string;
  r_confidence : option Z;
  r_evidence : option string
}.

Record FeatureData := mkFeatureData {
  features : list Feature;
  relationships : list EdgeRec
}.

Record PaperNode := mkPaperNode {
  p_id : string;
  p_type : string;
  p_name : string;
  p_description : option string;
  p_full_content : option string
}.

Record CodeNode := mkCodeNode {
  c_id : string;
  c_type : option string;
  c_name : string;
  c_description : option string;
  c_files : option (list string);
  c_functions : option (list string)
}.

(** The pair of node ids a record is about. *)
Definition edge_key (edge : EdgeRec) : string * string :=
  (r_source edge, r_target edge).

(** The guard all three edge loops share: the edge is added, with the
    attributes the loop gives it, when both ends are nodes already, and
    the record is skipped otherwise. *)
Definition add_edge_if_known (attrs : EdgeRec -> EdgeData) (g : DiGraph.t)
    (edge : EdgeRec) : DiGraph.t :=
  if has_node g (r_source edge) && has_node g (r_target edge) then
    add_edge g (r_source edge) (r_target edge) (attrs edge)
  else g.

(** The two boolean attributes of an edge of the unified graph. *)
Definition flags_are (d : EdgeData) (cross : bool) : Prop :=
  e_cross_modal d = Some cross /\ e_intra_paper d = Some (negb cross).

(** The invariant of the cross-modal loop: an edge carries the cross-modal
    flags exactly when a record handled so far is about it, and otherwise
    it carries the paper flags and comes from the paper list [origin]. *)
Definition cross_loop_inv (origin : list EdgeRec) (g : DiGraph.t)
    (handled : list EdgeRec) : Prop :=
  forall u v d, edge_data g u v = Some d ->
    if bool_decide ((u, v) ∈ edge_key <$> handled) then flags_are d true
    else flags_are d false /\ (u, v) ∈ edge_key <$> origin.

Section Builder.
(** The parsed repository is only stored by the builder. *)
Context {ParsedData : Type}.

(** The state of a [GraphBuilder] object. *)
Record t := mkBuilder {
  graph : DiGraph.t;
  parsed_data : option ParsedData
}.

(** [GraphBuilder.__init__] *)
Definition init : t := mkBuilder DiGraph.empty None.

Definition feature_attrs (feature : Feature) : NodeData :=
  mkNode (Some "feature") (Some (f_name feature))
         (Some (f_description feature)) (Some (f_files feature))
         (Some (f_functions feature)) None (Some "code").

Definition add_feature (g : DiGraph.t) (feature : Feature) : DiGraph.t :=
  add_node g (f_id feature) (feature_attrs feature).

Definition rel_attrs (rel : EdgeRec) : EdgeData :=
  mkEdge (Some (r_type rel))
         (Some (default "" (r_description rel)))
         (Some (default 70%Z (r_confidence rel)))
         (Some (default "" (r_evidence rel)))
         None None.

(** One turn of the relationship loop of [build_graph]. *)
Definition add_relationship : DiGraph.t -> EdgeRec -> DiGraph.t :=
  add_edge_if_known rel_attrs.

(** [GraphBuilder.build_graph] *)
Definition build_graph (self : t) (feature_data : FeatureData)
    (parsed : ParsedData) : t :=
  let g0 := clear (graph self) in
  let g1 := foldl add_feature g0 (features feature_data) in
  let g2 := foldl add_relationship g1 (relationships feature_data) in
  mkBuilder g2 (Some parsed).

Definition paper_attrs (node : PaperNode) : NodeData :=
  mkNode (Some (p_type node)) (Some (p_name node))
         (Some (default "" (p_description node))) None None
         (Some (default "" (p_full_content node))) (Some "paper").

Definition add_paper_node (g : DiGraph.t) (node : PaperNode) : DiGraph.t :=
  add_node g (p_id node) (paper_attrs node).

Definition code_attrs (node : CodeNode) : NodeData :=
  mkNode (Some (default "feature" (c_type node))) (Some (c_name node))
         (Some (default "" (c_description node)))
         (Some (default [] (c_files node)))
         (Some (default [] (c_functions node))) None (Some "code").

Definition add_code_node (g : DiGraph.t) (node : CodeNode) : DiGraph.t :=
  add_node g (c_id node) (code_attrs node).

Definition paper_edge_attrs (edge : EdgeRec) : EdgeData :=
  mkEdge (Some (r_type edge))
         (Some (default "" (r_description edge)))
         (Some (default 80%Z (r_confidence edge)))
         (Some (default "Paper analysis" (r_evidence edge)))
         (Some false) (Some true).

(** One turn of the paper-edge loop of [build_unified_graph]. *)
Definition add_paper_edge : DiGraph.t -> EdgeRec -> DiGraph.t :=
  add_edge_if_known paper_edge_attrs.

Definition cross_edge_attrs (edge : EdgeRec) : EdgeData :=
  mkEdge (Some (r_type edge))
         (Some (default "" (r_description edge)))
         (Some (default 70%Z (r_confidence edge)))
         (Some (default "" (r_evidence edge)))
         (Some true) (Some false).

(** One turn of the cross-modal loop of [build_unified_graph]. *)
Definition add_cross_edge : DiGraph.t -> EdgeRec -> DiGraph.t :=
  add_edge_if_known cross_edge_attrs.

(** [GraphBuilder.build_unified_graph]; [paper_edges] is [None] when the
    argument is left out, and an empty list skips the loop as well. *)
Definition build_unified_graph (self : t)
    (paper_nodes : list PaperNode) (code_nodes : list CodeNode)
    (cross_modal_edges : list EdgeRec)
    (paper_edges : option (list EdgeRec)) : t :=
  let g0 := clear (graph self) in
  let g1 := foldl add_paper_node g0 paper_nodes in
  let g2 := foldl add_code_node g1 code_nodes in
  let g3 := match paper_edges with
            | Some (e :: es) => foldl add_paper_edge g2 (e :: es)
            | _ => g2
            end in
  let g4 := foldl add_cross_edge g3 cross_modal_edges in
  mkBuilder g4 (parsed_data self).
End Builder.

Arguments t : clear implicits.

End GraphBuilder.

(** ** The text-completion collaborator: [LLMAnalyzer] *)

Module LLMAnalyzer.

(** A value handed back as the answer: a string, or Python's [None] (the
    content of a completion may be absent). *)
Inductive answer :=
| Text (s : string)
| NoneValue.

(** What the API client does on [chat.completions.create]: a completion
    with its content, or an exception with its message. *)
Inductive client_outcome :=
| Completion (content : answer)
| ClientError (msg : string).

(** What a call of a method does: return or raise. *)
Inductive call_outcome :=
| Returns (a : answer)
| Raises (msg : string).

(** [LLMAnalyzer._call_llm]: every exception of the client is caught and
    turned into a string. *)
Definition _call_llm (client : string -> nat -> client_outcome)
    (prompt : string) (max_tokens : nat) : answer :=
  match client prompt max_tokens with
  | Completion content => content
  | ClientError msg => Text ("Error calling LLM: " ++ msg)
  end.

(** The [llm] object given to the query engine when it is an
    [LLMAnalyzer] over [client]. *)
Definition as_llm (client : string -> nat -> client_outcome)
    : string -> nat -> call_outcome :=
  fun prompt max_tokens => Returns (_call_llm client prompt max_tokens).

End LLMAnalyzer.

(** ** Interfaces of the run-time the engine relies on *)

(** The order in which Python lists a set. *)
Class SetOrder := {
  set_iter : gset string -> list string;
  set_iter_perm : forall X, set_iter X ≡ₚ elements X
}.

(** The floating-point part of networkx and of string formatting:
    [nx.degree_centrality], [nx.betweenness_centrality], [sorted] by score
    with [reverse=True], and the format [:.2f]. *)
Class NxCentrality := {
  Score : Type;
  degree_centrality : DiGraph.t -> list (string * Score);
  betweenness_centrality : DiGraph.t -> list (string * Score);
  sorted_by_score_desc : list (string * Score) -> list (string * Score);
  fmt_2f : Score -> string
}.

(** ** Evidence records *)

Module Evidence.

Record Step := mkStep {
  st_from : string;
  st_to : string;
  st_from_name : string;
  st_to_name : string;
  st_relation : string;
  st_description : string
}.

Record PathDetail := mkPathDetail {
  pd_nodes : list string;
  pd_steps : list Step;
  pd_length : nat
}.

(** An entry of [dependencies]; second-hop entries have no description. *)
Record DepEntry := mkDep {
  d_from : string;
  d_to : string;
  d_relation : string;
  d_description : option string;
  d_from_name : string;
  d_to_name : string
}.

Record GapEntry := mkGap {
  gp_node : string;
  gp_name : string;
  gp_type : string;
  gp_description : string;
  gp_reason : string
}.

(** An entry of [affected]; second-hop entries have neither description
    nor modality. *)
Record AffEntry := mkAff {
  a_from : string;
  a_to : string;
  a_relation : string;
  a_description : option string;
  a_from_name : string;
  a_to_name : string;
  a_modality : option string
}.

Record Concept {S : Type} := mkConcept {
  k_node : string;
  k_name : string;
  k_type : string;
  k_modality : string;
  k_centrality : S;
  k_in_degree : nat;
  k_out_degree : nat
}.
Arguments Concept : clear implicits.

Record GraphStats := mkStats {
  total_nodes : nat;
  total_edges : nat;
  paper_nodes : nat;
  code_nodes : nat
}.

(** An entry of [locations]: code nodes carry files and functions, the
    others a description. *)
Record Location := mkLocation {
  l_node : string;
  l_name : string;
  l_files : option (list string);
  l_functions : option (list string);
  l_type : string;
  l_description : option string
}.

Record SubEdge := mkSubEdge {
  se_source : string;
  se_target : string;
  se_relation : string
}.

(** The dictionary a strategy returns; a field is [None] when the key is
    not in the dictionary. *)
Record t {S : Type} := mkEvidence {
  ev_type : option string;
  ev_paths : option (list PathDetail);
  ev_dependencies : option (list DepEntry);
  ev_gaps : option (list GapEntry);
  ev_affected : option (list AffEntry);
  ev_key_concepts : option (list (Concept S));
  ev_bridge_nodes : option (list string);
  ev_graph_stats : option GraphStats;
  ev_locations : option (list Location);
  ev_nodes : option (list string);
  ev_edges : option (list SubEdge);
  ev_count : option nat
}.
Arguments t : clear implicits.

Definition blank {S : Type} (type : string) : t S :=
  mkEvidence S (Some type) None None None None None None None None None None None.

End Evidence.

(** ** The query engine: [GraphQueryEngine] *)

Module GraphQueryEngine.
Import DiGraph Evidence LLMAnalyzer.

(** A loop whose body may raise, run over a list with its accumulator. *)
Fixpoint foldM {A S : Type} (body : S -> A -> option S) (acc : S)
    (l : list A) : option S :=
  match l with
  | [] => Some acc
  | x :: l' =>
      match body acc x with
      | Some acc' => foldM body acc' l'
      | None => None
      end
  end.

(** [sorted(items, key=lambda x: x[1], reverse=True)] on integer keys: a
    stable sort, the largest key first. *)
Fixpoint insert_desc {A : Type} (x : A * nat) (l : list (A * nat))
    : list (A * nat) :=
  match l with
  | [] => [x]
  | y :: l' => if (x.2 <? y.2)%nat then y :: insert_desc x l' else x :: l
  end.

Definition sorted_desc {A : Type} (l : list (A * nat)) : list (A * nat) :=
  foldr insert_desc [] l.

(** [self.query_types], in the order of the dictionary. *)
Definition query_types : list (string * list string) :=
  [ ("path", ["how"; "implemented"; "realize"; "from paper to code"; "chain"]);
    ("dependency", ["depends"; "requires"; "needs"; "prerequisite"; "based on"]);
    ("gap", ["missing"; "not implemented"; "gaps"; "lacking"; "unimplemented"]);
    ("impact", ["affect"; "modify"; "change"; "impact"; "downstream"; "breaks"]);
    ("summary", ["summarize"; "overview"; "explain"; "architecture"; "structure"]);
    ("find", ["where"; "locate"; "find"; "show me"; "which files"]);
    ("related", ["related to"; "connected to"; "associated with"; "linked"]) ].

(** The trigger substrings of one label. *)
Definition triggers (qtype : string) : list string :=
  default [] (alist_get qtype query_types).

(** [any(keyword in query_lower for keyword in keywords)] *)
Definition any_keyword (query_lower : string) (keywords : list string) : bool :=
  existsb (fun keyword => PyStr.contains keyword query_lower) keywords.

(** [GraphQueryEngine._classify_query] *)
Definition _classify_query (query : string) : string :=
  let query_lower := PyStr.lower query in
  match List.find (fun entry => any_keyword query_lower entry.2) query_types with
  | Some (qtype, _) => qtype
  | None => "related"
  end.

(** [edge_data.get('relation') in ['implements', 'describes']] *)
Definition is_impl_relation (relation : option string) : bool :=
  match relation with
  | Some r => (r =? "implements") || (r =? "describes")
  | None => false
  end.

(** The test of the gap strategy on the data of one edge. *)
Definition is_implementation_edge (edge : EdgeData) : bool :=
  default false (e_cross_modal edge) && is_impl_relation (e_relation edge).

(** [x] is a successor or a predecessor of [n]. *)
Definition adjacent (g : DiGraph.t) (n x : string) : Prop :=
  x ∈ succ_list g n \/ x ∈ pred_list g n.

(** An edge that counts as an implementation, in the words of the gap
    claim: its attribute [cross_modal] is true and its relation is
    [implements] or [describes]. *)
Definition implementing_edge (edge : EdgeData) : Prop :=
  e_cross_modal edge = Some true /\
  (e_relation edge = Some "implements" \/ e_relation edge = Some "describes").

(** A gap, in the words of the gap claim: a node of modality [paper] that
    has no outgoing edge that counts as an implementation. *)
Definition is_gap (g : DiGraph.t) (n : string) : Prop :=
  exists data, (n, data) ∈ g_nodes g /\ n_modality data = Some "paper" /\
    forall t edge, edge_data g n t = Some edge -> ~ implementing_edge edge.

(** [deps] holds a first-hop entry for the edge from [a] to [b]: its ends,
    and the relation and the description of the edge. *)
Definition reports_dependency (g : DiGraph.t) (deps : list DepEntry)
    (a b : string) : Prop :=
  exists entry edge, entry ∈ deps /\ edge_data g a b = Some edge /\
    d_from entry = a /\ d_to entry = b /\
    d_relation entry = default "" (e_relation edge) /\
    d_description entry = Some (default "" (e_description edge)).

(** [affected] holds a first-hop entry for the edge from [a] to [b]. *)
Definition reports_affected (g : DiGraph.t) (affected : list AffEntry)
    (a b : string) : Prop :=
  exists entry edge, entry ∈ affected /\ edge_data g a b = Some edge /\
    a_from entry = a /\ a_to entry = b /\
    a_relation entry = default "" (e_relation edge) /\
    a_description entry = Some (default "" (e_description edge)).

(** The same as booleans: some out-edge of [n] passes the test of the gap
    strategy. *)
Definition implemented (g : DiGraph.t) (n : string) : bool :=
  existsb (fun s => from_option is_implementation_edge false (edge_data g n s))
          (succ_list g n).

Definition is_gap_node (g : DiGraph.t) (nd : string * NodeData) : bool :=
  bool_decide (n_modality nd.2 = Some "paper") && negb (implemented g nd.1).

Section Engine.
Context {SO : SetOrder} {NX : NxCentrality}.

(** [self.graph] *)
Variable graph : DiGraph.t.

Definition node_name_or (data : NodeData) (fallback : string) : string :=
  default fallback (n_name data).

(** [GraphQueryEngine._extract_entities] *)
Definition _extract_entities (query : string) : list string :=
  let quoted := Regex.findall_quoted query in
  let cap_phrases := Regex.findall_cap_phrases query in
  let named :=
    omap (fun nd : string * NodeData =>
            let name := default "" (n_name nd.2) in
            if PyStr.truthy name &&
               PyStr.contains (PyStr.lower name) (PyStr.lower query)
            then Some name else None)
         (g_nodes graph) in
  take 5 (set_iter (list_to_set (quoted ++ cap_phrases ++ named)%list)).

(** [modality and data.get('modality') != modality] *)
Definition other_modality (modality : option string) (data : NodeData)
    : bool :=
  match modality with
  | Some m => PyStr.truthy m && negb (bool_decide (n_modality data = Some m))
  | None => false
  end.

Definition entity_matches (node_name entity : string) : bool :=
  PyStr.contains (PyStr.lower entity) node_name ||
  PyStr.contains node_name (PyStr.lower entity).

(** [GraphQueryEngine._find_nodes_by_entities] *)
Definition _find_nodes_by_entities (entities : list string)
    (modality : option string) : list string :=
  omap (fun nd : string * NodeData =>
          if other_modality modality nd.2 then None
          else
            let node_name := PyStr.lower (default "" (n_name nd.2)) in
            if existsb (entity_matches node_name) entities
            then Some nd.1 else None)
       (g_nodes graph).

(** The steps of [_get_path_details], one per consecutive pair. *)
Fixpoint path_steps (path : list string) : option (list Step) :=
  match path with
  | source :: rest =>
      match rest with
      | target :: _ =>
          edge ← edge_data graph source target;
          sdata ← node_data graph source;
          tdata ← node_data graph target;
          steps ← path_steps rest;
          Some (mkStep source target
                       (node_name_or sdata source)
                       (node_name_or tdata target)
                       (default "" (e_relation edge))
                       (default "" (e_description edge)) :: steps)
      | [] => Some []
      end
  | [] => Some []
  end.

(** [GraphQueryEngine._get_path_details] *)
Definition _get_path_details (path : list string) : option PathDetail :=
  steps ← path_steps path;
  Some (mkPathDetail path steps (length path)).

(** The nodes one turn of the hop loop adds: the successors and the
    predecessors of every member that is a node of the graph.  (Both
    calls are guarded by [has_node], so neither raises; a union does
    not depend on the order in which the members are visited.) *)
Definition hop_new (members : gset string) : gset string :=
  foldr (fun node new_nodes =>
           if has_node graph node then
             new_nodes ∪ list_to_set (succ_list graph node)
                       ∪ list_to_set (pred_list graph node)
           else new_nodes)
        ∅ (elements members).

(** The hop loop of [_get_neighborhood_subgraph]: the size test comes
    after the update of each turn and leaves the loop. *)
Fixpoint expand_hops (hops : nat) (subgraph_nodes : gset string)
    : gset string :=
  match hops with
  | O => subgraph_nodes
  | S hops' =>
      let subgraph_nodes' := subgraph_nodes ∪ hop_new subgraph_nodes in
      if (30 <? size subgraph_nodes')%nat then subgraph_nodes'
      else expand_hops hops' subgraph_nodes'
  end.

Definition neighborhood_nodes (seed_nodes : list string) (hops : nat)
    : gset string :=
  expand_hops hops (list_to_set seed_nodes).

Record Subgraph := mkSubgraph {
  sg_nodes : list string;
  sg_edges : list SubEdge
}.

(** [GraphQueryEngine._get_neighborhood_subgraph] *)
Definition _get_neighborhood_subgraph (seed_nodes : list string)
    (hops : nat) : option Subgraph :=
  let subgraph_nodes := neighborhood_nodes seed_nodes hops in
  edges ← foldM (fun edges st =>
            if bool_decide (st.1 ∈ subgraph_nodes) &&
               bool_decide (st.2 ∈ subgraph_nodes)
            then
              edge ← edge_data graph st.1 st.2;
              Some (edges ++ [mkSubEdge st.1 st.2
                                (default "" (e_relation edge))])%list
            else Some edges)
         [] (edges_iter graph);
  Some (mkSubgraph (set_iter subgraph_nodes) edges).

(** *** Path strategy *)

(** The body of the double loop of [_handle_path_query]: a path that is
    not there is skipped, an exception of [_get_path_details] is not
    caught. *)
Definition path_turn (acc : list PathDetail * gset string)
    (pair : string * string) : option (list PathDetail * gset string) :=
  match shortest_path graph pair.1 pair.2 with
  | Some path =>
      path_with_edges ← _get_path_details path;
      Some ((acc.1 ++ [path_with_edges])%list, acc.2 ∪ list_to_set path)
  | None => Some acc
  end.

Definition path_pairs (paper_nodes code_nodes : list string)
    : list (string * string) :=
  flat_map (fun paper_node =>
              (fun code_node => (paper_node, code_node)) <$> take 3 code_nodes)
           (take 3 paper_nodes).

Definition nonempty {A : Type} (l : list A) : bool :=
  match l with [] => false | _ => true end.

(** [GraphQueryEngine._handle_path_query] *)
Definition _handle_path_query (query : string) (entities : list string)
    : option (Evidence.t Score) :=
  let paper_nodes := _find_nodes_by_entities entities (Some "paper") in
  let code_nodes := _find_nodes_by_entities entities (Some "code") in
  found ← foldM path_turn ([], ∅) (path_pairs paper_nodes code_nodes);
  let paths_found := found.1 in
  nodes_in_paths ←
    (if negb (nonempty paths_found) &&
        (nonempty paper_nodes || nonempty code_nodes)
     then
       subgraph ← _get_neighborhood_subgraph (paper_nodes ++ code_nodes)%list 2;
       Some (found.2 ∪ list_to_set (sg_nodes subgraph))
     else Some found.2);
  Some (mkEvidence Score (Some "path") (Some paths_found) None None None
          None None None None (Some (set_iter nodes_in_paths)) None
          (Some (length paths_found))).

(** *** Dependency strategy *)

Definition dep_hop2 (dep : string) (acc : list DepEntry * gset string)
    (dep2 : string) : option (list DepEntry * gset string) :=
  edge ← edge_data graph dep2 dep;
  data2 ← node_data graph dep2;
  data ← node_data graph dep;
  Some ((acc.1 ++ [mkDep dep2 dep (default "" (e_relation edge)) None
                     (node_name_or data2 dep2) (node_name_or data dep)])%list,
        acc.2 ∪ {[dep2]}).

Definition dep_hop1 (node : string) (acc : list DepEntry * gset string)
    (dep : string) : option (list DepEntry * gset string) :=
  edge ← edge_data graph dep node;
  ddata ← node_data graph dep;
  ndata ← node_data graph node;
  let entry := mkDep dep node (default "" (e_relation edge))
                     (Some (default "" (e_description edge)))
                     (node_name_or ddata dep) (node_name_or ndata node) in
  preds2 ← predecessors graph dep;
  foldM (dep_hop2 dep) ((acc.1 ++ [entry])%list, acc.2 ∪ {[node]} ∪ {[dep]})
        (take 3 preds2).

Definition dep_node (acc : list DepEntry * gset string) (node : string)
    : option (list DepEntry * gset string) :=
  deps ← predecessors graph node;
  foldM (dep_hop1 node) acc (take 5 deps).

(** [GraphQueryEngine._handle_dependency_query] *)
Definition _handle_dependency_query (query : string)
    (entities : list string) : option (Evidence.t Score) :=
  let target_nodes := _find_nodes_by_entities entities None in
  found ← foldM dep_node ([], ∅) (take 3 target_nodes);
  Some (mkEvidence Score (Some "dependency") None (Some found.1) None None
          None None None None (Some (set_iter found.2)) None
          (Some (length found.1))).

(** *** Gap strategy *)

(** The loop over the successors, left at the first edge that is
    cross-modal with an implementing relation. *)
Fixpoint has_implementation (node : string) (succs : list string)
    : option bool :=
  match succs with
  | [] => Some false
  | successor :: succs' =>
      edge ← edge_data graph node successor;
      if is_implementation_edge edge then Some true
      else has_implementation node succs'
  end.

(** The entry appended for a paper node without implementation. *)
Definition gap_entry (nd : string * NodeData) : GapEntry :=
  mkGap nd.1 (default "" (n_name nd.2)) (default "" (n_type nd.2))
        (default "" (n_description nd.2)) "No code implementation found".

Definition gap_turn (gaps : list GapEntry) (nd : string * NodeData)
    : option (list GapEntry) :=
  if bool_decide (n_modality nd.2 = Some "paper") then
    succs ← successors graph nd.1;
    match has_implementation nd.1 succs with
    | None => None
    | Some true => Some gaps
    | Some false => Some (gaps ++ [gap_entry nd])%list
    end
  else Some gaps.

(** [GraphQueryEngine._handle_gap_query] *)
Definition _handle_gap_query (query : string) (entities : list string)
    : option (Evidence.t Score) :=
  gaps ← foldM gap_turn [] (g_nodes graph);
  Some (mkEvidence Score (Some "gap") None None (Some gaps) None None None
          None None (Some (gp_node <$> gaps)) None (Some (length gaps))).

(** *** Impact strategy *)

Definition impact_hop2 (succ : string) (acc : list AffEntry * gset string)
    (succ2 : string) : option (list AffEntry * gset string) :=
  edge ← edge_data graph succ succ2;
  data ← node_data graph succ;
  data2 ← node_data graph succ2;
  Some ((acc.1 ++ [mkAff succ succ2 (default "" (e_relation edge)) None
                     (node_name_or data succ) (node_name_or data2 succ2)
                     None])%list,
        acc.2 ∪ {[succ2]}).

Definition impact_hop1 (node : string) (acc : list AffEntry * gset string)
    (succ : string) : option (list AffEntry * gset string) :=
  edge ← edge_data graph node succ;
  ndata ← node_data graph node;
  sdata ← node_data graph succ;
  let entry := mkAff node succ (default "" (e_relation edge))
                     (Some (default "" (e_description edge)))
                     (node_name_or ndata node) (node_name_or sdata succ)
                     (Some (default "unknown" (n_modality sdata))) in
  succs2 ← successors graph succ;
  foldM (impact_hop2 succ)
        ((acc.1 ++ [entry])%list, acc.2 ∪ {[node]} ∪ {[succ]})
        (take 3 succs2).

Definition impact_node (acc : list AffEntry * gset string) (node : string)
    : option (list AffEntry * gset string) :=
  succs ← successors graph node;
  foldM (impact_hop1 node) acc (take 5 succs).

(** [GraphQueryEngine._handle_impact_query] *)
Definition _handle_impact_query (query : string) (entities : list string)
    : option (Evidence.t Score) :=
  let source_nodes := _find_nodes_by_entities entities None in
  found ← foldM impact_node ([], ∅) (take 3 source_nodes);
  Some (mkEvidence Score (Some "impact") None None None (Some found.1)
          None None None None (Some (set_iter found.2)) None
          (Some (length found.1))).

(** *** Summary strategy *)

Definition summary_turn (acc : gset string * list (Concept Score))
    (item : string * Score)
    : option (gset string * list (Concept Score)) :=
  data ← node_data graph item.1;
  Some (acc.1 ∪ {[item.1]},
        (acc.2 ++ [mkConcept Score item.1 (default "" (n_name data))
                     (default "" (n_type data))
                     (default "" (n_modality data)) item.2
                     (length (pred_list graph item.1))
                     (length (succ_list graph item.1))])%list).

Definition count_modality (modality : string) : nat :=
  length (List.filter
            (fun nd : string * NodeData =>
               bool_decide (n_modality nd.2 = Some modality))
            (g_nodes graph)).

(** [GraphQueryEngine._handle_summary_query]; the record has no
    [count] key. *)
Definition _handle_summary_query (query : string) (entities : list string)
    : option (Evidence.t Score) :=
  let top_nodes := take 10 (sorted_by_score_desc (degree_centrality graph)) in
  let bridge_nodes :=
    if (2 <? number_of_nodes graph)%nat
    then take 5 (sorted_by_score_desc (betweenness_centrality graph))
    else [] in
  found ← foldM summary_turn (∅, []) top_nodes;
  Some (mkEvidence Score (Some "summary") None None None None
          (Some found.2) (Some (bridge_nodes.*1))
          (Some (mkStats (number_of_nodes graph) (number_of_edges graph)
                         (count_modality "paper") (count_modality "code")))
          None (Some (set_iter found.1)) None None).

(** *** Find strategy *)

(** The entry of one resolved node: files and functions for a code
    node, the first 200 characters of the description otherwise. *)
Definition location_of (node : string) (data : NodeData) : Location :=
  if bool_decide (n_modality data = Some "code") then
    mkLocation node (default "" (n_name data))
               (Some (default [] (n_files data)))
               (Some (default [] (n_functions data)))
               (default "" (n_type data)) None
  else
    mkLocation node (default "" (n_name data)) None None
               (default "" (n_type data))
               (Some (PyStr.slice_to 200 (default "" (n_description data)))).

Definition find_turn (locations : list Location) (node : string)
    : option (list Location) :=
  data ← node_data graph node;
  Some (locations ++ [location_of node data])%list.

(** [GraphQueryEngine._handle_find_query] *)
Definition _handle_find_query (query : string) (entities : list string)
    : option (Evidence.t Score) :=
  let target_nodes := _find_nodes_by_entities entities None in
  locations ← foldM find_turn [] (take 10 target_nodes);
  Some (mkEvidence Score (Some "find") None None None None None None None
          (Some locations) (Some target_nodes) None
          (Some (length locations))).

(** *** Related strategy *)

(** [GraphQueryEngine._handle_related_query] *)
Definition _handle_related_query (query : string) (entities : list string)
    : option (Evidence.t Score) :=
  let found := _find_nodes_by_entities entities None in
  let seed_nodes :=
    if nonempty found then found
    else
      let degree_dict := degree graph in
      if nonempty degree_dict then (take 5 (sorted_desc degree_dict)).*1
      else found in
  subgraph ← _get_neighborhood_subgraph seed_nodes 2;
  Some (mkEvidence Score (Some "related") None None None None None None
          None None (Some (sg_nodes subgraph)) (Some (sg_edges subgraph))
          (Some (length (sg_nodes subgraph)))).

(** *** Evidence renderer *)

(** One block of the digest: nothing when the key is absent or its list
    is empty ([if evidence.get(key)]). *)
Definition digest_block {A : Type} (items : option (list A))
    (block : list A -> option (list string)) : option (list string) :=
  match items with
  | Some (x :: l) => block (x :: l)
  | _ => Some []
  end.

Definition count_header (label : string) (n : nat) : string :=
  PyStr.nl ++ label ++ " (" ++ PyStr.of_nat n ++ "):".

(** The last step of a path is read with [steps[-1]]: a path without a
    step raises. *)
Definition path_line (path : PathDetail) : option string :=
  final ← last (pd_steps path);
  Some ("  • " ++ PyStr.join " → "
                    ((st_from_name <$> pd_steps path) ++ [st_to_name final])%list).

Definition dep_line (dep : DepEntry) : string :=
  "  • " ++ d_from_name dep ++ " --" ++ d_relation dep ++ "--> " ++ d_to_name dep.

Definition gap_line (gap : GapEntry) : string :=
  "  • " ++ gp_name gap ++ " (" ++ gp_type gap ++ "): " ++ gp_reason gap.

Definition aff_line (aff : AffEntry) : string :=
  "  • " ++ a_from_name aff ++ " impacts " ++ a_to_name aff
         ++ " (" ++ a_relation aff ++ ")".

Definition concept_line (concept : Concept Score) : string :=
  "  • " ++ k_name concept ++ " (" ++ k_type concept ++ ", centrality: "
         ++ fmt_2f (k_centrality concept) ++ ")".

Definition location_lines (loc : Location) : list string :=
  match l_files loc with
  | Some (f :: fs) =>
      ["  • " ++ l_name loc ++ ": " ++ PyStr.join ", " (take 2 (f :: fs))]
  | _ => []
  end.

(** [GraphQueryEngine._build_context_from_evidence] *)
Definition _build_context_from_evidence (evidence : Evidence.t Score)
    : option string :=
  l1 ← digest_block (ev_paths evidence) (fun paths =>
         ls ← mapM path_line (take 3 paths);
         Some (count_header "Paths Found" (length paths) :: ls));
  l2 ← digest_block (ev_dependencies evidence) (fun deps =>
         Some (count_header "Dependencies" (length deps)
                 :: (dep_line <$> take 5 deps)));
  l3 ← digest_block (ev_gaps evidence) (fun gaps =>
         Some (count_header "Gaps Found" (length gaps)
                 :: (gap_line <$> take 5 gaps)));
  l4 ← digest_block (ev_affected evidence) (fun affected =>
         Some (count_header "Affected Components" (length affected)
                 :: (aff_line <$> take 5 affected)));
  l5 ← digest_block (ev_key_concepts evidence) (fun concepts =>
         Some ((PyStr.nl ++ "Key Concepts:")
                 :: (concept_line <$> take 5 concepts)));
  l6 ← digest_block (ev_locations evidence) (fun locations =>
         Some ((PyStr.nl ++ "Locations:")
                 :: flat_map location_lines (take 5 locations)));
  let lines := (l1 ++ l2 ++ l3 ++ l4 ++ l5 ++ l6)%list in
  Some (if nonempty lines then PyStr.join PyStr.nl lines
        else "No specific graph evidence found.").

(** [GraphQueryEngine._generate_fallback_answer] *)
Definition _generate_fallback_answer (evidence : Evidence.t Score) : string :=
  let etype := default "unknown" (ev_type evidence) in
  let count := default 0%nat (ev_count evidence) in
  "Found " ++ PyStr.of_nat count ++ " " ++ etype
    ++ " results in the graph. Check the visualization for details.".

Definition prompt_of (query : string) (evidence : Evidence.t Score)
    (context : string) : string :=
  PyStr.join PyStr.nl
    [ "You are a research paper + code analysis assistant. A user asked about a codebase and research paper.";
      "";
      "USER QUESTION: " ++ query;
      "";
      "GRAPH ANALYSIS RESULTS:";
      "Query Type: " ++ default "unknown" (ev_type evidence);
      context;
      "";
      "YOUR TASK:";
      "Generate a clear, helpful answer based on the graph analysis above.";
      "- Reference specific concepts, algorithms, and code features by name";
      "- Explain relationships and connections";
      "- Use the graph structure to provide insights";
      "- If paths exist, describe them step-by-step";
      "- Be concise but informative";
      "";
      "Answer:" ].

(** [self.llm]: the method [_call_llm] of the object the engine was
    given, which returns or raises. *)
Variable llm : string -> nat -> call_outcome.

(** [GraphQueryEngine._enhance_with_llm]: the digest is built before the
    [try]; inside it, whatever the call returns is the answer and an
    exception of the call selects the fallback. *)
Definition _enhance_with_llm (query : string)
    (graph_evidence : Evidence.t Score) : option answer :=
  context ← _build_context_from_evidence graph_evidence;
  match llm (prompt_of query graph_evidence context) 500 with
  | Returns a => Some a
  | Raises _ => Some (Text (_generate_fallback_answer graph_evidence))
  end.

Record QueryResult := mkResult {
  qr_query : string;
  qr_query_type : string;
  qr_answer : answer;
  qr_graph_evidence : Evidence.t Score;
  qr_highlighted_nodes : list string;
  qr_paths : list PathDetail
}.

(** The routing of [process_query]. *)
Definition run_strategy (query_type query : string)
    (entities : list string) : option (Evidence.t Score) :=
  if query_type =? "path" then _handle_path_query query entities
  else if query_type =? "dependency" then _handle_dependency_query query entities
  else if query_type =? "gap" then _handle_gap_query query entities
  else if query_type =? "impact" then _handle_impact_query query entities
  else if query_type =? "summary" then _handle_summary_query query entities
  else if query_type =? "find" then _handle_find_query query entities
  else _handle_related_query query entities.

(** [GraphQueryEngine.process_query] *)
Definition process_query (query : string) : option QueryResult :=
  let query_type := _classify_query query in
  let entities := _extract_entities query in
  result ← run_strategy query_type query entities;
  enhanced_answer ← _enhance_with_llm query result;
  Some (mkResult query query_type enhanced_answer result
                 (default [] (ev_nodes result))
                 (default [] (ev_paths result))).
End Engine.
End GraphQueryEngine.

(** ** Instances of the run-time interfaces *)

(** A set listed in the order of [elements]. *)
Definition elements_order : SetOrder :=
  {| set_iter := elements;
     set_iter_perm := fun X => Permutation_refl (elements X) |}.

(** Scores taken to be the plain degree, for running the strategies that do
    not read a centrality. *)
Definition degree_scores : NxCentrality :=
  {| Score := nat;
     degree_centrality := DiGraph.degree;
     betweenness_centrality := fun g => (fun n => (n, 0%nat)) <$> DiGraph.node_ids g;
     sorted_by_score_desc := GraphQueryEngine.sorted_desc;
     fmt_2f := PyStr.of_nat |}.

(** ** Concrete graphs and inputs *)

Module Scenario.
Import DiGraph GraphBuilder LLMAnalyzer.

Definition no_edge_attrs : EdgeData := mkEdge None None None None None None.

Definition named (name : string) : NodeData :=
  mkNode None (Some name) None None None None None.

(** The graph of the first end-to-end scenario, as the unified build makes
    it from one paper node, one code node and one cross-modal edge. *)
Definition scenario1_builder : GraphBuilder.t unit :=
  build_unified_graph init
    [mkPaperNode "paper_section_0" "paper_section" "Attention" None None]
    [mkCodeNode "feature_0" None "MultiHeadAttention" None None None]
    [mkEdgeRec "paper_section_0" "feature_0" "implements" None None None]
    None.

Definition scenario1 : DiGraph.t := graph scenario1_builder.

Definition scenario1_query : string := "How is Attention implemented?".

(** A hub with 31 successors [n1] .. [n31]. *)
Definition star : DiGraph.t :=
  foldl (fun g i => add_edge g "hub" ("n" ++ PyStr.of_nat i) no_edge_attrs)
        empty (seq 1 31).

(** [b] has the six predecessors [p1] .. [p5] and [a], in this order, and
    [a] has the six successors [s1] .. [s5] and [b], in this order. *)
Definition fan_nodes : list string :=
  ["a"; "b"; "p1"; "p2"; "p3"; "p4"; "p5"; "s1"; "s2"; "s3"; "s4"; "s5"].

Definition fan : DiGraph.t :=
  let g0 := foldl (fun g n => add_node g n (named n)) empty fan_nodes in
  let g1 := foldl (fun g p => add_edge g p "b" no_edge_attrs) g0
                  ["p1"; "p2"; "p3"; "p4"; "p5"] in
  let g2 := foldl (fun g s => add_edge g "a" s no_edge_attrs) g1
                  ["s1"; "s2"; "s3"; "s4"; "s5"] in
  add_edge g2 "a" "b" no_edge_attrs.

(** A small chain [x -> y -> z] with named nodes. *)
Definition chain : DiGraph.t :=
  let g0 := foldl (fun g n => add_node g n (named n)) empty ["x"; "y"; "z"] in
  add_edge (add_edge g0 "x" "y" no_edge_attrs) "y" "z" no_edge_attrs.

(** Two code nodes joined by an edge handed over in the cross-modal list,
    and two more joined by an edge handed over in the paper list. *)
Definition code_only_builder : GraphBuilder.t unit :=
  build_unified_graph init []
    [mkCodeNode "c1" None "Loader" None None None;
     mkCodeNode "c2" None "Trainer" None None None;
     mkCodeNode "c3" None "Model" None None None;
     mkCodeNode "c4" None "Eval" None None None]
    [mkEdgeRec "c1" "c2" "calls" None None None]
    (Some [mkEdgeRec "c3" "c4" "builds_on" None None None]).

(** A client whose request fails, and a collaborator object whose method
    raises. *)
Definition failing_client : string -> nat -> client_outcome :=
  fun _ _ => ClientError "connection refused".

Definition raising_llm : string -> nat -> call_outcome :=
  fun _ _ => Raises "connection refused".

(** Twelve paper nodes that all carry the name [layer]. *)
Definition twelve : DiGraph.t :=
  foldl (fun g i => add_node g ("n" ++ PyStr.of_nat i)
                      (mkNode (Some "concept") (Some "layer") None None None
                              None (Some "paper")))
        empty (seq 1 12).

End Scenario.

(** ** What the hop strategies keep while they run *)

Module HopInvariant.
Import DiGraph Evidence GraphQueryEngine.

(** An entry of [dependencies] stands for an edge of the graph and
    carries its relation. *)
Definition dep_is_edge (g : DiGraph.t) (e : DepEntry) : Prop :=
  exists edge, edge_data g (d_from e) (d_to e) = Some edge /\
               d_relation e = default "" (e_relation edge).

(** An entry of [affected] stands for an edge of the graph and carries
    its relation. *)
Definition aff_is_edge (g : DiGraph.t) (e : AffEntry) : Prop :=
  exists edge, edge_data g (a_from e) (a_to e) = Some edge /\
               a_relation e = default "" (e_relation edge).

(** The accumulator of the dependency loops: entries that are edges, and
    the set of their ends. *)
Definition dep_state_ok (g : DiGraph.t) (s : list DepEntry * gset string)
    : Prop :=
  Forall (dep_is_edge g) s.1 /\
  forall n, n ∈ s.2 <-> exists e, e ∈ s.1 /\ (n = d_from e \/ n = d_to e).

(** The accumulator of the impact loops. *)
Definition aff_state_ok (g : DiGraph.t) (s : list AffEntry * gset string)
    : Prop :=
  Forall (aff_is_edge g) s.1 /\
  forall n, n ∈ s.2 <-> exists e, e ∈ s.1 /\ (n = a_from e \/ n = a_to e).

End HopInvariant.

(** ** Walks of the graph *)

Module Walk.
Import DiGraph.

(** Every two consecutive nodes of [path] are joined by an edge. *)
Definition is_walk (g : DiGraph.t) (path : list string) : Prop :=
  forall i u v, path !! i = Some u -> path !! S i = Some v ->
                is_Some (edge_data g u v).

(** [path] is a walk that starts at [a] and ends at [b]. *)
Definition walk_from_to (g : DiGraph.t) (path : list string) (a b : string)
    : Prop :=
  head path = Some a /\ last path = Some b /\ is_walk g path.

End Walk.

(** Python's true division of two non-negative integers, which gives a
    float. *)
Class PyFloat := {
  Float : Type;
  truediv : nat -> nat -> Float
}.

(** ** The read operations of [GraphBuilder] *)

Module BuilderQueries.
Import DiGraph GraphBuilder.

(** An element of [file_data['functions']] as the code parser writes it:
    [name] is read unconditionally, the other keys through [.get]. *)
Record FuncRec := mkFuncRec {
  fn_name : string;
  fn_code : option string;
  fn_lineno : option Z;
  fn_args : option (list string)
}.

(** An element of [parsed_data['files']]. *)
Record FileRec := mkFileRec {
  fl_path : string;
  fl_functions : list FuncRec
}.

(** The parsed repository: a dictionary with the key [files] (so it is
    never empty, and never falsy). *)
Record Parsed := mkParsed {
  ps_files : list FileRec
}.

(** What [_find_function_in_parsed_data] returns for a function. *)
Record FunctionInfo := mkFunctionInfo {
  fi_name : string;
  fi_file : string;
  fi_code : string;
  fi_lineno : Z;
  fi_args : list string
}.

(** What [get_feature_details] returns for a node. *)
Record FeatureDetails := mkFeatureDetails {
  fd_id : string;
  fd_name : string;
  fd_description : string;
  fd_files : list string;
  fd_functions : list FunctionInfo;
  fd_modality : string;
  fd_full_content : string;
  fd_type : string
}.

(** The inner loop of [_find_function_in_parsed_data] over the functions
    of one file: the first function with the name ends the search. *)
Fixpoint find_in_functions (path func_name : string) (funcs : list FuncRec)
    : option FunctionInfo :=
  match funcs with
  | [] => None
  | func :: funcs' =>
      if bool_decide (fn_name func = func_name) then
        Some (mkFunctionInfo (fn_name func) path
                             (default "" (fn_code func))
                             (default 0%Z (fn_lineno func))
                             (default [] (fn_args func)))
      else find_in_functions path func_name funcs'
  end.

(** The outer loop over the files. *)
Fixpoint find_in_files (func_name : string) (files : list FileRec)
    : option FunctionInfo :=
  match files with
  | [] => None
  | file_data :: files' =>
      match find_in_functions (fl_path file_data) func_name
                              (fl_functions file_data) with
      | Some info => Some info
      | None => find_in_files func_name files'
      end
  end.

(** [GraphBuilder._find_function_in_parsed_data]; [None] is Python's
    [None]. *)
Definition _find_function_in_parsed_data (self : GraphBuilder.t Parsed)
    (func_name : string) : option FunctionInfo :=
  match parsed_data self with
  | None => None
  | Some parsed => find_in_files func_name (ps_files parsed)
  end.

(** [GraphBuilder.get_feature_details]: the outer [None] is a raised
    [KeyError] (the node has no [name] or no [description]), the inner
    [None] is the returned [None] of an unknown id. *)
Definition get_feature_details (self : GraphBuilder.t Parsed)
    (feature_id : string) : option (option FeatureDetails) :=
  if negb (has_node (graph self) feature_id) then Some None
  else
    node_data ← node_data (graph self) feature_id;
    let is_paper_node := bool_decide (n_modality node_data = Some "paper") in
    let function_details :=
      if negb is_paper_node then
        omap (_find_function_in_parsed_data self)
             (default [] (n_functions node_data))
      else [] in
    name ← n_name node_data;
    description ← n_description node_data;
    Some (Some (mkFeatureDetails feature_id name description
                  (default [] (n_files node_data))
                  function_details
                  (default "code" (n_modality node_data))
                  (default "" (n_full_content node_data))
                  (default "feature" (n_type node_data)))).

(** [GraphBuilder._count_node_types]: the dictionary of counts, in the
    order in which the types are first met. *)
Definition _count_node_types {P : Type} (self : GraphBuilder.t P)
    : list (string * nat) :=
  foldl (fun counts (nd : string * NodeData) =>
           let node_type := default "unknown" (n_type nd.2) in
           alist_upsert node_type (fun c => (c + 1)%nat) (0 + 1)%nat counts)
        [] (g_nodes (graph self)).

(** *** [export_for_visualization] *)

Record VizNodeData := mkVizNodeData {
  vd_label : string;
  vd_description : string;
  vd_type : string;
  vd_files : list string;
  vd_functions : list string;
  vd_full_content : string;
  vd_modality : string;
  vd_view : string
}.

(** An exported node; [vn_position] holds the two integers that the code
    hands to [float]. *)
Record VizNode := mkVizNode {
  vn_id : string;
  vn_data : VizNodeData;
  vn_position : Z * Z;
  vn_type : string
}.

Record VizEdge := mkVizEdge {
  ve_id : string;
  ve_source : string;
  ve_target : string;
  ve_label : string;
  ve_description : string;
  ve_confidence : Z;
  ve_cross_modal : bool;
  ve_intra_paper : bool;
  ve_animated : bool
}.

Record Visualization := mkVisualization {
  vz_nodes : list VizNode;
  vz_edges : list VizEdge
}.

(** [d[k] = v] *)
Definition dict_set {V : Type} (k : string) (v : V) (d : list (string * V))
    : list (string * V) :=
  alist_upsert k (fun _ => v) v d.

(** One of the two layout loops: [pos[node_id] = (x, idx * 80)] for the
    nodes of a column, [idx] counting from the given start. *)
Fixpoint layout_column (x : Z) (idx : nat) (column : list (string * NodeData))
    (pos : list (string * (Z * Z))) : list (string * (Z * Z)) :=
  match column with
  | [] => pos
  | nd :: column' =>
      layout_column x (S idx) column'
                    (dict_set nd.1 (x, (Z.of_nat idx * 80)%Z) pos)
  end.

Definition is_paper (nd : string * NodeData) : bool :=
  bool_decide (n_modality nd.2 = Some "paper").

(** The dictionary [pos]. *)
Definition positions (g : DiGraph.t) : list (string * (Z * Z)) :=
  let paper_nodes := List.filter is_paper (g_nodes g) in
  let code_nodes := List.filter (fun nd => negb (is_paper nd)) (g_nodes g) in
  if (0 <? number_of_nodes g)%nat then
    layout_column 200 0 code_nodes (layout_column (-200) 0 paper_nodes [])
  else [].

Definition viz_node (pos : list (string * (Z * Z))) (nd : string * NodeData)
    : VizNode :=
  let xy := default (0%Z, 0%Z) (alist_get nd.1 pos) in
  let modality := default "code" (n_modality nd.2) in
  mkVizNode nd.1
    (mkVizNodeData (default nd.1 (n_name nd.2))
                   (default "" (n_description nd.2))
                   (default "feature" (n_type nd.2))
                   (default [] (n_files nd.2))
                   (default [] (n_functions nd.2))
                   (default "" (n_full_content nd.2))
                   modality "features")
    xy "default".

(** [G.edges(data=True)]: for every node in order, its out-edges in order
    with their attributes. *)
Definition edges_data_iter (g : DiGraph.t)
    : list ((string * string) * EdgeData) :=
  flat_map (fun n => List.filter (fun e => bool_decide (e.1.1 = n)) (g_edges g))
           (node_ids g).

Definition viz_edge (e : (string * string) * EdgeData) : VizEdge :=
  let relation_type := default "" (e_relation e.2) in
  let is_cross_modal := default false (e_cross_modal e.2) in
  let is_intra_paper := default false (e_intra_paper e.2) in
  mkVizEdge (e.1.1 ++ "-" ++ e.1.2) e.1.1 e.1.2 relation_type
            (default "" (e_description e.2))
            (default 70%Z (e_confidence e.2))
            is_cross_modal is_intra_paper
            (is_cross_modal ||
             ((relation_type =? "implements") || (relation_type =? "describes"))).

(** [GraphBuilder.export_for_visualization] *)
Definition export_for_visualization {P : Type} (self : GraphBuilder.t P)
    : Visualization :=
  let g := graph self in
  let pos := positions g in
  mkVisualization (viz_node pos <$> g_nodes g)
                  (viz_edge <$> edges_data_iter g).

(** *** [get_graph_stats] *)

(** The value under [avg_degree]: the integer [0] for a graph without
    nodes, a float otherwise. *)
Inductive number {F : Type} :=
| IntValue (n : nat)
| FloatValue (x : F).
Arguments number : clear implicits.

Record StatsDict {F : Type} := mkStatsDict {
  gs_total_nodes : nat;
  gs_total_edges : nat;
  gs_node_types : list (string * nat);
  gs_avg_degree : number F
}.
Arguments StatsDict : clear implicits.

(** [GraphBuilder.get_graph_stats]; the division of two integers is the
    true division of the run-time. *)
Definition get_graph_stats `{PF : PyFloat} {P : Type} (self : GraphBuilder.t P)
    : StatsDict Float :=
  let g := graph self in
  mkStatsDict Float (number_of_nodes g) (number_of_edges g)
              (_count_node_types self)
              (if (0 <? number_of_nodes g)%nat
               then FloatValue (truediv (list_sum (degree g).*2)
                                        (number_of_nodes g))
               else IntValue 0).

End BuilderQueries.

(** ** The first query engine: [QueryEngine] *)

Module QueryEngine.
Import DiGraph Evidence GraphQueryEngine.

Section Engine.
Context {SO : SetOrder}.

(** [self.graph] *)
Variable graph : DiGraph.t.

(** [QueryEngine._find_node_by_name]: the first node whose name is the
    given one when both are lower-cased. *)
Definition _find_node_by_name (name : string) : option string :=
  let name_lower := PyStr.lower name in
  fst <$> List.find
            (fun nd : string * NodeData =>
               bool_decide (PyStr.lower (default "" (n_name nd.2)) = name_lower))
            (g_nodes graph).

(** [QueryEngine.find_path]: [NetworkXNoPath] is caught and gives the
    empty list; [NodeNotFound] is not caught ([None]).  A node whose id
    is the empty string is falsy. *)
Definition find_path (source target : string) : option (list string) :=
  match _find_node_by_name source, _find_node_by_name target with
  | Some source_node, Some target_node =>
      if PyStr.truthy source_node && PyStr.truthy target_node then
        if has_node graph source_node && has_node graph target_node then
          Some (default [] (shortest_path graph source_node target_node))
        else None
      else Some []
  | _, _ => Some []
  end.

Record SubNode := mkSubNode {
  sn_id : string;
  sn_data : NodeData
}.

Record RelevantSubgraph := mkRelevant {
  rs_nodes : list SubNode;
  rs_edges : list SubEdge
}.

(** The nodes matching an entity: [entity.lower() in node_name]. *)
Definition matching_nodes (entities : list string) : list string :=
  omap (fun nd : string * NodeData =>
          let node_name := PyStr.lower (default "" (n_name nd.2)) in
          if existsb (fun entity => PyStr.contains (PyStr.lower entity) node_name)
                     entities
          then Some nd.1 else None)
       (g_nodes graph).

(** The nodes the subgraph is grown from: the matching nodes, or the
    five nodes of highest degree when nothing matches. *)
Definition relevant_nodes (entities : list string) : list string :=
  let matched := matching_nodes entities in
  if negb (nonempty matched) && (0 <? number_of_nodes graph)%nat then
    (take 5 (sorted_desc (degree graph))).*1
  else matched.

(** One turn of the 1-hop loop. *)
Definition add_neighbours (subgraph_nodes : gset string) (node : string)
    : option (gset string) :=
  succs ← successors graph node;
  preds ← predecessors graph node;
  Some (subgraph_nodes ∪ list_to_set succs ∪ list_to_set preds).

(** [QueryEngine._find_relevant_subgraph] *)
Definition _find_relevant_subgraph (entities : list string) (scope : string)
    : option RelevantSubgraph :=
  let relevant := relevant_nodes entities in
  subgraph_nodes ← foldM add_neighbours (list_to_set relevant) relevant;
  nodes ← foldM (fun nodes node =>
            if has_node graph node then
              data ← node_data graph node;
              Some (nodes ++ [mkSubNode node data])%list
            else Some nodes)
         [] (take 20 (set_iter subgraph_nodes));
  edges ← foldM (fun edges st =>
            if bool_decide (st.1 ∈ subgraph_nodes) &&
               bool_decide (st.2 ∈ subgraph_nodes)
            then
              edge ← edge_data graph st.1 st.2;
              Some (edges ++ [mkSubEdge st.1 st.2
                                (default "" (e_relation edge))])%list
            else Some edges)
         [] (edges_iter graph);
  Some (mkRelevant nodes edges).

(** [QueryEngine._get_highlighted_nodes] *)
Definition _get_highlighted_nodes (subgraph : RelevantSubgraph)
    : list string :=
  sn_id <$> rs_nodes subgraph.
End Engine.
End QueryEngine.

(** ** What the path strategy keeps while it runs *)

Module PathInvariant.
Import DiGraph Walk Evidence GraphQueryEngine.

(** A reported path, [X] being the node set collected so far: a walk
    from one of the first three paper nodes to one of the first three
    code nodes, with a step for each edge and its nodes in [X]. *)
Definition path_reported (g : DiGraph.t) (entities : list string)
    (X : gset string) (p : PathDetail) : Prop :=
  exists a b,
    a ∈ take 3 (_find_nodes_by_entities g entities (Some "paper")) /\
    b ∈ take 3 (_find_nodes_by_entities g entities (Some "code")) /\
    walk_from_to g (pd_nodes p) a b /\
    pd_steps p <> [] /\
    length (pd_steps p) = (length (pd_nodes p) - 1)%nat /\
    forall n, n ∈ pd_nodes p -> n ∈ X.

End PathInvariant.

(** A division that keeps the numerator and the denominator, for running
    the statistics. *)
Definition exact_ratio : PyFloat :=
  {| Float := nat * nat; truediv := fun a b => (a, b) |}.

(** ** A graph on which only one of the two hop strategies reaches an edge *)

Module DualScenario.
Import DiGraph Scenario.

(** [b] has the six predecessors [p1] .. [p5] and [a], in this order, and
    [b] is the only successor of [a]. *)
Definition funnel : DiGraph.t :=
  let g0 := foldl (fun g n => add_node g n (named n)) empty
                  ["a"; "b"; "p1"; "p2"; "p3"; "p4"; "p5"] in
  let g1 := foldl (fun g p => add_edge g p "b" no_edge_attrs) g0
                  ["p1"; "p2"; "p3"; "p4"; "p5"] in
  add_edge g1 "a" "b" no_edge_attrs.

End DualScenario.

(** * Properties *)

(* stdpp's solvers clear hypotheses that may be gone already. *)
#[local] Set Warnings "-clear-no-such-hyp".

(** ** Insertion-ordered dictionaries *)

Section AlistFacts.
Context {K V : Type} `{EqDecision K}.
Implicit Types (l : list (K * V)) (k : K) (v : V).
Import DiGraph.

Lemma alist_get_is_Some k l : is_Some (alist_get k l) ↔ k ∈ l.*1.
Proof.
  induction l as [|[k' v'] l IH]; csimpl.
  - split; [intros [? ?]; discriminate | intros ?%elem_of_nil; done].
  - destruct (decide (k = k')) as [->|Hne].
    + split; [intros _; left | eauto].
    + rewrite IH, elem_of_cons. split; [by right | by intros [?|?]].
Qed.

Lemma alist_get_elem k v l : alist_get k l = Some v → (k, v) ∈ l.
Proof.
  induction l as [|[k' v'] l IH]; csimpl; [done|].
  destruct (decide (k = k')) as [->|Hne].
  - intros [= ->]. left.
  - intros ?%IH. by right.
Qed.

Lemma alist_elem_get k v l : NoDup l.*1 → (k, v) ∈ l → alist_get k l = Some v.
Proof.
  induction l as [|[k' v'] l IH]; csimpl.
  - intros _ ?%elem_of_nil; done.
  - intros [Hnotin Hnd]%NoDup_cons [Heq|Hin]%elem_of_cons.
    + injection Heq as -> ->. by rewrite decide_True.
    + destruct (decide (k = k')) as [->|Hne]; [|by apply IH].
      exfalso. apply Hnotin. apply list_elem_of_fmap. by exists (k', v).
Qed.

Lemma alist_upsert_keys k f fresh l :
  (alist_upsert k f fresh l).*1 = if decide (k ∈ l.*1) then l.*1 else (l.*1 ++ [k])%list.
Proof.
  induction l as [|[k' v'] l IH]; csimpl.
  - done.
  - destruct (decide (k = k')) as [->|Hne]; csimpl.
    + rewrite decide_True; [done | left].
    + rewrite IH. destruct (decide (k ∈ l.*1)) as [Hin|Hnin].
      * rewrite decide_True; [done | by right].
      * rewrite decide_False; [done |].
        rewrite elem_of_cons. by intros [?|?].
Qed.

Lemma alist_upsert_NoDup k f fresh l :
  NoDup l.*1 → NoDup (alist_upsert k f fresh l).*1.
Proof.
  intros Hnd. rewrite alist_upsert_keys. case_decide; [done|].
  apply NoDup_app. split_and!; [done | | apply NoDup_singleton].
  intros x Hx ->%list_elem_of_singleton. done.
Qed.

Lemma alist_get_upsert_eq k f fresh l :
  alist_get k (alist_upsert k f fresh l)
  = Some (match alist_get k l with Some v => f v | None => fresh end).
Proof.
  induction l as [|[k' v'] l IH]; csimpl.
  - by rewrite decide_True.
  - destruct (decide (k = k')) as [->|Hne]; csimpl.
    + by rewrite decide_True.
    + by rewrite decide_False.
Qed.

Lemma alist_get_upsert_ne k k' f fresh l :
  k ≠ k' → alist_get k' (alist_upsert k f fresh l) = alist_get k' l.
Proof.
  intros Hne. induction l as [|[k'' v''] l IH]; csimpl.
  - rewrite decide_False; [done | congruence].
  - destruct (decide (k = k'')) as [->|Hne']; csimpl.
    + by rewrite !decide_False by congruence.
    + destruct (decide (k' = k'')); [done | apply IH].
Qed.

Lemma alist_upsert_elem_keys k f fresh l k' :
  k' ∈ (alist_upsert k f fresh l).*1 ↔ k' = k ∨ k' ∈ l.*1.
Proof.
  rewrite alist_upsert_keys. case_decide as Hin.
  - split; [by right | intros [->|?]; done].
  - rewrite elem_of_app, list_elem_of_singleton. tauto.
Qed.
End AlistFacts.

(** ** The graph store *)

Section DiGraphFacts.
Import DiGraph.
Implicit Types (g : DiGraph.t) (n u v : string).

Lemma has_node_spec g n : has_node g n = true ↔ n ∈ node_ids g.
Proof.
  unfold has_node, node_ids. rewrite bool_decide_eq_true.
  apply alist_get_is_Some.
Qed.

Lemma node_data_is_Some g n : is_Some (node_data g n) ↔ n ∈ node_ids g.
Proof. apply alist_get_is_Some. Qed.

Lemma edge_data_is_Some g u v :
  is_Some (edge_data g u v) ↔ (u, v) ∈ (g_edges g).*1.
Proof. apply alist_get_is_Some. Qed.

Lemma elem_of_succ_list g u v : v ∈ succ_list g u ↔ (u, v) ∈ (g_edges g).*1.
Proof.
  unfold succ_list. rewrite list_elem_of_omap, list_elem_of_fmap. split.
  - intros ([[u' v'] d] & Hin & Heq). simpl in Heq.
    case_decide as Hd; [|done]. simpl in Hd. simplify_eq.
    eexists; split; [|done]. done.
  - intros ([[u' v'] d] & Heq & Hin). simpl in Heq. simplify_eq.
    eexists; split; [done|]. simpl. by rewrite decide_True.
Qed.

Lemma elem_of_pred_list g u v : u ∈ pred_list g v ↔ (u, v) ∈ (g_edges g).*1.
Proof.
  unfold pred_list. rewrite list_elem_of_omap, list_elem_of_fmap. split.
  - intros ([[u' v'] d] & Hin & Heq). simpl in Heq.
    case_decide as Hd; [|done]. simpl in Hd. simplify_eq.
    eexists; split; [|done]. done.
  - intros ([[u' v'] d] & Heq & Hin). simpl in Heq. simplify_eq.
    eexists; split; [done|]. simpl. by rewrite decide_True.
Qed.

Lemma wf_spec g :
  wf g = true ↔ NoDup (node_ids g) ∧ NoDup (g_edges g).*1 ∧ closed g.
Proof.
  unfold wf, closed. rewrite !andb_true_iff, !bool_decide_eq_true.
  rewrite forallb_forall. setoid_rewrite <- list_elem_of_In.
  split.
  - intros [[Hn He] Hc]. split_and!; [done..|].
    intros u v ([[u' v'] d] & Heq & Hin)%list_elem_of_fmap. simpl in Heq.
    simplify_eq. specialize (Hc _ Hin). simpl in Hc.
    apply andb_true_iff in Hc as [? ?]. by rewrite <- !has_node_spec.
  - intros (Hn & He & Hc). split_and!; [done..|].
    intros [[u v] d] Hin. simpl.
    destruct (Hc u v) as [? ?].
    { apply list_elem_of_fmap. by exists (u, v, d). }
    apply andb_true_iff. by rewrite !has_node_spec.
Qed.

Lemma node_ids_add_node g n attrs m :
  m ∈ node_ids (add_node g n attrs) ↔ m = n ∨ m ∈ node_ids g.
Proof. apply alist_upsert_elem_keys. Qed.

Lemma edges_add_node g n attrs : g_edges (add_node g n attrs) = g_edges g.
Proof. done. Qed.

Lemma add_edge_known_nodes g u v attrs :
  has_node g u = true → has_node g v = true →
  g_nodes (add_edge g u v attrs) = g_nodes g.
Proof. intros Hu Hv. unfold add_edge. by rewrite Hu, Hv. Qed.

Lemma node_ids_ensure g n m :
  m ∈ node_ids (if has_node g n then g else add_node g n no_node_attrs)
  ↔ m = n ∨ m ∈ node_ids g.
Proof.
  destruct (has_node g n) eqn:Hn.
  - apply has_node_spec in Hn. split; [by right | by intros [->|?]].
  - apply node_ids_add_node.
Qed.

Lemma node_ids_add_edge g u v attrs m :
  m ∈ node_ids (add_edge g u v attrs) ↔ m = u ∨ m = v ∨ m ∈ node_ids g.
Proof.
  unfold add_edge.
  change (m ∈ node_ids
            (let g1 := if has_node g u then g else add_node g u no_node_attrs in
             if has_node g1 v then g1 else add_node g1 v no_node_attrs)
          ↔ m = u ∨ m = v ∨ m ∈ node_ids g).
  cbv zeta. rewrite !node_ids_ensure. tauto.
Qed.

Lemma edge_keys_add_edge g u v attrs k :
  k ∈ (g_edges (add_edge g u v attrs)).*1 ↔ k = (u, v) ∨ k ∈ (g_edges g).*1.
Proof.
  unfold add_edge. cbn [g_edges]. rewrite alist_upsert_elem_keys.
  by destruct (has_node g u), (has_node _ v).
Qed.

Lemma wf_empty : wf empty = true.
Proof. done. Qed.

Lemma wf_add_node g n attrs : wf g = true → wf (add_node g n attrs) = true.
Proof.
  rewrite !wf_spec. intros (Hn & He & Hc). split_and!.
  - by apply alist_upsert_NoDup.
  - done.
  - intros u v Huv. rewrite !node_ids_add_node.
    destruct (Hc u v Huv). tauto.
Qed.

Lemma add_edge_nodes_NoDup g u v attrs :
  NoDup (node_ids g) → NoDup (node_ids (add_edge g u v attrs)).
Proof.
  intros Hn. unfold add_edge. cbn [g_nodes node_ids].
  destruct (has_node g u); destruct (has_node _ v); try done;
    repeat apply alist_upsert_NoDup; done.
Qed.

Lemma wf_add_edge g u v attrs : wf g = true → wf (add_edge g u v attrs) = true.
Proof.
  rewrite !wf_spec. intros (Hn & He & Hc). split_and!.
  - by apply add_edge_nodes_NoDup.
  - unfold add_edge. cbn [g_edges]. apply alist_upsert_NoDup.
    by destruct (has_node g u), (has_node _ v).
  - intros u' v' [Heq|Hin]%edge_keys_add_edge; rewrite !node_ids_add_edge.
    + simplify_eq. tauto.
    + destruct (Hc u' v' Hin). tauto.
Qed.

Lemma edge_data_add_edge_eq g u v attrs :
  edge_data (add_edge g u v attrs) u v
  = Some (match edge_data g u v with
          | Some old => update_edge old attrs
          | None => attrs
          end).
Proof.
  unfold edge_data, add_edge. cbn [g_edges]. rewrite alist_get_upsert_eq.
  by destruct (has_node g u), (has_node _ v).
Qed.

Lemma edge_data_add_edge_ne g u v attrs u' v' :
  (u, v) ≠ (u', v') →
  edge_data (add_edge g u v attrs) u' v' = edge_data g u' v'.
Proof.
  intros Hne. unfold edge_data, add_edge. cbn [g_edges].
  rewrite alist_get_upsert_ne by done.
  by destruct (has_node g u), (has_node _ v).
Qed.
End DiGraphFacts.

(** ** Graph assembly *)

Section BuilderFacts.
Import DiGraph GraphBuilder.
Implicit Types (g : DiGraph.t) (e : EdgeRec).

Lemma foldl_add_node_edges {A} (key : A → string) (attrs : A → NodeData) xs g :
  g_edges (foldl (λ g x, add_node g (key x) (attrs x)) g xs) = g_edges g.
Proof. revert g. induction xs as [|x xs IH]; intros g; [done|]. cbn. by rewrite IH. Qed.

Lemma foldl_add_node_ids {A} (key : A → string) (attrs : A → NodeData) xs g m :
  m ∈ node_ids (foldl (λ g x, add_node g (key x) (attrs x)) g xs)
  ↔ m ∈ node_ids g ∨ m ∈ key <$> xs.
Proof.
  revert g. induction xs as [|x xs IH]; intros g; csimpl.
  - rewrite elem_of_nil. tauto.
  - rewrite IH, node_ids_add_node, elem_of_cons. tauto.
Qed.

Lemma foldl_add_node_wf {A} (key : A → string) (attrs : A → NodeData) xs g :
  wf g = true → wf (foldl (λ g x, add_node g (key x) (attrs x)) g xs) = true.
Proof.
  revert g. induction xs as [|x xs IH]; intros g Hwf; [done|].
  cbn. apply IH. by apply wf_add_node.
Qed.

(** The guarded edge loop never makes a node. *)
Lemma add_edge_if_known_nodes attrs g e :
  g_nodes (add_edge_if_known attrs g e) = g_nodes g.
Proof.
  unfold add_edge_if_known.
  destruct (has_node g (r_source e)) eqn:Hs; [|done].
  destruct (has_node g (r_target e)) eqn:Ht; [|done].
  by apply add_edge_known_nodes.
Qed.

Lemma add_edge_if_known_skip attrs g e :
  has_node g (r_source e) && has_node g (r_target e) = false →
  add_edge_if_known attrs g e = g.
Proof. intros H. unfold add_edge_if_known. by rewrite H. Qed.

Lemma add_edge_if_known_new_key attrs g e k :
  k ∈ (g_edges (add_edge_if_known attrs g e)).*1 → k ∉ (g_edges g).*1 →
  k = edge_key e ∧ has_node g (r_source e) = true ∧ has_node g (r_target e) = true.
Proof.
  unfold add_edge_if_known.
  destruct (has_node g (r_source e)); [|done].
  destruct (has_node g (r_target e)); [|done].
  intros [->|?]%edge_keys_add_edge ?; done.
Qed.

Lemma add_edge_if_known_keys attrs g e k :
  k ∈ (g_edges (add_edge_if_known attrs g e)).*1 →
  k = edge_key e ∨ k ∈ (g_edges g).*1.
Proof.
  unfold add_edge_if_known.
  destruct (_ && _); [|by right]. by intros ?%edge_keys_add_edge.
Qed.

Lemma add_edge_if_known_wf attrs g e :
  wf g = true → wf (add_edge_if_known attrs g e) = true.
Proof.
  unfold add_edge_if_known. destruct (_ && _); [|done]. apply wf_add_edge.
Qed.

Lemma foldl_edges_nodes attrs es g :
  g_nodes (foldl (add_edge_if_known attrs) g es) = g_nodes g.
Proof.
  revert g. induction es as [|e es IH]; intros g; [done|].
  cbn. by rewrite IH, add_edge_if_known_nodes.
Qed.

Lemma foldl_edges_wf attrs es g :
  wf g = true → wf (foldl (add_edge_if_known attrs) g es) = true.
Proof.
  revert g. induction es as [|e es IH]; intros g Hwf; [done|].
  cbn. apply IH. by apply add_edge_if_known_wf.
Qed.

Lemma foldl_edges_keys attrs es g k :
  k ∈ (g_edges (foldl (add_edge_if_known attrs) g es)).*1 →
  k ∈ (g_edges g).*1 ∨ k ∈ edge_key <$> es.
Proof.
  revert g. induction es as [|e es IH]; intros g; csimpl; [by left|].
  intros [Hk|Hk]%IH; [|right; by right].
  apply add_edge_if_known_keys in Hk as [->|Hk]; [right; left | by left].
Qed.

(** The paper-edge loop runs over the list when there is one. *)
Lemma paper_edges_loop (pe : option (list EdgeRec)) g :
  match pe with
  | Some (e :: es) => foldl add_paper_edge g (e :: es)
  | _ => g
  end = foldl add_paper_edge g (default [] pe).
Proof. by destruct pe as [[|e es]|]. Qed.

Section Built.
Context {P : Type}.
Implicit Types (self : GraphBuilder.t P).

Lemma build_graph_eq self fd parsed :
  graph (build_graph self fd parsed)
  = foldl add_relationship (foldl add_feature empty (features fd))
          (relationships fd).
Proof. done. Qed.

Lemma build_unified_graph_eq self pn cn ce pe :
  graph (build_unified_graph self pn cn ce pe)
  = foldl add_cross_edge
      (foldl add_paper_edge
         (foldl add_code_node (foldl add_paper_node empty pn) cn)
         (default [] pe))
      ce.
Proof.
  unfold build_unified_graph. cbn [graph]. by rewrite paper_edges_loop.
Qed.

Lemma build_graph_wf self fd parsed :
  wf (graph (build_graph self fd parsed)) = true.
Proof.
  rewrite build_graph_eq. apply foldl_edges_wf.
  apply (foldl_add_node_wf f_id feature_attrs). apply wf_empty.
Qed.

Lemma build_unified_graph_wf self pn cn ce pe :
  wf (graph (build_unified_graph self pn cn ce pe)) = true.
Proof.
  rewrite build_unified_graph_eq. do 2 apply foldl_edges_wf.
  apply (foldl_add_node_wf c_id code_attrs).
  apply (foldl_add_node_wf p_id paper_attrs). apply wf_empty.
Qed.
End Built.

(** *** The flags of the unified build *)

Lemma update_edge_paper_flags old e :
  flags_are (update_edge old (paper_edge_attrs e)) false.
Proof. done. Qed.

Lemma update_edge_cross_flags old e :
  flags_are (update_edge old (cross_edge_attrs e)) true.
Proof. done. Qed.

Lemma edge_data_add_edge_if_known attrs g e u v :
  edge_data (add_edge_if_known attrs g e) u v
  = if has_node g (r_source e) && has_node g (r_target e)
       && bool_decide ((u, v) = edge_key e)
    then Some (match edge_data g u v with
               | Some old => update_edge old (attrs e)
               | None => attrs e
               end)
    else edge_data g u v.
Proof.
  unfold add_edge_if_known.
  destruct (has_node g (r_source e) && has_node g (r_target e)); [|done].
  cbn [andb]. case_bool_decide as Hk.
  - unfold edge_key in Hk. injection Hk as -> ->. apply edge_data_add_edge_eq.
  - apply edge_data_add_edge_ne. unfold edge_key in Hk. congruence.
Qed.

(** Throughout the paper-edge loop every edge carries the paper flags and
    comes from the list. *)
Lemma paper_loop_flags all es g :
  es ⊆ all →
  (∀ u v d, edge_data g u v = Some d →
            flags_are d false ∧ (u, v) ∈ edge_key <$> all) →
  ∀ u v d, edge_data (foldl add_paper_edge g es) u v = Some d →
           flags_are d false ∧ (u, v) ∈ edge_key <$> all.
Proof.
  revert g. induction es as [|e es IH]; intros g Hsub Hg; [done|].
  cbn [foldl]. apply IH.
  { intros x Hx. apply Hsub. by right. }
  intros u v d. unfold add_paper_edge. rewrite edge_data_add_edge_if_known.
  destruct (_ && _ && _) eqn:Hc; [|apply Hg].
  apply andb_true_iff in Hc as [_ Hk%bool_decide_eq_true].
  intros [= <-]. split.
  - destruct (edge_data g u v); [apply update_edge_paper_flags | done].
  - rewrite Hk. apply list_elem_of_fmap. exists e. split; [done|].
    apply Hsub. left.
Qed.

Lemma cross_loop_step origin g handled e :
  wf g = true → cross_loop_inv origin g handled →
  cross_loop_inv origin (add_cross_edge g e) (handled ++ [e])%list.
Proof.
  intros Hwf Hinv u v d. unfold add_cross_edge.
  rewrite edge_data_add_edge_if_known.
  rewrite fmap_app. csimpl.
  destruct (decide ((u, v) = edge_key e)) as [Hk|Hk].
  - rewrite (bool_decide_eq_true_2 ((u, v) ∈ _)).
    2:{ rewrite elem_of_app, list_elem_of_singleton. by right. }
    rewrite (bool_decide_eq_true_2 _ Hk), andb_true_r.
    destruct (has_node g (r_source e) && has_node g (r_target e)) eqn:Hguard.
    + intros [= <-].
      destruct (edge_data g u v); [apply update_edge_cross_flags | done].
    + intros Hd. exfalso.
      apply wf_spec in Hwf as (_ & _ & Hclosed).
      destruct (Hclosed u v) as [Hu Hv].
      { apply edge_data_is_Some. by exists d. }
      unfold edge_key in Hk. injection Hk as -> ->.
      apply has_node_spec in Hu, Hv. rewrite Hu, Hv in Hguard. done.
  - rewrite (bool_decide_eq_false_2 _ Hk), andb_false_r.
    intros Hd. specialize (Hinv u v d Hd).
    assert (bool_decide ((u, v) ∈ ((edge_key <$> handled) ++ [edge_key e])%list)
            = bool_decide ((u, v) ∈ edge_key <$> handled)) as ->; [|done].
    apply bool_decide_ext.
    rewrite elem_of_app, list_elem_of_singleton. tauto.
Qed.

Lemma cross_loop_flags origin es g handled :
  wf g = true → cross_loop_inv origin g handled →
  cross_loop_inv origin (foldl add_cross_edge g es) (handled ++ es)%list.
Proof.
  revert g handled. induction es as [|e es IH]; intros g handled Hwf Hinv.
  - by rewrite app_nil_r.
  - cbn [foldl].
    replace (handled ++ e :: es)%list with ((handled ++ [e]) ++ es)%list
      by (by rewrite <- app_assoc).
    apply IH; [by apply add_edge_if_known_wf | by apply cross_loop_step].
Qed.
End BuilderFacts.

(** ** Loops that may raise *)

Section FoldMFacts.
Import GraphQueryEngine.
Context {A S : Type}.
Implicit Types (body : S → A → option S) (l : list A) (acc : S).

(** A loop whose body succeeds on every element and keeps [I] ends, and
    ends in a state with [I]. *)
Lemma foldM_inv (I : S → Prop) body l acc :
  I acc →
  (∀ s x, x ∈ l → I s → ∃ s', body s x = Some s' ∧ I s') →
  ∃ s', foldM body acc l = Some s' ∧ I s'.
Proof.
  revert acc. induction l as [|x l IH]; intros acc Hacc Hbody; cbn.
  - by exists acc.
  - destruct (Hbody acc x) as (s' & -> & Hs'); [left | done |].
    apply IH; [done|]. intros s y Hy. apply Hbody. by right.
Qed.

(** What the turn on [x] establishes, and every turn keeps, holds at the
    end. *)
Lemma foldM_reach (G : S → Prop) body l acc x :
  x ∈ l →
  (∀ s y, y ∈ l → ∃ s', body s y = Some s' ∧ (G s → G s')) →
  (∀ s s', body s x = Some s' → G s') →
  ∃ s', foldM body acc l = Some s' ∧ G s'.
Proof.
  revert acc. induction l as [|y l IH]; intros acc Hx Hkeep Hset.
  - by apply elem_of_nil in Hx.
  - cbn. destruct (Hkeep acc y) as (s' & Hy & _); [left|]. rewrite Hy.
    apply elem_of_cons in Hx as [<-|Hx].
    + apply (foldM_inv G); [by eapply Hset|].
      intros s z Hz Hs. destruct (Hkeep s z) as (s'' & ? & ?); [by right|].
      exists s''. auto.
    + apply IH; [done | | done].
      intros s z Hz. apply Hkeep. by right.
Qed.
End FoldMFacts.

(** ** The classifier *)

Section ClassifierFacts.
Import GraphQueryEngine.

Lemma any_keyword_intro q keywords k :
  k ∈ keywords → PyStr.contains k q = true → any_keyword q keywords = true.
Proof.
  intros Hk Hc. unfold any_keyword. apply existsb_exists.
  exists k. split; [by apply list_elem_of_In | done].
Qed.
End ClassifierFacts.

(** ** Neighbourhood expansion *)

Section NeighbourhoodFacts.
Import DiGraph GraphQueryEngine.
Implicit Types (g : DiGraph.t) (X : gset string).

Lemma elem_of_hop_new g X x :
  x ∈ hop_new g X ↔ ∃ n, n ∈ X ∧ has_node g n = true ∧ adjacent g n x.
Proof.
  unfold hop_new. setoid_rewrite <- (elem_of_elements X).
  induction (elements X) as [|m l IH]; cbn [foldr].
  - split; [by intros ?%elem_of_empty | intros (n & ?%elem_of_nil & _); done].
  - destruct (has_node g m) eqn:Hm.
    + rewrite !elem_of_union, !elem_of_list_to_set, IH. split.
      * intros [[(n & ? & ? & ?)|Hs]|Hp].
        -- exists n. split_and!; [by right | done..].
        -- exists m. split_and!; [left | done | by left].
        -- exists m. split_and!; [left | done | by right].
      * intros (n & [->|Hn]%elem_of_cons & Hh & Hadj).
        -- destruct Hadj; tauto.
        -- left; left. by exists n.
    + rewrite IH. split.
      * intros (n & ? & ? & ?). exists n. split_and!; [by right | done..].
      * intros (n & [->|Hn]%elem_of_cons & Hh & Hadj); [congruence|].
        by exists n.
Qed.

Lemma expand_hops_extends g hops X : X ⊆ expand_hops g hops X.
Proof.
  revert X. induction hops as [|hops IH]; intros X; cbn [expand_hops]; [done|].
  case_match; [set_solver|].
  etrans; [|apply IH]. set_solver.
Qed.

Lemma hop_new_nodes g X : closed g → hop_new g X ⊆ list_to_set (node_ids g).
Proof.
  intros Hc x (n & _ & _ & [Hs|Hp])%elem_of_hop_new; apply elem_of_list_to_set.
  - apply elem_of_succ_list in Hs. by destruct (Hc _ _ Hs).
  - apply elem_of_pred_list in Hp. by destruct (Hc _ _ Hp).
Qed.

Lemma expand_hops_within g hops X :
  closed g → expand_hops g hops X ⊆ X ∪ list_to_set (node_ids g).
Proof.
  intros Hc. revert X. induction hops as [|hops IH]; intros X; cbn [expand_hops].
  - set_solver.
  - pose proof (hop_new_nodes g X Hc).
    case_match; [set_solver|].
    etrans; [apply IH|]. set_solver.
Qed.

Lemma edges_iter_edge g u v : (u, v) ∈ edges_iter g → is_Some (edge_data g u v).
Proof.
  unfold edges_iter. rewrite list_elem_of_In, in_flat_map.
  intros (n & _ & Hin). apply list_elem_of_In, list_elem_of_fmap in Hin.
  destruct Hin as (w & [= -> ->] & Hw).
  apply edge_data_is_Some. by apply elem_of_succ_list.
Qed.

Lemma neighborhood_subgraph_total `{SO : SetOrder} g seeds hops :
  ∃ edges, _get_neighborhood_subgraph g seeds hops
           = Some (mkSubgraph (set_iter (neighborhood_nodes g seeds hops)) edges).
Proof.
  unfold _get_neighborhood_subgraph.
  set (X := neighborhood_nodes g seeds hops).
  set (body := λ (edges : list Evidence.SubEdge) (st : string * string), _).
  destruct (foldM_inv (λ _, True) body (edges_iter g) []) as (edges & -> & _);
    [done | | by exists edges].
  intros s [u v] Hin _. unfold body. cbn [fst snd].
  destruct (_ && _); [|by eexists].
  destruct (edges_iter_edge g u v Hin) as [d ->]. by eexists.
Qed.
End NeighbourhoodFacts.

(** ** The strategies *)

Section StrategyFacts.
Import DiGraph Evidence GraphQueryEngine.
Context {SO : SetOrder} {NX : NxCentrality}.
Implicit Types (g : DiGraph.t) (n u v : string).

Lemma find_nodes_are_nodes g entities modality n :
  n ∈ _find_nodes_by_entities g entities modality → n ∈ node_ids g.
Proof.
  unfold _find_nodes_by_entities, node_ids.
  intros ([m data] & Hin & Hsome)%list_elem_of_omap.
  cbn in Hsome. repeat case_match; simplify_eq.
  apply list_elem_of_fmap. by exists (n, data).
Qed.

Lemma successors_node g n : n ∈ node_ids g → successors g n = Some (succ_list g n).
Proof. intros Hn%has_node_spec. unfold successors. by rewrite Hn. Qed.

Lemma predecessors_node g n : n ∈ node_ids g → predecessors g n = Some (pred_list g n).
Proof. intros Hn%has_node_spec. unfold predecessors. by rewrite Hn. Qed.

(** *** Gap *)

Lemma has_implementation_spec g n succs :
  (∀ s, s ∈ succs → is_Some (edge_data g n s)) →
  has_implementation g n succs
  = Some (existsb (λ s, from_option is_implementation_edge false (edge_data g n s))
                  succs).
Proof.
  induction succs as [|s succs IH]; intros Hall; [done|].
  cbn [has_implementation existsb].
  destruct (Hall s) as [d Hd]; [left|]. rewrite Hd. cbn.
  destruct (is_implementation_edge d); [done|].
  apply IH. intros s' Hs'. apply Hall. by right.
Qed.

Lemma gap_turn_spec g gaps nd :
  nd.1 ∈ node_ids g →
  gap_turn g gaps nd
  = Some (if is_gap_node g nd then (gaps ++ [gap_entry nd])%list else gaps).
Proof.
  intros Hn. unfold gap_turn, is_gap_node.
  case_bool_decide as Hm; [|done]. cbn [andb].
  rewrite (successors_node g _ Hn). cbn.
  rewrite has_implementation_spec.
  2:{ intros s Hs. apply edge_data_is_Some. by apply elem_of_succ_list. }
  fold (implemented g nd.1). by destruct (implemented g nd.1).
Qed.

Lemma gap_loop g nodes gaps :
  (∀ nd, nd ∈ nodes → nd.1 ∈ node_ids g) →
  foldM (gap_turn g) gaps nodes
  = Some (gaps ++ (gap_entry <$> List.filter (is_gap_node g) nodes))%list.
Proof.
  revert gaps. induction nodes as [|nd nodes IH]; intros gaps Hall.
  - cbn. by rewrite app_nil_r.
  - cbn [foldM List.filter]. rewrite gap_turn_spec by (apply Hall; left).
    rewrite IH by (intros ? ?; apply Hall; by right).
    destruct (is_gap_node g nd); [|done].
    by rewrite fmap_cons, <- app_assoc.
Qed.

Lemma implemented_false g n :
  implemented g n = false ↔
  ∀ t edge, edge_data g n t = Some edge → is_implementation_edge edge = false.
Proof.
  unfold implemented. rewrite <- not_true_iff_false, existsb_exists. split.
  - intros Hno t edge Hd. apply not_true_iff_false. intros Himpl.
    apply Hno. exists t. split.
    + apply list_elem_of_In, elem_of_succ_list, edge_data_is_Some. by exists edge.
    + by rewrite Hd.
  - intros Hall (t & _ & Ht). destruct (edge_data g n t) as [edge|] eqn:Hd; [|done].
    cbn in Ht. by rewrite (Hall t edge Hd) in Ht.
Qed.

(** The test the code makes on an edge is the one the claim words. *)
Lemma is_implementation_edge_spec (edge : EdgeData) :
  is_implementation_edge edge = true ↔ implementing_edge edge.
Proof.
  unfold is_implementation_edge, implementing_edge, is_impl_relation.
  rewrite andb_true_iff.
  destruct (e_cross_modal edge) as [[]|]; cbn;
    [|split; [by intros [? _] | by intros [[=] _]]..].
  destruct (e_relation edge) as [r|]; cbn.
  - rewrite orb_true_iff, !String.eqb_eq. split.
    + intros [_ [->| ->]]; split; auto.
    + intros [_ [[= ->]|[= ->]]]; split; auto.
  - split; [by intros [_ ?] | by intros [_ [?|?]]].
Qed.

Lemma gap_nodes_spec g n :
  n ∈ gp_node <$> (gap_entry <$> List.filter (is_gap_node g) (g_nodes g))
  ↔ is_gap g n.
Proof.
  rewrite <- list_fmap_compose. rewrite list_elem_of_fmap. unfold is_gap. split.
  - intros ([m data] & -> & Hin). cbn.
    apply list_elem_of_In, filter_In in Hin as [Hin Hgap].
    apply list_elem_of_In in Hin. unfold is_gap_node in Hgap. cbn in Hgap.
    apply andb_true_iff in Hgap as [Hm%bool_decide_eq_true Himpl%negb_true_iff].
    exists data. split_and!; [done..|].
    intros t edge Hd Hspec%is_implementation_edge_spec.
    rewrite (proj1 (implemented_false g m) Himpl t edge Hd) in Hspec. done.
  - intros (data & Hin & Hm & Hno). exists (n, data). split; [done|].
    apply list_elem_of_In, filter_In. split; [by apply list_elem_of_In|].
    unfold is_gap_node. cbn. apply andb_true_iff.
    split; [by apply bool_decide_eq_true|].
    apply negb_true_iff, implemented_false. intros t edge Hd.
    apply not_true_iff_false. intros Himpl%is_implementation_edge_spec.
    by apply (Hno t edge Hd).
Qed.

Lemma handle_gap_query_spec g query entities :
  _handle_gap_query g query entities
  = let gaps := gap_entry <$> List.filter (is_gap_node g) (g_nodes g) in
    Some (mkEvidence Score (Some "gap") None None (Some gaps) None None None
            None None (Some (gp_node <$> gaps)) None (Some (length gaps))).
Proof.
  unfold _handle_gap_query. rewrite gap_loop; [done|].
  intros [m data] Hin. apply list_elem_of_fmap. by exists (m, data).
Qed.

(** *** Find *)

Lemma find_loop g nodes locations :
  (∀ n, n ∈ nodes → n ∈ node_ids g) →
  ∃ found, foldM (find_turn g) locations nodes = Some (locations ++ found)%list
           ∧ l_node <$> found = nodes.
Proof.
  revert locations. induction nodes as [|n nodes IH]; intros locations Hall.
  - exists []. by rewrite app_nil_r.
  - cbn [foldM]. unfold find_turn at 1.
    destruct (node_data_is_Some g n) as [_ [data Hd]]; [apply Hall; left|].
    rewrite Hd. cbn.
    destruct (IH (locations ++ [location_of n data])%list) as (found & -> & Hf).
    { intros ? ?. apply Hall. by right. }
    exists (location_of n data :: found). split.
    + by rewrite <- app_assoc.
    + rewrite fmap_cons, Hf. f_equal. unfold location_of. by case_bool_decide.
Qed.
End StrategyFacts.

(** ** The dependency and the impact strategy *)

Section HopFacts.
Import DiGraph Evidence GraphQueryEngine.
Context {SO : SetOrder} {NX : NxCentrality}.
Implicit Types (g : DiGraph.t) (n u v : string).

Lemma closed_pred g u v : closed g → u ∈ pred_list g v →
  is_Some (edge_data g u v) ∧ is_Some (node_data g u) ∧ is_Some (node_data g v)
  ∧ u ∈ node_ids g.
Proof.
  intros Hc Hin%elem_of_pred_list. destruct (Hc _ _ Hin) as [Hu Hv].
  split_and!; [by apply edge_data_is_Some | by apply node_data_is_Some.. | done].
Qed.

Lemma closed_succ g u v : closed g → v ∈ succ_list g u →
  is_Some (edge_data g u v) ∧ is_Some (node_data g u) ∧ is_Some (node_data g v)
  ∧ v ∈ node_ids g.
Proof.
  intros Hc Hin%elem_of_succ_list. destruct (Hc _ _ Hin) as [Hu Hv].
  split_and!; [by apply edge_data_is_Some | by apply node_data_is_Some.. | done].
Qed.

Lemma elem_of_take_elem {A} (l : list A) k x : x ∈ take k l → x ∈ l.
Proof. intros (i & Hi)%list_elem_of_lookup. apply lookup_take_Some in Hi as [Hi _].
       by eapply list_elem_of_lookup_2. Qed.

(** *** Dependency *)

Lemma dep_hop2_ok g dep acc dep2 :
  closed g → dep2 ∈ pred_list g dep →
  ∃ acc', dep_hop2 g dep acc dep2 = Some acc' ∧ ∀ e, e ∈ acc.1 → e ∈ acc'.1.
Proof.
  intros Hc Hin. destruct (closed_pred g _ _ Hc Hin) as ([d Hd] & [a Ha] & [b Hb] & _).
  unfold dep_hop2. rewrite Hd, Ha, Hb. cbn. eexists. split; [done|].
  cbn. intros e He. apply elem_of_app. by left.
Qed.

Lemma dep_hop1_ok g node acc dep :
  closed g → dep ∈ pred_list g node →
  ∃ acc', dep_hop1 g node acc dep = Some acc'
          ∧ (∀ e, e ∈ acc.1 → e ∈ acc'.1)
          ∧ reports_dependency g acc'.1 dep node.
Proof.
  intros Hc Hin.
  destruct (closed_pred g _ _ Hc Hin) as ([d Hd] & [a Ha] & [b Hb] & Hdep).
  unfold dep_hop1. rewrite Hd, Ha, Hb. cbn.
  rewrite (predecessors_node g dep Hdep). cbn.
  set (entry := mkDep dep node _ _ _ _).
  set (acc1 := ((acc.1 ++ [entry])%list, _)).
  destruct (foldM_inv (λ s, ∀ e, e ∈ acc1.1 → e ∈ s.1) (dep_hop2 g dep)
              (take 3 (pred_list g dep)) acc1) as (acc' & -> & Hkeep); [done| |].
  { intros s x Hx%elem_of_take_elem Hs.
    destruct (dep_hop2_ok g dep s x Hc Hx) as (s' & ? & ?).
    exists s'. split; [done|]. auto. }
  exists acc'. split_and!; [done| |].
  - intros e He. apply Hkeep. cbn. apply elem_of_app. by left.
  - exists entry, d. split_and!; [|done..].
    apply Hkeep. cbn. apply elem_of_app. right. by left.
Qed.

Lemma dep_node_ok g acc node :
  closed g → node ∈ node_ids g →
  ∃ acc', dep_node g acc node = Some acc'
          ∧ (∀ e, e ∈ acc.1 → e ∈ acc'.1)
          ∧ ∀ dep, dep ∈ take 5 (pred_list g node) →
                   reports_dependency g acc'.1 dep node.
Proof.
  intros Hc Hn. unfold dep_node. rewrite (predecessors_node g node Hn). cbn.
  assert (∀ s y, y ∈ take 5 (pred_list g node) →
            ∃ s', dep_hop1 g node s y = Some s' ∧ ∀ e, e ∈ s.1 → e ∈ s'.1) as Hstep.
  { intros s y Hy%elem_of_take_elem.
    destruct (dep_hop1_ok g node s y Hc Hy) as (s' & ? & ? & _). by exists s'. }
  destruct (foldM_inv (λ s, ∀ e, e ∈ acc.1 → e ∈ s.1) (dep_hop1 g node)
              (take 5 (pred_list g node)) acc) as (acc' & Hacc' & Hkeep); [done| |].
  { intros s x Hx Hs. destruct (Hstep s x Hx) as (s' & ? & ?).
    exists s'. split; [done|]. auto. }
  exists acc'. split_and!; [done..|].
  intros dep Hdep.
  destruct (foldM_reach (λ s, reports_dependency g s.1 dep node) (dep_hop1 g node)
              (take 5 (pred_list g node)) acc dep Hdep) as (acc'' & Hacc'' & Hrep).
  - intros s y Hy. destruct (Hstep s y Hy) as (s' & ? & Hmono).
    exists s'. split; [done|].
    intros (entry & edge & ? & ?). exists entry, edge. split; [auto | done].
  - intros s s' Hs'.
    destruct (dep_hop1_ok g node s dep Hc (elem_of_take_elem _ _ _ Hdep))
      as (s'' & Hs'' & _ & ?).
    congruence.
  - congruence.
Qed.

Lemma handle_dependency_query_one g query entities b :
  closed g → _find_nodes_by_entities g entities None = [b] →
  ∃ deps nodes,
    _handle_dependency_query g query entities
    = Some (mkEvidence Score (Some "dependency") None (Some deps) None None
              None None None None (Some nodes) None (Some (length deps)))
    ∧ ∀ a, a ∈ take 5 (pred_list g b) → reports_dependency g deps a b.
Proof.
  intros Hc Hseed. unfold _handle_dependency_query. rewrite Hseed. cbn [take foldM].
  destruct (dep_node_ok g ([], ∅) b Hc) as (acc' & -> & _ & Hrep).
  { apply (find_nodes_are_nodes g entities None). rewrite Hseed. left. }
  cbn. by exists acc'.1, (set_iter acc'.2).
Qed.

(** *** Impact *)

Lemma impact_hop2_ok g succ acc succ2 :
  closed g → succ2 ∈ succ_list g succ →
  ∃ acc', impact_hop2 g succ acc succ2 = Some acc' ∧ ∀ e, e ∈ acc.1 → e ∈ acc'.1.
Proof.
  intros Hc Hin. destruct (closed_succ g _ _ Hc Hin) as ([d Hd] & [a Ha] & [b Hb] & _).
  unfold impact_hop2. rewrite Hd, Ha, Hb. cbn. eexists. split; [done|].
  cbn. intros e He. apply elem_of_app. by left.
Qed.

Lemma impact_hop1_ok g node acc succ :
  closed g → succ ∈ succ_list g node →
  ∃ acc', impact_hop1 g node acc succ = Some acc'
          ∧ (∀ e, e ∈ acc.1 → e ∈ acc'.1)
          ∧ reports_affected g acc'.1 node succ.
Proof.
  intros Hc Hin.
  destruct (closed_succ g _ _ Hc Hin) as ([d Hd] & [a Ha] & [b Hb] & Hsucc).
  unfold impact_hop1. rewrite Hd, Ha, Hb. cbn.
  rewrite (successors_node g succ Hsucc). cbn.
  set (entry := mkAff node succ _ _ _ _ _).
  set (acc1 := ((acc.1 ++ [entry])%list, _)).
  destruct (foldM_inv (λ s, ∀ e, e ∈ acc1.1 → e ∈ s.1) (impact_hop2 g succ)
              (take 3 (succ_list g succ)) acc1) as (acc' & -> & Hkeep); [done| |].
  { intros s x Hx%elem_of_take_elem Hs.
    destruct (impact_hop2_ok g succ s x Hc Hx) as (s' & ? & ?).
    exists s'. split; [done|]. auto. }
  exists acc'. split_and!; [done| |].
  - intros e He. apply Hkeep. cbn. apply elem_of_app. by left.
  - exists entry, d. split_and!; [|done..].
    apply Hkeep. cbn. apply elem_of_app. right. by left.
Qed.

Lemma impact_node_ok g acc node :
  closed g → node ∈ node_ids g →
  ∃ acc', impact_node g acc node = Some acc'
          ∧ (∀ e, e ∈ acc.1 → e ∈ acc'.1)
          ∧ ∀ succ, succ ∈ take 5 (succ_list g node) →
                    reports_affected g acc'.1 node succ.
Proof.
  intros Hc Hn. unfold impact_node. rewrite (successors_node g node Hn). cbn.
  assert (∀ s y, y ∈ take 5 (succ_list g node) →
            ∃ s', impact_hop1 g node s y = Some s' ∧ ∀ e, e ∈ s.1 → e ∈ s'.1) as Hstep.
  { intros s y Hy%elem_of_take_elem.
    destruct (impact_hop1_ok g node s y Hc Hy) as (s' & ? & ? & _). by exists s'. }
  destruct (foldM_inv (λ s, ∀ e, e ∈ acc.1 → e ∈ s.1) (impact_hop1 g node)
              (take 5 (succ_list g node)) acc) as (acc' & Hacc' & Hkeep); [done| |].
  { intros s x Hx Hs. destruct (Hstep s x Hx) as (s' & ? & ?).
    exists s'. split; [done|]. auto. }
  exists acc'. split_and!; [done..|].
  intros succ Hsucc.
  destruct (foldM_reach (λ s, reports_affected g s.1 node succ) (impact_hop1 g node)
              (take 5 (succ_list g node)) acc succ Hsucc) as (acc'' & Hacc'' & Hrep).
  - intros s y Hy. destruct (Hstep s y Hy) as (s' & ? & Hmono).
    exists s'. split; [done|].
    intros (entry & edge & ? & ?). exists entry, edge. split; [auto | done].
  - intros s s' Hs'.
    destruct (impact_hop1_ok g node s succ Hc (elem_of_take_elem _ _ _ Hsucc))
      as (s'' & Hs'' & _ & ?).
    congruence.
  - congruence.
Qed.

Lemma handle_impact_query_one g query entities a :
  closed g → _find_nodes_by_entities g entities None = [a] →
  ∃ affected nodes,
    _handle_impact_query g query entities
    = Some (mkEvidence Score (Some "impact") None None None (Some affected)
              None None None None (Some nodes) None (Some (length affected)))
    ∧ ∀ b, b ∈ take 5 (succ_list g a) → reports_affected g affected a b.
Proof.
  intros Hc Hseed. unfold _handle_impact_query. rewrite Hseed. cbn [take foldM].
  destruct (impact_node_ok g ([], ∅) a Hc) as (acc' & -> & _ & Hrep).
  { apply (find_nodes_are_nodes g entities None). rewrite Hseed. left. }
  cbn. by exists acc'.1, (set_iter acc'.2).
Qed.
End HopFacts.

(** * The claims about graph assembly *)

Section AssemblyClaims.
Import DiGraph GraphBuilder.

(** C4.  In both build operations an edge record is turned into an edge
    only when its source and its target are nodes already: each of the
    three edge loops leaves the graph as it is on a record with an
    unknown end, a key that is new after a turn of a loop is the key of
    the record and both ends were nodes before, and in the graph either
    build returns both ends of every edge are nodes. *)
Theorem build_edges_join_known_nodes {P : Type} (self : GraphBuilder.t P)
    (fd : FeatureData) (parsed : P) (pn : list PaperNode)
    (cn : list CodeNode) (ce : list EdgeRec) (pe : option (list EdgeRec)) :
  (∀ step, step ∈ [add_relationship; add_paper_edge; add_cross_edge] →
     ∀ g rel,
       (has_node g (r_source rel) && has_node g (r_target rel) = false →
        step g rel = g) ∧
       (∀ k, k ∈ (g_edges (step g rel)).*1 → k ∉ (g_edges g).*1 →
             k = edge_key rel ∧ has_node g (r_source rel) = true
             ∧ has_node g (r_target rel) = true) ∧
       g_nodes (step g rel) = g_nodes g) ∧
  closed (graph (build_graph self fd parsed)) ∧
  closed (graph (build_unified_graph self pn cn ce pe)).
Proof.
  split_and!.
  - intros step Hstep g rel.
    assert (∃ attrs, step = add_edge_if_known attrs) as [attrs ->].
    { rewrite !elem_of_cons, elem_of_nil in Hstep.
      destruct Hstep as [->|[->|[->|[]]]]; eexists; reflexivity. }
    split_and!.
    + apply add_edge_if_known_skip.
    + intros k. apply add_edge_if_known_new_key.
    + apply add_edge_if_known_nodes.
  - pose proof (build_graph_wf self fd parsed) as Hwf.
    by apply wf_spec in Hwf as (_ & _ & ?).
  - pose proof (build_unified_graph_wf self pn cn ce pe) as Hwf.
    by apply wf_spec in Hwf as (_ & _ & ?).
Qed.

(** C7 (as the code has it).  In the graph the unified build returns, an
    edge has [cross_modal] true exactly when a record of the
    [cross_modal_edges] argument is about it, whatever the modality of its
    ends, and [intra_paper] is the negation of [cross_modal]; an edge no
    cross-modal record is about comes from the [paper_edges] argument. *)
Theorem unified_edge_flags {P : Type} (self : GraphBuilder.t P)
    (pn : list PaperNode) (cn : list CodeNode) (ce : list EdgeRec)
    (pe : option (list EdgeRec)) (u v : string) (d : EdgeData) :
  ((u, v), d) ∈ g_edges (graph (build_unified_graph self pn cn ce pe)) →
  flags_are d (bool_decide ((u, v) ∈ edge_key <$> ce)) ∧
  ((u, v) ∉ edge_key <$> ce → (u, v) ∈ edge_key <$> default [] pe).
Proof.
  intros Hin.
  pose proof (build_unified_graph_wf self pn cn ce pe) as Hwf.
  apply wf_spec in Hwf as (_ & Hnd & _).
  apply (alist_elem_get _ _ _ Hnd) in Hin.
  rewrite build_unified_graph_eq in Hin.
  set (g2 := foldl add_code_node (foldl add_paper_node empty pn) cn) in *.
  assert (wf g2 = true) as Hwf2.
  { apply (foldl_add_node_wf c_id code_attrs).
    apply (foldl_add_node_wf p_id paper_attrs). apply wf_empty. }
  assert (g_edges g2 = []) as Hnone.
  { unfold g2. unfold add_code_node, add_paper_node.
    by rewrite !foldl_add_node_edges. }
  pose proof (cross_loop_flags (default [] pe) ce
                (foldl add_paper_edge g2 (default [] pe)) []) as Hinv.
  cbn [app] in Hinv. specialize (Hinv (foldl_edges_wf _ _ _ Hwf2)).
  assert (cross_loop_inv (default [] pe)
            (foldl add_paper_edge g2 (default [] pe)) []) as H0.
  { intros u' v' d' Hd'. cbn.
    apply (paper_loop_flags (default [] pe) (default [] pe) g2); [done| |done].
    intros u'' v'' d''. unfold edge_data. by rewrite Hnone. }
  specialize (Hinv H0 u v d Hin).
  case_bool_decide as Hk; [by split|].
  destruct Hinv as [? ?]. by split.
Qed.

(** A unified graph of the first scenario: its only edge is cross-modal. *)
Lemma unified_edge_flags_witness :
  ∃ d, (("paper_section_0", "feature_0"), d) ∈ g_edges Scenario.scenario1
       ∧ flags_are d true.
Proof.
  eexists. split; [left|].
  apply (unified_edge_flags (P := unit) init
           [mkPaperNode "paper_section_0" "paper_section" "Attention" None None]
           [mkCodeNode "feature_0" None "MultiHeadAttention" None None None]
           [mkEdgeRec "paper_section_0" "feature_0" "implements" None None None]
           None "paper_section_0" "feature_0").
  left.
Defined.

(** C7 fails as stated: the unified build makes a cross-modal edge between
    two code nodes, and a paper-internal edge between two code nodes. *)
Lemma cross_modal_flag_between_code_nodes :
  (n_modality <$> node_data (graph Scenario.code_only_builder) "c1") = Some (Some "code") ∧
  (n_modality <$> node_data (graph Scenario.code_only_builder) "c2") = Some (Some "code") ∧
  (e_cross_modal <$> edge_data (graph Scenario.code_only_builder) "c1" "c2") = Some (Some true) ∧
  (n_modality <$> node_data (graph Scenario.code_only_builder) "c3") = Some (Some "code") ∧
  (n_modality <$> node_data (graph Scenario.code_only_builder) "c4") = Some (Some "code") ∧
  (e_intra_paper <$> edge_data (graph Scenario.code_only_builder) "c3" "c4") = Some (Some true).
Proof. repeat split. Qed.

(** C8.  A build does not see the graph the builder held before: the
    graph it returns is the one the same call makes on a new builder, each
    of its nodes is the id of a node record of this call, and each of its
    edges is the pair of ends of an edge record of this call. *)
Theorem build_replaces_graph {P : Type} (first : GraphBuilder.t P)
    (fd : FeatureData) (parsed : P) (pn : list PaperNode)
    (cn : list CodeNode) (ce : list EdgeRec) (pe : option (list EdgeRec)) :
  graph (build_graph first fd parsed) = graph (build_graph (@init P) fd parsed) ∧
  graph (build_unified_graph first pn cn ce pe)
    = graph (build_unified_graph (@init P) pn cn ce pe) ∧
  (∀ n, n ∈ node_ids (graph (build_graph first fd parsed)) →
        n ∈ f_id <$> features fd) ∧
  (∀ k, k ∈ (g_edges (graph (build_graph first fd parsed))).*1 →
        k ∈ edge_key <$> relationships fd) ∧
  (∀ n, n ∈ node_ids (graph (build_unified_graph first pn cn ce pe)) →
        n ∈ ((p_id <$> pn) ++ (c_id <$> cn))%list) ∧
  (∀ k, k ∈ (g_edges (graph (build_unified_graph first pn cn ce pe))).*1 →
        k ∈ edge_key <$> (default [] pe ++ ce)%list).
Proof.
  split_and!; [done | done | | | |].
  - intros n. rewrite build_graph_eq. unfold node_ids, add_relationship.
    rewrite foldl_edges_nodes.
    intros [?%elem_of_nil|?]%(foldl_add_node_ids f_id feature_attrs); done.
  - intros k. rewrite build_graph_eq.
    intros [Hk|Hk]%foldl_edges_keys; [|done].
    unfold add_feature in Hk. rewrite foldl_add_node_edges in Hk.
    by apply elem_of_nil in Hk.
  - intros n. rewrite build_unified_graph_eq.
    unfold node_ids, add_cross_edge, add_paper_edge.
    rewrite !foldl_edges_nodes.
    intros [Hn|Hn]%(foldl_add_node_ids c_id code_attrs);
      rewrite elem_of_app; [left | by right].
    apply (foldl_add_node_ids p_id paper_attrs) in Hn as [?%elem_of_nil|?]; done.
  - intros k. rewrite build_unified_graph_eq, fmap_app, elem_of_app.
    intros [Hk|Hk]%foldl_edges_keys; [|by right].
    apply foldl_edges_keys in Hk as [Hk|Hk]; [|by left].
    unfold add_code_node, add_paper_node in Hk.
    rewrite !foldl_add_node_edges in Hk. by apply elem_of_nil in Hk.
Qed.
End AssemblyClaims.

(** * The claims about the query engine *)

Section EngineClaims.
Import DiGraph Evidence LLMAnalyzer GraphQueryEngine.

Lemma find_all_false {A} (f : A → bool) (l : list A) :
  (∀ x, x ∈ l → f x = false) → List.find f l = None.
Proof.
  induction l as [|x l IH]; intros Hall; [done|]. cbn.
  rewrite (Hall x) by left. apply IH. intros y Hy. apply Hall. by right.
Qed.

(** C3 (as the code has it).  The labels are tried in the order path,
    dependency, gap, ...: a query whose lower-cased text contains
    [depends] is classified dependency when it contains no trigger of
    path; one that contains [missing] is classified gap when it contains no
    trigger of path and none of dependency; a query that contains no
    trigger of any label is classified related. *)
Theorem classify_first_matching_label (query : string) :
  (PyStr.contains "depends" (PyStr.lower query) = true →
   any_keyword (PyStr.lower query) (triggers "path") = false →
   _classify_query query = "dependency") ∧
  (PyStr.contains "missing" (PyStr.lower query) = true →
   any_keyword (PyStr.lower query) (triggers "path") = false →
   any_keyword (PyStr.lower query) (triggers "dependency") = false →
   _classify_query query = "gap") ∧
  ((∀ entry, entry ∈ query_types →
             any_keyword (PyStr.lower query) entry.2 = false) →
   _classify_query query = "related").
Proof.
  unfold _classify_query. cbv zeta. set (q := PyStr.lower query). split_and!.
  - intros Hd Hp. unfold query_types. cbn [List.find snd].
    change ["how"; "implemented"; "realize"; "from paper to code"; "chain"]
      with (triggers "path").
    rewrite Hp.
    rewrite (any_keyword_intro q _ "depends"); [done| |done].
    left.
  - intros Hm Hp Hd. unfold query_types. cbn [List.find snd].
    change ["how"; "implemented"; "realize"; "from paper to code"; "chain"]
      with (triggers "path").
    change ["depends"; "requires"; "needs"; "prerequisite"; "based on"]
      with (triggers "dependency").
    rewrite Hp, Hd.
    rewrite (any_keyword_intro q _ "missing"); [done| |done].
    left.
  - intros Hall. by rewrite find_all_false.
Qed.

(** C3 fails as stated: a query with [depends], and one with [missing],
    that also contain the trigger [how] of the label path. *)
Lemma classify_depends_as_path :
  PyStr.contains "depends" (PyStr.lower "Show what depends on the parser") = true ∧
  _classify_query "Show what depends on the parser" = "path" ∧
  PyStr.contains "missing" (PyStr.lower "How is the missing part handled") = true ∧
  _classify_query "How is the missing part handled" = "path".
Proof. repeat split. Qed.

(** C2 (as the code has it).  The size is tested once a turn of the hop
    loop is over: with two hops the node set is the seeds with their
    neighbours when that set has more than 30 members, and that set with
    the neighbours of its members otherwise.  The neighbours added by a
    turn are the successors and predecessors of the members that are
    nodes.  The set holds every seed, and over a graph that satisfies the
    invariant nothing but seeds and nodes; the operation returns, and the
    node list it returns lists that set. *)
Theorem neighborhood_size_tested_after_hop {SO : SetOrder} (g : DiGraph.t)
    (seed_nodes : list string) :
  neighborhood_nodes g seed_nodes 2
  = (if (30 <? size (list_to_set seed_nodes ∪ hop_new g (list_to_set seed_nodes)))%nat
     then list_to_set seed_nodes ∪ hop_new g (list_to_set seed_nodes)
     else (list_to_set seed_nodes ∪ hop_new g (list_to_set seed_nodes))
          ∪ hop_new g (list_to_set seed_nodes ∪ hop_new g (list_to_set seed_nodes))) ∧
  (∀ X x, x ∈ hop_new g X ↔ ∃ n, n ∈ X ∧ has_node g n = true ∧ adjacent g n x) ∧
  list_to_set seed_nodes ⊆ neighborhood_nodes g seed_nodes 2 ∧
  (closed g → neighborhood_nodes g seed_nodes 2
              ⊆ list_to_set seed_nodes ∪ list_to_set (node_ids g)) ∧
  (∃ sub, _get_neighborhood_subgraph g seed_nodes 2 = Some sub
          ∧ sg_nodes sub ≡ₚ elements (neighborhood_nodes g seed_nodes 2)).
Proof.
  split_and!.
  - unfold neighborhood_nodes. cbn [expand_hops].
    destruct (30 <? size _)%nat eqn:H1; [done|].
    by case_match.
  - apply elem_of_hop_new.
  - apply expand_hops_extends.
  - intros Hc. by apply expand_hops_within.
  - destruct (neighborhood_subgraph_total g seed_nodes 2) as [edges ->].
    eexists. split; [done|]. apply set_iter_perm.
Qed.

(** C2 fails as stated: around the hub of a star with 31 leaves the
    expansion returns 32 nodes. *)
Lemma star_neighbourhood_exceeds_cap :
  size (neighborhood_nodes Scenario.star ["hub"] 2) = 32%nat ∧
  (length ∘ sg_nodes <$>
     _get_neighborhood_subgraph (SO := elements_order) Scenario.star ["hub"] 2)
  = Some 32%nat.
Proof. split; vm_compute; reflexivity. Qed.
End EngineClaims.

Section StrategyClaims.
Import DiGraph Evidence LLMAnalyzer GraphQueryEngine.

(** C5 (as the code has it).  Over a graph that satisfies the invariant,
    each strategy reports the edge from [a] to [b] within its own cap.  A
    dependency query whose entities resolve to [b] alone returns an
    evidence record that holds a first-hop entry from [a] to [b] when [a]
    is among the first five predecessors of [b].  An impact query whose
    entities resolve to [a] alone returns one that holds a first-hop entry
    from [a] to [b] when [b] is among the first five successors of [a].
    Neither half depends on the proviso of the other. *)
Theorem dependency_impact_dual_within_caps {SO : SetOrder} {NX : NxCentrality}
    (g : DiGraph.t) (a b : string) :
  wf g = true →
  (∀ (i : nat) (dep_query : string) (dep_entities : list string),
     pred_list g b !! i = Some a → i < 5 →
     _find_nodes_by_entities g dep_entities None = [b] →
     ∃ deps nodes,
       _handle_dependency_query g dep_query dep_entities
       = Some (mkEvidence Score (Some "dependency") None (Some deps) None None
                 None None None None (Some nodes) None (Some (length deps)))
       ∧ reports_dependency g deps a b) ∧
  (∀ (j : nat) (imp_query : string) (imp_entities : list string),
     succ_list g a !! j = Some b → j < 5 →
     _find_nodes_by_entities g imp_entities None = [a] →
     ∃ affected nodes,
       _handle_impact_query g imp_query imp_entities
       = Some (mkEvidence Score (Some "impact") None None None (Some affected)
                 None None None None (Some nodes) None (Some (length affected)))
       ∧ reports_affected g affected a b).
Proof.
  intros Hwf. apply wf_spec in Hwf as (_ & _ & Hc). split.
  - intros i dep_query dep_entities Hi Hi5 Hdep.
    destruct (handle_dependency_query_one g dep_query dep_entities b Hc Hdep)
      as (deps & nodes & Heq & Hrep).
    exists deps, nodes. split; [done|]. apply Hrep.
    apply list_elem_of_lookup. exists i. apply lookup_take_Some. by split.
  - intros j imp_query imp_entities Hj Hj5 Himp.
    destruct (handle_impact_query_one g imp_query imp_entities a Hc Himp)
      as (affected & nodes & Heq & Hrep).
    exists affected, nodes. split; [done|]. apply Hrep.
    apply list_elem_of_lookup. exists j. apply lookup_take_Some. by split.
Qed.

(** The edge from [x] to [y] of the chain, asked about from either end;
    and the edge from [a] to [b] of the funnel, where [a] is the sixth
    predecessor of [b] and [b] the only successor of [a]: the impact query
    reports it. *)
Lemma dependency_impact_dual_witness :
  ((∃ deps nodes,
      _handle_dependency_query (SO := elements_order) (NX := degree_scores)
        Scenario.chain "What does y depend on?" ["y"]
      = Some (mkEvidence nat (Some "dependency") None (Some deps) None None
                None None None None (Some nodes) None (Some (length deps)))
      ∧ reports_dependency Scenario.chain deps "x" "y") ∧
   (∃ affected nodes,
      _handle_impact_query (SO := elements_order) (NX := degree_scores)
        Scenario.chain "What breaks if x changes?" ["x"]
      = Some (mkEvidence nat (Some "impact") None None None (Some affected)
                None None None None (Some nodes) None (Some (length affected)))
      ∧ reports_affected Scenario.chain affected "x" "y")) ∧
  (pred_list DualScenario.funnel "b" !! 5 = Some "a" ∧
   ∃ affected nodes,
     _handle_impact_query (SO := elements_order) (NX := degree_scores)
       DualScenario.funnel "What breaks if a changes?" ["a"]
     = Some (mkEvidence nat (Some "impact") None None None (Some affected)
               None None None None (Some nodes) None (Some (length affected)))
     ∧ reports_affected DualScenario.funnel affected "a" "b").
Proof.
  split; [split|split].
  - apply (proj1 (dependency_impact_dual_within_caps (SO := elements_order)
                    (NX := degree_scores) Scenario.chain "x" "y"
                    ltac:(vm_compute; reflexivity)) 0);
      first [vm_compute; reflexivity | lia].
  - apply (proj2 (dependency_impact_dual_within_caps (SO := elements_order)
                    (NX := degree_scores) Scenario.chain "x" "y"
                    ltac:(vm_compute; reflexivity)) 0);
      first [vm_compute; reflexivity | lia].
  - vm_compute. reflexivity.
  - apply (proj2 (dependency_impact_dual_within_caps (SO := elements_order)
                    (NX := degree_scores) DualScenario.funnel "a" "b"
                    ltac:(vm_compute; reflexivity)) 0);
      first [vm_compute; reflexivity | lia].
Defined.

(** C5 fails as stated: [b] has six predecessors and [a] is the sixth, so
    the dependency query resolved to [b] has no entry from [a]; [a] has six
    successors and [b] is the sixth, so the impact query resolved to [a]
    has no entry to [b]. *)
Lemma sixth_neighbour_not_reported :
  is_Some (edge_data Scenario.fan "a" "b") ∧
  _find_nodes_by_entities Scenario.fan ["b"] None = ["b"] ∧
  _find_nodes_by_entities Scenario.fan ["a"] None = ["a"] ∧
  (∃ ev deps,
     _handle_dependency_query (SO := elements_order) (NX := degree_scores)
       Scenario.fan "What does b depend on?" ["b"] = Some ev
     ∧ ev_dependencies ev = Some deps
     ∧ Forall (λ entry, d_from entry ≠ "a") deps) ∧
  (∃ ev affected,
     _handle_impact_query (SO := elements_order) (NX := degree_scores)
       Scenario.fan "What breaks if a changes?" ["a"] = Some ev
     ∧ ev_affected ev = Some affected
     ∧ Forall (λ entry, a_to entry ≠ "b") affected).
Proof.
  split_and!.
  - apply is_Some_alt. vm_compute. exact I.
  - vm_compute. reflexivity.
  - vm_compute. reflexivity.
  - eexists _, _. split; [vm_compute; reflexivity|]. split; [reflexivity|].
    repeat constructor; discriminate.
  - eexists _, _. split; [vm_compute; reflexivity|]. split; [reflexivity|].
    repeat constructor; discriminate.
Qed.

(** C6.  The gap strategy returns, and the nodes it lists are exactly the
    gaps: the nodes of modality [paper] that have no outgoing edge whose
    attribute [cross_modal] is true and whose relation is [implements] or
    [describes].  After [add_edge] gives a node an outgoing edge with
    [cross_modal] true and the relation [implements] or [describes], the
    strategy no longer lists that node. *)
Theorem gap_lists_unimplemented_paper_nodes {SO : SetOrder} {NX : NxCentrality}
    (g : DiGraph.t) (query : string) (entities : list string) :
  ∃ gaps,
    _handle_gap_query g query entities
    = Some (mkEvidence Score (Some "gap") None None (Some gaps) None None None
              None None (Some (gp_node <$> gaps)) None (Some (length gaps)))
    ∧ (∀ n, n ∈ gp_node <$> gaps ↔
         ∃ data, (n, data) ∈ g_nodes g ∧ n_modality data = Some "paper" ∧
           ∀ t edge, edge_data g n t = Some edge →
             ¬ (e_cross_modal edge = Some true ∧
                (e_relation edge = Some "implements"
                 ∨ e_relation edge = Some "describes")))
    ∧ (∀ n t attrs query' entities',
         e_cross_modal attrs = Some true →
         e_relation attrs = Some "implements"
         ∨ e_relation attrs = Some "describes" →
         ∃ gaps',
           _handle_gap_query (add_edge g n t attrs) query' entities'
           = Some (mkEvidence Score (Some "gap") None None (Some gaps') None
                     None None None None (Some (gp_node <$> gaps')) None
                     (Some (length gaps')))
           ∧ n ∉ gp_node <$> gaps').
Proof.
  eexists. split; [apply handle_gap_query_spec|]. cbv zeta. split.
  - intros n. apply (gap_nodes_spec g n).
  - intros n t attrs query' entities' Hcross Hrel.
    eexists. split; [apply handle_gap_query_spec|]. cbv zeta.
    rewrite gap_nodes_spec. intros (data & _ & _ & Hnone).
    apply (Hnone t _ (edge_data_add_edge_eq g n t attrs)).
    unfold implementing_edge.
    destruct (edge_data g n t) as [old|]; [|done]. cbn. unfold upd.
    rewrite Hcross. split; [done|].
    destruct Hrel as [-> | ->]; auto.
Qed.

(** C10.  The find strategy returns; [nodes] is the whole list of resolved
    nodes, [locations] has one entry for each of the first ten of them, in
    order, and [count] is the number of locations: ten at most, and less
    than the length of [nodes] when more than ten nodes resolve. *)
Theorem find_count_capped_nodes_not {SO : SetOrder} {NX : NxCentrality}
    (g : DiGraph.t) (query : string) (entities : list string) :
  ∃ locations,
    _handle_find_query g query entities
    = Some (mkEvidence Score (Some "find") None None None None None None None
              (Some locations)
              (Some (_find_nodes_by_entities g entities None)) None
              (Some (length locations)))
    ∧ l_node <$> locations = take 10 (_find_nodes_by_entities g entities None)
    ∧ length locations
      = Nat.min 10 (length (_find_nodes_by_entities g entities None))
    ∧ (10 < length (_find_nodes_by_entities g entities None) →
       length locations < length (_find_nodes_by_entities g entities None)).
Proof.
  unfold _handle_find_query.
  destruct (find_loop g (take 10 (_find_nodes_by_entities g entities None)) [])
    as (locations & -> & Hnodes).
  { intros n Hn%elem_of_take_elem. by eapply find_nodes_are_nodes. }
  exists locations. cbn.
  assert (length locations
          = Nat.min 10 (length (_find_nodes_by_entities g entities None))) as Hlen.
  { rewrite <- (length_fmap l_node), Hnodes. apply length_take. }
  split_and!; [done..|]. lia.
Qed.
End StrategyClaims.

Section ScenarioClaims.
Import DiGraph Evidence LLMAnalyzer GraphQueryEngine.

(** The entities of the first scenario, in either order a set of two can
    be listed. *)
Lemma scenario1_entities {SO : SetOrder} :
  _extract_entities Scenario.scenario1 Scenario.scenario1_query = ["Attention"; "How"]
  ∨ _extract_entities Scenario.scenario1 Scenario.scenario1_query = ["How"; "Attention"].
Proof.
  unfold _extract_entities.
  set (X := list_to_set _).
  assert (elements X = ["Attention"; "How"]) as HX by (vm_compute; reflexivity).
  pose proof (set_iter_perm X) as Hperm. rewrite HX in Hperm.
  symmetry in Hperm. apply Permutation_length_2_inv in Hperm as [-> | ->]; auto.
Qed.

Lemma scenario1_path_nodes {SO : SetOrder} (X : gset string) :
  elements X = ["feature_0"; "paper_section_0"] →
  set_iter X ≡ₚ ["paper_section_0"; "feature_0"].
Proof.
  intros HX. rewrite (set_iter_perm X), HX. apply Permutation_swap.
Qed.

(** C9.  On the graph of the first scenario the query is classified path;
    its entities resolve to the paper node and to the code node; there is
    one shortest path, of the two nodes, with one step over the edge; and
    [process_query] returns a record of type path whose evidence holds
    that one path, lists the two nodes and has count 1. *)
Theorem scenario1_path_query {SO : SetOrder} {NX : NxCentrality}
    (llm : string → nat → call_outcome) :
  _classify_query Scenario.scenario1_query = "path" ∧
  _find_nodes_by_entities Scenario.scenario1
    (_extract_entities Scenario.scenario1 Scenario.scenario1_query) (Some "paper")
  = ["paper_section_0"] ∧
  _find_nodes_by_entities Scenario.scenario1
    (_extract_entities Scenario.scenario1 Scenario.scenario1_query) (Some "code")
  = ["feature_0"] ∧
  shortest_path Scenario.scenario1 "paper_section_0" "feature_0"
  = Some ["paper_section_0"; "feature_0"] ∧
  ∃ result nodes,
    process_query Scenario.scenario1 llm Scenario.scenario1_query = Some result
    ∧ qr_query_type result = "path"
    ∧ qr_graph_evidence result
      = mkEvidence Score (Some "path")
          (Some [mkPathDetail ["paper_section_0"; "feature_0"]
                   [mkStep "paper_section_0" "feature_0" "Attention"
                           "MultiHeadAttention" "implements" ""]
                   2])
          None None None None None None None (Some nodes) None (Some 1%nat)
    ∧ nodes ≡ₚ ["paper_section_0"; "feature_0"].
Proof.
  split; [vm_compute; reflexivity|].
  assert (∀ entities,
            entities = ["Attention"; "How"] ∨ entities = ["How"; "Attention"] →
            _find_nodes_by_entities Scenario.scenario1 entities (Some "paper")
            = ["paper_section_0"]
            ∧ _find_nodes_by_entities Scenario.scenario1 entities (Some "code")
              = ["feature_0"]
            ∧ ∃ X, elements X = ["feature_0"; "paper_section_0"]
                   ∧ _handle_path_query Scenario.scenario1
                       Scenario.scenario1_query entities
                     = Some (mkEvidence Score (Some "path")
                               (Some [mkPathDetail ["paper_section_0"; "feature_0"]
                                        [mkStep "paper_section_0" "feature_0"
                                                "Attention" "MultiHeadAttention"
                                                "implements" ""]
                                        2])
                               None None None None None None None
                               (Some (set_iter X)) None (Some 1%nat))) as Hrun.
  { intros entities [-> | ->].
    - split; [vm_compute; reflexivity|]. split; [vm_compute; reflexivity|].
      eexists. split; [|vm_compute; reflexivity]. vm_compute. reflexivity.
    - split; [vm_compute; reflexivity|]. split; [vm_compute; reflexivity|].
      eexists. split; [|vm_compute; reflexivity]. vm_compute. reflexivity. }
  destruct (Hrun _ scenario1_entities) as (Hpaper & Hcode & X & HX & Hpath).
  split; [done|]. split; [done|]. split; [vm_compute; reflexivity|].
  unfold process_query.
  assert (_classify_query Scenario.scenario1_query = "path") as ->
    by (vm_compute; reflexivity).
  unfold run_strategy. cbn [String.eqb Ascii.eqb Bool.eqb].
  rewrite Hpath. cbn [mbind option_bind].
  unfold _enhance_with_llm.
  destruct (_build_context_from_evidence _) as [context|] eqn:Hctx.
  2:{ vm_compute in Hctx. discriminate. }
  cbn [mbind option_bind].
  destruct (llm _ _); (eexists _, _; split; [reflexivity|]; cbn;
    split; [done|]; split; [reflexivity|]; by apply scenario1_path_nodes).
Qed.

(** C1 (as the code has it).  When the call of [_call_llm] raises, the
    renderer returns the sentence made of the count and the type of the
    evidence record, with the defaults 0 and [unknown], and ending in the
    pointer to the visualization.  Whether the renderer returns, and
    whether [process_query] returns, does not depend on what the call
    does. *)
Theorem fallback_when_call_raises {SO : SetOrder} {NX : NxCentrality}
    (g : DiGraph.t) (llm : string → nat → call_outcome) (query : string)
    (evidence : Evidence.t Score) :
  (∀ context msg,
     _build_context_from_evidence evidence = Some context →
     llm (prompt_of query evidence context) 500 = Raises msg →
     _enhance_with_llm llm query evidence
     = Some (Text ("Found " ++ PyStr.of_nat (default 0%nat (ev_count evidence))
                     ++ " " ++ default "unknown" (ev_type evidence)
                     ++ " results in the graph. Check the visualization for details."))) ∧
  (∀ llm', is_Some (_enhance_with_llm llm query evidence)
           ↔ is_Some (_enhance_with_llm llm' query evidence)) ∧
  (∀ llm', is_Some (process_query g llm query)
           ↔ is_Some (process_query g llm' query)).
Proof.
  assert (∀ l q (ev : Evidence.t Score),
            is_Some (_enhance_with_llm l q ev)
            ↔ is_Some (_build_context_from_evidence ev)) as Henh.
  { intros l q ev. unfold _enhance_with_llm.
    destruct (_build_context_from_evidence ev) as [context|]; cbn.
    - destruct (l _ _); split; eauto.
    - split; intros [? ?]; discriminate. }
  split_and!.
  - intros context msg Hctx Hraise. unfold _enhance_with_llm.
    rewrite Hctx. cbn [mbind option_bind]. by rewrite Hraise.
  - intros llm'. by rewrite !Henh.
  - intros llm'. unfold process_query.
    destruct (run_strategy g _ query _) as [result|];
      cbn [mbind option_bind]; [|done].
    assert (is_Some (_enhance_with_llm llm query result)
            ↔ is_Some (_enhance_with_llm llm' query result)) as Hiff
      by (by rewrite !Henh).
    destruct (_enhance_with_llm llm query result) as [a|],
             (_enhance_with_llm llm' query result) as [a'|];
      cbn [mbind option_bind].
    + split; eauto.
    + exfalso. destruct (proj1 Hiff) as [? ?]; [eauto | discriminate].
    + exfalso. destruct (proj2 Hiff) as [? ?]; [eauto | discriminate].
    + done.
Qed.

(** On the empty graph, with a collaborator whose method raises. *)
Lemma fallback_when_call_raises_witness :
  _enhance_with_llm (NX := degree_scores) Scenario.raising_llm "hello"
    (mkEvidence nat (Some "related") None None None None None None None None
                (Some []) (Some []) (Some 0%nat))
  = Some (Text "Found 0 related results in the graph. Check the visualization for details.").
Proof.
  apply (proj1 (fallback_when_call_raises (SO := elements_order)
                  (NX := degree_scores) DiGraph.empty Scenario.raising_llm "hello"
                  (mkEvidence nat (Some "related") None None None None None
                              None None None (Some []) (Some []) (Some 0%nat)))
           "No specific graph evidence found." "connection refused");
    reflexivity.
Defined.

(** C1 fails as stated: when the request of the client fails, the answer
    is the error string of [LLMAnalyzer._call_llm]; when the method itself
    raises, the answer is a longer sentence than the one of the claim. *)
Lemma failed_call_answer_differs :
  (qr_answer <$> process_query (SO := elements_order) (NX := degree_scores)
                   DiGraph.empty (as_llm Scenario.failing_client) "hello")
  = Some (Text "Error calling LLM: connection refused") ∧
  (qr_answer <$> process_query (SO := elements_order) (NX := degree_scores)
                   DiGraph.empty Scenario.raising_llm "hello")
  = Some (Text "Found 0 related results in the graph. Check the visualization for details.") ∧
  Text "Error calling LLM: connection refused"
    ≠ Text "Found 0 related results in the graph." ∧
  Text "Found 0 related results in the graph. Check the visualization for details."
    ≠ Text "Found 0 related results in the graph.".
Proof.
  split_and!; [vm_compute; reflexivity | vm_compute; reflexivity | discriminate..].
Qed.
End ScenarioClaims.

(** * Further properties of the query engine *)

Section EntityFacts.
Import DiGraph Evidence GraphQueryEngine.
Context {SO : SetOrder}.

Lemma set_iter_elem (X : gset string) x : x ∈ set_iter X ↔ x ∈ X.
Proof. by rewrite (set_iter_perm X), elem_of_elements. Qed.

Lemma set_iter_NoDup (X : gset string) : NoDup (set_iter X).
Proof. rewrite (set_iter_perm X). apply NoDup_elements. Qed.

Lemma contains_empty s : PyStr.contains "" s = true.
Proof. by destruct s. Qed.

(** X1.  The entity resolver returns at most five entities, without
    repetition, and each of them is a quoted phrase of the query, a
    capitalised phrase of the query, or the non-empty name of a node that
    occurs in the query when both are lower-cased. *)
Theorem extract_entities_bounded (g : DiGraph.t) (query : string) :
  (length (_extract_entities g query) ≤ 5)%nat ∧
  NoDup (_extract_entities g query) ∧
  ∀ e, e ∈ _extract_entities g query →
    e ∈ Regex.findall_quoted query ∨
    e ∈ Regex.findall_cap_phrases query ∨
    (e ≠ "" ∧ PyStr.contains (PyStr.lower e) (PyStr.lower query) = true ∧
     ∃ n data, (n, data) ∈ g_nodes g ∧ n_name data = Some e).
Proof.
  unfold _extract_entities. split_and!.
  - rewrite length_take. lia.
  - eapply sublist_NoDup; [apply set_iter_NoDup | apply sublist_take].
  - intros e He%elem_of_take_elem%set_iter_elem.
    apply elem_of_list_to_set in He.
    rewrite !elem_of_app in He. destruct He as [?|[?|He]]; [by left | by right; left |].
    right; right. apply list_elem_of_omap in He as ([n data] & Hin & Hsome).
    cbn in Hsome. destruct (n_name data) as [name|] eqn:Hname; cbn in Hsome.
    + destruct (PyStr.truthy name) eqn:Ht; cbn in Hsome; [|done].
      destruct (PyStr.contains _ _) eqn:Hc; [|done]. simplify_eq.
      split_and!; [by intros -> | done | by exists n, data].
    + done.
Qed.

(** X2.  Node matching keeps the order of the graph and returns a node at
    most once per entry of the node table; a returned node passes the
    modality filter and matches some entity in one of the two substring
    directions.  With no entity nothing is returned; with at least one
    entity, every node whose name is missing or empty is returned (the
    empty string is a substring of every entity). *)
Theorem find_nodes_spec (g : DiGraph.t) (entities : list string)
    (modality : option string) :
  sublist (_find_nodes_by_entities g entities modality) (node_ids g) ∧
  (∀ n, n ∈ _find_nodes_by_entities g entities modality →
     ∃ data entity, (n, data) ∈ g_nodes g ∧ other_modality modality data = false
       ∧ entity ∈ entities
       ∧ entity_matches (PyStr.lower (default "" (n_name data))) entity = true) ∧
  (entities = [] → _find_nodes_by_entities g entities modality = []) ∧
  (∀ n data, (n, data) ∈ g_nodes g → default "" (n_name data) = "" →
     other_modality modality data = false → entities ≠ [] →
     n ∈ _find_nodes_by_entities g entities modality).
Proof.
  unfold _find_nodes_by_entities, node_ids. split_and!.
  - induction (g_nodes g) as [|[n data] l IH]; csimpl; [done|].
    destruct (other_modality modality data); [by apply sublist_cons|].
    destruct (existsb _ entities); [by apply sublist_skip | by apply sublist_cons].
  - intros n ([m data] & Hin & Hsome)%list_elem_of_omap. cbn in Hsome.
    destruct (other_modality modality data) eqn:Hm; [done|].
    destruct (existsb _ entities) eqn:Hex; [|done]. simplify_eq.
    apply existsb_exists in Hex as (entity & He%list_elem_of_In & Hmatch).
    by exists data, entity.
  - intros ->. induction (g_nodes g) as [|[n data] l IH]; csimpl; [done|].
    by destruct (other_modality modality data).
  - intros n data Hin Hname Hm Hne. apply list_elem_of_omap.
    exists (n, data). split; [done|]. cbn. rewrite Hm, Hname.
    destruct entities as [|entity entities]; [done|]. cbn.
    unfold entity_matches. cbn. by rewrite contains_empty, orb_true_r.
Qed.
End EntityFacts.

Section FoldMMore.
Import GraphQueryEngine.
Context {A S : Type}.
Implicit Types (body : S → A → option S) (l : list A) (acc : S).

(** When the loop ends, what every successful turn keeps holds at the
    end. *)
Lemma foldM_Some_inv (I : S → Prop) body l acc s' :
  I acc →
  (∀ s x s1, x ∈ l → I s → body s x = Some s1 → I s1) →
  foldM body acc l = Some s' → I s'.
Proof.
  revert acc. induction l as [|x l IH]; intros acc Hacc Hstep; cbn.
  - by intros [= <-].
  - destruct (body acc x) as [s1|] eqn:Hb; [|done].
    apply IH.
    + eapply Hstep; [left | done | done].
    + intros s y s2 Hy. apply Hstep. by right.
Qed.

(** A loop whose turns add at most [k] to a measure adds at most [k] for
    each element. *)
Lemma foldM_measure (size : S → nat) (k : nat) body l acc s' :
  (∀ s x s1, x ∈ l → body s x = Some s1 → (size s1 ≤ size s + k)%nat) →
  foldM body acc l = Some s' → (size s' ≤ size acc + k * length l)%nat.
Proof.
  revert acc. induction l as [|x l IH]; intros acc Hstep; cbn [foldM].
  - intros [= <-]. cbn. lia.
  - destruct (body acc x) as [s1|] eqn:Hb; [|done]. intros Hs'.
    apply IH in Hs'; [|intros s y s2 Hy; apply Hstep; by right].
    pose proof (Hstep acc x s1 (list_elem_of_here _ _) Hb). cbn [length]. lia.
Qed.
End FoldMMore.

Section DependencyEntries.
Import DiGraph Evidence GraphQueryEngine HopInvariant.
Context {SO : SetOrder} {NX : NxCentrality}.
Implicit Types (g : DiGraph.t) (s : list DepEntry * gset string).

Lemma dep_state_extend g s (e : DepEntry) (X : gset string) :
  dep_state_ok g s → dep_is_edge g e →
  (∀ n, n ∈ X ↔ n ∈ s.2 ∨ n = d_from e ∨ n = d_to e) →
  dep_state_ok g ((s.1 ++ [e])%list, X).
Proof.
  intros [Hall Hset] He HX. split; cbn.
  - apply Forall_app. split; [done | by apply Forall_singleton].
  - intros n. rewrite HX, Hset. setoid_rewrite elem_of_app.
    setoid_rewrite list_elem_of_singleton. split.
    + intros [(e' & ? & ?)|Hn]; [exists e'; tauto | exists e; tauto].
    + intros (e' & [? | ->] & ?); [left; by exists e' | by right].
Qed.

Lemma dep_hop2_ok_inv g (dep : string) s dep2 s' :
  dep_hop2 g dep s dep2 = Some s' → dep_state_ok g s → dep ∈ s.2 →
  dep_state_ok g s' ∧ dep ∈ s'.2 ∧ length s'.1 = S (length s.1).
Proof.
  unfold dep_hop2.
  destruct (edge_data g dep2 dep) as [edge|] eqn:He; [|done].
  destruct (node_data g dep2) as [d2|]; [|done].
  destruct (node_data g dep) as [d|]; [|done]. cbn.
  intros [= <-] Hok Hdep. split_and!.
  - apply dep_state_extend; [done | by exists edge |]. cbn.
    intros n. rewrite elem_of_union, elem_of_singleton. split; [tauto|].
    intros [? | [? | ->]]; tauto.
  - cbn. apply elem_of_union. by left.
  - cbn. rewrite length_app. cbn. lia.
Qed.

Lemma dep_hop2_size g (dep : string) s dep2 s' :
  dep_hop2 g dep s dep2 = Some s' → (length s'.1 ≤ length s.1 + 1)%nat.
Proof.
  unfold dep_hop2.
  destruct (edge_data g dep2 dep); [|done].
  destruct (node_data g dep2); [|done].
  destruct (node_data g dep); [|done]. cbn.
  intros [= <-]. cbn. rewrite length_app. cbn. lia.
Qed.

Lemma dep_hop1_size g (node : string) s dep s' :
  dep_hop1 g node s dep = Some s' → (length s'.1 ≤ length s.1 + 4)%nat.
Proof.
  unfold dep_hop1.
  destruct (edge_data g dep node); [|done].
  destruct (node_data g dep); [|done].
  destruct (node_data g node); [|done]. cbn.
  destruct (predecessors g dep) as [preds2|]; [|done]. cbn.
  intros Hfold. apply (foldM_measure (λ t, length t.1) 1) in Hfold.
  - cbn [fst] in Hfold. rewrite length_app in Hfold. cbn in Hfold.
    pose proof (length_take preds2 3). lia.
  - intros t x t1 _. apply dep_hop2_size.
Qed.

Lemma dep_hop1_ok_inv g (node : string) s dep s' :
  dep_hop1 g node s dep = Some s' → dep_state_ok g s → dep_state_ok g s'.
Proof.
  unfold dep_hop1.
  destruct (edge_data g dep node) as [edge|] eqn:He; [|done].
  destruct (node_data g dep) as [dd|]; [|done].
  destruct (node_data g node) as [nd|]; [|done]. cbn.
  destruct (predecessors g dep) as [preds2|]; [|done]. cbn.
  set (entry := mkDep dep node _ _ _ _).
  set (s1 := ((s.1 ++ [entry])%list, _)).
  intros Hfold Hok.
  assert (dep_state_ok g s1 ∧ dep ∈ s1.2) as Hs1.
  { split.
    - apply dep_state_extend; [done | by exists edge |]. cbn.
      intros n. rewrite !elem_of_union, !elem_of_singleton. tauto.
    - cbn. apply elem_of_union. right. by apply elem_of_singleton. }
  eapply (foldM_Some_inv (λ t, dep_state_ok g t ∧ dep ∈ t.2)) in Hfold;
    [by destruct Hfold | done |].
  intros t x t1 _ [? ?] Ht1.
  by destruct (dep_hop2_ok_inv g dep t x t1 Ht1) as (? & ? & _).
Qed.

Lemma dep_node_ok_inv g s (node : string) s' :
  dep_node g s node = Some s' → dep_state_ok g s →
  dep_state_ok g s' ∧ (length s'.1 ≤ length s.1 + 20)%nat.
Proof.
  unfold dep_node. destruct (predecessors g node) as [deps|]; [|done]. cbn.
  intros Hfold Hok. split.
  - eapply (foldM_Some_inv (dep_state_ok g)) in Hfold; [done | done |].
    intros t x t1 _ Ht Ht1. by apply (dep_hop1_ok_inv g node t x t1 Ht1).
  - apply (foldM_measure (λ t, length t.1) 4) in Hfold.
    + pose proof (length_take deps 5). lia.
    + intros t x t1 _. apply dep_hop1_size.
Qed.

(** X3.  When the dependency strategy returns, [count] is the number of
    entries and is at most 60; every entry, of the first or the second
    hop, stands for an edge of the graph from [from] to [to] and carries
    the relation of that edge; and [nodes] lists exactly the ends of the
    entries. *)
Theorem dependency_entries_are_edges (g : DiGraph.t) (query : string)
    (entities : list string) (ev : Evidence.t Score) :
  _handle_dependency_query g query entities = Some ev →
  ∃ deps nodes,
    ev_dependencies ev = Some deps ∧ ev_nodes ev = Some nodes ∧
    ev_count ev = Some (length deps) ∧ (length deps ≤ 60)%nat ∧
    Forall (dep_is_edge g) deps ∧
    ∀ n, n ∈ nodes ↔ ∃ e, e ∈ deps ∧ (n = d_from e ∨ n = d_to e).
Proof.
  unfold _handle_dependency_query.
  destruct (foldM _ _ _) as [found|] eqn:Hfold; [|done]. cbn.
  intros [= <-]. exists found.1, (set_iter found.2). cbn.
  assert (dep_state_ok g found) as [Hall Hset].
  { eapply (foldM_Some_inv (dep_state_ok g)) in Hfold; [done | |].
    - split; [constructor|]. intros n. cbn. split; [by intros ?%elem_of_empty|].
      intros (e & ?%elem_of_nil & _). done.
    - intros t x t1 _ Ht Ht1. by destruct (dep_node_ok_inv g t x t1 Ht1 Ht). }
  split_and!; [done..| | done |].
  - apply (foldM_measure (λ t, length t.1) 20) in Hfold.
    + cbn in Hfold.
      pose proof (length_take (_find_nodes_by_entities g entities None) 3). lia.
    + intros t x t1 _ Ht1. unfold dep_node in Ht1.
      destruct (predecessors g x) as [deps|]; [|done]. cbn in Ht1.
      apply (foldM_measure (λ t, length t.1) 4) in Ht1.
      * pose proof (length_take deps 5). lia.
      * intros t2 y t3 _. apply dep_hop1_size.
  - intros n. rewrite set_iter_elem. apply Hset.
Qed.

End DependencyEntries.

Section Witness_DependencyEntries.
Import DiGraph Evidence GraphQueryEngine HopInvariant.
(** On the chain, asked about its last node. *)
Lemma dependency_entries_are_edges_witness :
  ∃ ev, _handle_dependency_query (SO := elements_order) (NX := degree_scores)
          Scenario.chain "What does z depend on?" ["z"] = Some ev
        ∧ ∃ deps nodes,
            ev_dependencies ev = Some deps ∧ ev_nodes ev = Some nodes ∧
            ev_count ev = Some (length deps) ∧ (length deps ≤ 60)%nat ∧
            Forall (dep_is_edge Scenario.chain) deps ∧
            ∀ n, n ∈ nodes ↔ ∃ e, e ∈ deps ∧ (n = d_from e ∨ n = d_to e).
Proof.
  eexists. split; [vm_compute; reflexivity|].
  apply (dependency_entries_are_edges (SO := elements_order)
           (NX := degree_scores) Scenario.chain "What does z depend on?" ["z"]).
  vm_compute. reflexivity.
Defined.
End Witness_DependencyEntries.


Section ImpactEntries.
Import DiGraph Evidence GraphQueryEngine HopInvariant.
Context {SO : SetOrder} {NX : NxCentrality}.
Implicit Types (g : DiGraph.t) (s : list AffEntry * gset string).

Lemma aff_state_extend g s (e : AffEntry) (X : gset string) :
  aff_state_ok g s → aff_is_edge g e →
  (∀ n, n ∈ X ↔ n ∈ s.2 ∨ n = a_from e ∨ n = a_to e) →
  aff_state_ok g ((s.1 ++ [e])%list, X).
Proof.
  intros [Hall Hset] He HX. split; cbn.
  - apply Forall_app. split; [done | by apply Forall_singleton].
  - intros n. rewrite HX, Hset. setoid_rewrite elem_of_app.
    setoid_rewrite list_elem_of_singleton. split.
    + intros [(e' & ? & ?)|Hn]; [exists e'; tauto | exists e; tauto].
    + intros (e' & [? | ->] & ?); [left; by exists e' | by right].
Qed.

Lemma impact_hop2_ok_inv g (succ : string) s succ2 s' :
  impact_hop2 g succ s succ2 = Some s' → aff_state_ok g s → succ ∈ s.2 →
  aff_state_ok g s' ∧ succ ∈ s'.2.
Proof.
  unfold impact_hop2.
  destruct (edge_data g succ succ2) as [edge|] eqn:He; [|done].
  destruct (node_data g succ) as [d|]; [|done].
  destruct (node_data g succ2) as [d2|]; [|done]. cbn.
  intros [= <-] Hok Hsucc. split.
  - apply aff_state_extend; [done | by exists edge |]. cbn.
    intros n. rewrite elem_of_union, elem_of_singleton. split; [tauto|].
    intros [? | [-> | ?]]; tauto.
  - cbn. apply elem_of_union. by left.
Qed.

Lemma impact_hop2_size g (succ : string) s succ2 s' :
  impact_hop2 g succ s succ2 = Some s' → (length s'.1 ≤ length s.1 + 1)%nat.
Proof.
  unfold impact_hop2.
  destruct (edge_data g succ succ2); [|done].
  destruct (node_data g succ); [|done].
  destruct (node_data g succ2); [|done]. cbn.
  intros [= <-]. cbn. rewrite length_app. cbn. lia.
Qed.

Lemma impact_hop1_size g (node : string) s succ s' :
  impact_hop1 g node s succ = Some s' → (length s'.1 ≤ length s.1 + 4)%nat.
Proof.
  unfold impact_hop1.
  destruct (edge_data g node succ); [|done].
  destruct (node_data g node); [|done].
  destruct (node_data g succ); [|done]. cbn.
  destruct (successors g succ) as [succs2|]; [|done]. cbn.
  intros Hfold. apply (foldM_measure (λ t, length t.1) 1) in Hfold.
  - cbn [fst] in Hfold. rewrite length_app in Hfold. cbn in Hfold.
    pose proof (length_take succs2 3). lia.
  - intros t x t1 _. apply impact_hop2_size.
Qed.

Lemma impact_hop1_ok_inv g (node : string) s succ s' :
  impact_hop1 g node s succ = Some s' → aff_state_ok g s → aff_state_ok g s'.
Proof.
  unfold impact_hop1.
  destruct (edge_data g node succ) as [edge|] eqn:He; [|done].
  destruct (node_data g node) as [nd|]; [|done].
  destruct (node_data g succ) as [sd|]; [|done]. cbn.
  destruct (successors g succ) as [succs2|]; [|done]. cbn.
  set (entry := mkAff node succ _ _ _ _ _).
  set (s1 := ((s.1 ++ [entry])%list, _)).
  intros Hfold Hok.
  assert (aff_state_ok g s1 ∧ succ ∈ s1.2) as Hs1.
  { split.
    - apply aff_state_extend; [done | by exists edge |]. cbn.
      intros n. rewrite !elem_of_union, !elem_of_singleton. tauto.
    - cbn. apply elem_of_union. right. by apply elem_of_singleton. }
  eapply (foldM_Some_inv (λ t, aff_state_ok g t ∧ succ ∈ t.2)) in Hfold;
    [by destruct Hfold | done |].
  intros t x t1 _ [? ?] Ht1.
  by apply (impact_hop2_ok_inv g succ t x t1 Ht1).
Qed.

Lemma impact_node_ok_inv g s (node : string) s' :
  impact_node g s node = Some s' → aff_state_ok g s →
  aff_state_ok g s' ∧ (length s'.1 ≤ length s.1 + 20)%nat.
Proof.
  unfold impact_node. destruct (successors g node) as [succs|]; [|done]. cbn.
  intros Hfold Hok. split.
  - eapply (foldM_Some_inv (aff_state_ok g)) in Hfold; [done | done |].
    intros t x t1 _ Ht Ht1. by apply (impact_hop1_ok_inv g node t x t1 Ht1).
  - apply (foldM_measure (λ t, length t.1) 4) in Hfold.
    + pose proof (length_take succs 5). lia.
    + intros t x t1 _. apply impact_hop1_size.
Qed.

(** X4.  When the impact strategy returns, [count] is the number of
    entries and is at most 60; every entry, of the first or the second
    hop, stands for an edge of the graph from [from] to [to] and carries
    the relation of that edge; and [nodes] lists exactly the ends of the
    entries. *)
Theorem impact_entries_are_edges (g : DiGraph.t) (query : string)
    (entities : list string) (ev : Evidence.t Score) :
  _handle_impact_query g query entities = Some ev →
  ∃ affected nodes,
    ev_affected ev = Some affected ∧ ev_nodes ev = Some nodes ∧
    ev_count ev = Some (length affected) ∧ (length affected ≤ 60)%nat ∧
    Forall (aff_is_edge g) affected ∧
    ∀ n, n ∈ nodes ↔ ∃ e, e ∈ affected ∧ (n = a_from e ∨ n = a_to e).
Proof.
  unfold _handle_impact_query.
  destruct (foldM _ _ _) as [found|] eqn:Hfold; [|done]. cbn.
  intros [= <-]. exists found.1, (set_iter found.2). cbn.
  assert (aff_state_ok g found) as [Hall Hset].
  { eapply (foldM_Some_inv (aff_state_ok g)) in Hfold; [done | |].
    - split; [constructor|]. intros n. cbn. split; [by intros ?%elem_of_empty|].
      intros (e & ?%elem_of_nil & _). done.
    - intros t x t1 _ Ht Ht1. by destruct (impact_node_ok_inv g t x t1 Ht1 Ht). }
  split_and!; [done..| | done |].
  - apply (foldM_measure (λ t, length t.1) 20) in Hfold.
    + cbn in Hfold.
      pose proof (length_take (_find_nodes_by_entities g entities None) 3). lia.
    + intros t x t1 _ Ht1. unfold impact_node in Ht1.
      destruct (successors g x) as [succs|]; [|done]. cbn in Ht1.
      apply (foldM_measure (λ t, length t.1) 4) in Ht1.
      * pose proof (length_take succs 5). lia.
      * intros t2 y t3 _. apply impact_hop1_size.
  - intros n. rewrite set_iter_elem. apply Hset.
Qed.

End ImpactEntries.

Section Witness_ImpactEntries.
Import DiGraph Evidence GraphQueryEngine HopInvariant.
(** On the chain, asked about its first node. *)
Lemma impact_entries_are_edges_witness :
  ∃ ev, _handle_impact_query (SO := elements_order) (NX := degree_scores)
          Scenario.chain "What breaks if x changes?" ["x"] = Some ev
        ∧ ∃ affected nodes,
            ev_affected ev = Some affected ∧ ev_nodes ev = Some nodes ∧
            ev_count ev = Some (length affected) ∧ (length affected ≤ 60)%nat ∧
            Forall (aff_is_edge Scenario.chain) affected ∧
            ∀ n, n ∈ nodes ↔ ∃ e, e ∈ affected ∧ (n = a_from e ∨ n = a_to e).
Proof.
  eexists. split; [vm_compute; reflexivity|].
  apply (impact_entries_are_edges (SO := elements_order)
           (NX := degree_scores) Scenario.chain "What breaks if x changes?" ["x"]).
  vm_compute. reflexivity.
Defined.
End Witness_ImpactEntries.


Section PathDetailFacts.
Import DiGraph Evidence GraphQueryEngine.
Implicit Types (g : DiGraph.t) (path : list string).

(** Every two consecutive nodes of [path] are joined by an edge. *)
Lemma path_steps_Some g path steps :
  path_steps g path = Some steps →
  length steps = (length path - 1)%nat ∧
  ∀ i step, steps !! i = Some step →
    path !! i = Some (st_from step) ∧ path !! S i = Some (st_to step) ∧
    ∃ edge, edge_data g (st_from step) (st_to step) = Some edge
            ∧ st_relation step = default "" (e_relation edge)
            ∧ st_description step = default "" (e_description edge).
Proof.
  revert steps. induction path as [|source rest IH]; intros steps.
  - cbn. intros [= <-]. split; [done|]. intros i step Hi. by rewrite lookup_nil in Hi.
  - cbn [path_steps]. destruct rest as [|target rest'].
    + intros [= <-]. split; [done|]. intros i step Hi. by rewrite lookup_nil in Hi.
    + destruct (edge_data g source target) as [edge|] eqn:He; [|done].
      destruct (node_data g source) as [sd|]; [|done].
      destruct (node_data g target) as [td|]; [|done].
      cbn [mbind option_bind].
      destruct (path_steps g (target :: rest')) as [steps'|] eqn:Hrest; [|done].
      cbn [mbind option_bind]. intros [= <-].
      destruct (IH steps' eq_refl) as [Hlen Hsteps]. split.
      * cbn [length] in *. lia.
      * intros [|i] step Hi.
        -- cbn in Hi. injection Hi as <-. cbn. split_and!; [done..|].
           by exists edge.
        -- cbn in Hi. apply (Hsteps i step Hi).
Qed.

Lemma path_steps_total g path :
  closed g →
  (∀ i u v, path !! i = Some u → path !! S i = Some v →
            is_Some (edge_data g u v)) →
  is_Some (path_steps g path).
Proof.
  intros Hc. induction path as [|source rest IH]; intros Hedges; [by eexists|].
  cbn [path_steps]. destruct rest as [|target rest']; [by eexists|].
  destruct (Hedges 0%nat source target eq_refl eq_refl) as [edge He].
  rewrite He. cbn [mbind option_bind].
  destruct (Hc source target) as [Hs Ht].
  { apply edge_data_is_Some. by exists edge. }
  apply node_data_is_Some in Hs as [sd ->], Ht as [td ->].
  cbn [mbind option_bind].
  destruct IH as [steps ->]; [|by eexists].
  intros i u v Hu Hv. by apply (Hedges (S i)).
Qed.

(** X5.  Over a graph that satisfies the invariant, [_get_path_details]
    returns exactly when every two consecutive nodes of the path are
    joined by an edge.  What it returns has the path as [nodes], its
    number of nodes as [length], and one step for each two consecutive
    nodes, in order, with the relation and the description of the edge
    between them. *)
Theorem path_details_spec (g : DiGraph.t) (path : list string) :
  wf g = true →
  (is_Some (_get_path_details g path) ↔
   ∀ i u v, path !! i = Some u → path !! S i = Some v →
            is_Some (edge_data g u v)) ∧
  ∀ details, _get_path_details g path = Some details →
    pd_nodes details = path ∧ pd_length details = length path ∧
    length (pd_steps details) = (length path - 1)%nat ∧
    ∀ i step, pd_steps details !! i = Some step →
      path !! i = Some (st_from step) ∧ path !! S i = Some (st_to step) ∧
      ∃ edge, edge_data g (st_from step) (st_to step) = Some edge
              ∧ st_relation step = default "" (e_relation edge)
              ∧ st_description step = default "" (e_description edge).
Proof.
  intros Hwf. apply wf_spec in Hwf as (_ & _ & Hc).
  unfold _get_path_details. split; [split|].
  - intros [details Hd] i u v Hu Hv.
    destruct (path_steps g path) as [steps|] eqn:Hs; [|done].
    destruct (path_steps_Some g path steps Hs) as [Hlen Hsteps].
    assert (i < length steps)%nat as Hi.
    { apply lookup_lt_Some in Hv. lia. }
    apply lookup_lt_is_Some in Hi as [step Hstep].
    destruct (Hsteps i step Hstep) as (Hu' & Hv' & edge & He & _).
    rewrite Hu in Hu'. rewrite Hv in Hv'. simplify_eq. by exists edge.
  - intros Hedges. destruct (path_steps_total g path Hc Hedges) as [steps ->].
    by eexists.
  - intros details. destruct (path_steps g path) as [steps|] eqn:Hs; [|done].
    cbn. intros [= <-]. cbn.
    destruct (path_steps_Some g path steps Hs) as [Hlen Hsteps]. done.
Qed.
End PathDetailFacts.

Section PathDetailExample.
Import DiGraph Evidence GraphQueryEngine.

(** The path of the first scenario. *)
Lemma path_details_spec_witness :
  is_Some (_get_path_details Scenario.scenario1 ["paper_section_0"; "feature_0"]).
Proof.
  apply (proj1 (path_details_spec Scenario.scenario1
                  ["paper_section_0"; "feature_0"] ltac:(vm_compute; reflexivity))).
  intros [|[|i]] u v Hu Hv; cbn in Hu, Hv; simplify_eq.
  apply is_Some_alt. vm_compute. exact I.
Defined.
End PathDetailExample.

Section SubgraphFacts.
Import DiGraph Evidence GraphQueryEngine.
Context {SO : SetOrder}.
Implicit Types (g : DiGraph.t).

Lemma elem_of_edges_iter g u v :
  (u, v) ∈ edges_iter g ↔ u ∈ node_ids g ∧ (u, v) ∈ (g_edges g).*1.
Proof.
  unfold edges_iter. rewrite list_elem_of_In, in_flat_map. split.
  - intros (n & Hn%list_elem_of_In & Hin%list_elem_of_In).
    apply list_elem_of_fmap in Hin as (w & [= -> ->] & Hw). split; [done|].
    by apply elem_of_succ_list.
  - intros [Hu Huv]. exists u. split; [by apply list_elem_of_In|].
    apply list_elem_of_In, list_elem_of_fmap. exists v. split; [done|].
    by apply elem_of_succ_list.
Qed.

(** The edge loop shared by the two engines: the edges of the graph
    whose two ends are in [X]. *)
Lemma induced_edges_total g (X : gset string) (acc : list SubEdge) :
  is_Some (foldM (λ (edges : list SubEdge) (st : string * string),
                    if bool_decide (st.1 ∈ X) && bool_decide (st.2 ∈ X)
                    then
                      edge ← edge_data g st.1 st.2;
                      Some (edges ++ [mkSubEdge st.1 st.2
                                        (default "" (e_relation edge))])%list
                    else Some edges)
                 acc (edges_iter g)).
Proof.
  set (body := λ (edges : list SubEdge) (st : string * string), _).
  destruct (foldM_inv (λ _, True) body (edges_iter g) acc I) as (s' & -> & _);
    [|by eexists].
  intros s [u v] Hin _. unfold body. cbn [fst snd].
  destruct (_ && _); [|by eexists].
  destruct (edges_iter_edge g u v Hin) as [d ->]. cbn. by eexists.
Qed.

Lemma induced_edges_spec g (X : gset string) (edges : list SubEdge) :
  closed g →
  foldM (λ (edges : list SubEdge) (st : string * string),
           if bool_decide (st.1 ∈ X) && bool_decide (st.2 ∈ X)
           then
             edge ← edge_data g st.1 st.2;
             Some (edges ++ [mkSubEdge st.1 st.2
                               (default "" (e_relation edge))])%list
           else Some edges)
        [] (edges_iter g) = Some edges →
  ∀ e, e ∈ edges ↔
    se_source e ∈ X ∧ se_target e ∈ X ∧
    ∃ edge, edge_data g (se_source e) (se_target e) = Some edge
            ∧ se_relation e = default "" (e_relation edge).
Proof.
  intros Hc. set (body := λ (edges : list SubEdge) (st : string * string), _).
  intros Hfold.
  assert (∀ s st, st ∈ edges_iter g →
            ∃ s', body s st = Some s' ∧ ∀ e, e ∈ s → e ∈ s') as Htotal.
  { intros s [u v] Hin. unfold body. cbn [fst snd].
    destruct (_ && _).
    - destruct (edges_iter_edge g u v Hin) as [d ->]. cbn.
      eexists. split; [done|]. intros e He. apply elem_of_app. by left.
    - by exists s. }
  intros e. split.
  - revert e. apply Forall_forall.
    apply (foldM_Some_inv
             (Forall (λ e, se_source e ∈ X ∧ se_target e ∈ X ∧
                           ∃ edge, edge_data g (se_source e) (se_target e) = Some edge
                                   ∧ se_relation e = default "" (e_relation edge)))
             body (edges_iter g) [] edges); [constructor | | done].
    intros s [u v] s1 _ Hs. unfold body. cbn [fst snd].
    destruct (bool_decide (u ∈ X)) eqn:Hu; [|by intros [= <-]].
    destruct (bool_decide (v ∈ X)) eqn:Hv; [|by intros [= <-]].
    cbn [andb]. destruct (edge_data g u v) as [edge|] eqn:He; [|done].
    cbn. intros [= <-]. apply Forall_app. split; [done|].
    apply Forall_singleton. cbn.
    apply bool_decide_eq_true in Hu, Hv. split_and!; [done..|].
    by exists edge.
  - intros (Hu & Hv & edge & He & Hrel). destruct e as [u v r]. cbn in *.
    destruct (foldM_reach (λ s, mkSubEdge u v r ∈ s) body (edges_iter g) []
                (u, v)) as (s' & Hs' & Hin).
    + apply elem_of_edges_iter.
      assert ((u, v) ∈ (g_edges g).*1) as Huv
        by (apply edge_data_is_Some; by exists edge).
      split; [by destruct (Hc _ _ Huv) | done].
    + intros s st Hst. destruct (Htotal s st Hst) as (s' & ? & ?).
      exists s'. split; [done | auto].
    + intros s s'. unfold body. cbn [fst snd].
      rewrite (bool_decide_eq_true_2 _ Hu), (bool_decide_eq_true_2 _ Hv).
      cbn [andb]. rewrite He. cbn. intros [= <-].
      apply elem_of_app. right. rewrite Hrel. left.
    + congruence.
Qed.

(** X6.  Over a graph that satisfies the invariant, the subgraph returned
    by neighbourhood expansion lists each member of the node set once, and
    its edges are exactly the edges of the graph whose two ends are in the
    node set, each with the relation of the edge. *)
Theorem neighborhood_edges_induced (g : DiGraph.t) (seed_nodes : list string)
    (hops : nat) (sub : Subgraph) :
  wf g = true →
  _get_neighborhood_subgraph g seed_nodes hops = Some sub →
  NoDup (sg_nodes sub) ∧
  (∀ n, n ∈ sg_nodes sub ↔ n ∈ neighborhood_nodes g seed_nodes hops) ∧
  ∀ e, e ∈ sg_edges sub ↔
    se_source e ∈ neighborhood_nodes g seed_nodes hops ∧
    se_target e ∈ neighborhood_nodes g seed_nodes hops ∧
    ∃ edge, edge_data g (se_source e) (se_target e) = Some edge
            ∧ se_relation e = default "" (e_relation edge).
Proof.
  intros Hwf. apply wf_spec in Hwf as (_ & _ & Hc).
  unfold _get_neighborhood_subgraph.
  set (X := neighborhood_nodes g seed_nodes hops).
  destruct (foldM _ [] (edges_iter g)) as [edges|] eqn:Hfold; [|done].
  cbn [mbind option_bind]. intros [= <-]. cbn [sg_nodes sg_edges].
  split_and!.
  - apply set_iter_NoDup.
  - intros n. apply set_iter_elem.
  - by apply (induced_edges_spec g X edges Hc).
Qed.
End SubgraphFacts.

Section SubgraphExample.
Import DiGraph Evidence GraphQueryEngine.

(** Around the middle node of the chain. *)
Lemma neighborhood_edges_induced_witness :
  ∃ sub, _get_neighborhood_subgraph (SO := elements_order) Scenario.chain ["y"] 2
         = Some sub
         ∧ NoDup (sg_nodes sub)
         ∧ (∀ n, n ∈ sg_nodes sub ↔ n ∈ neighborhood_nodes Scenario.chain ["y"] 2)
         ∧ ∀ e, e ∈ sg_edges sub ↔
             se_source e ∈ neighborhood_nodes Scenario.chain ["y"] 2 ∧
             se_target e ∈ neighborhood_nodes Scenario.chain ["y"] 2 ∧
             ∃ edge, edge_data Scenario.chain (se_source e) (se_target e) = Some edge
                     ∧ se_relation e = default "" (e_relation edge).
Proof.
  eexists. split; [vm_compute; reflexivity|].
  apply (neighborhood_edges_induced (SO := elements_order) Scenario.chain ["y"] 2).
  - vm_compute. reflexivity.
  - vm_compute. reflexivity.
Defined.
End SubgraphExample.

Section RendererFacts.
Import DiGraph Evidence LLMAnalyzer GraphQueryEngine.
Context {NX : NxCentrality}.

Lemma digest_block_total {A} (items : option (list A))
    (block : list A → option (list string)) :
  (∀ l, is_Some (block l)) → is_Some (digest_block items block).
Proof. intros H. destruct items as [[|x l]|]; cbn; eauto. Qed.

Lemma path_line_None (p : PathDetail) : path_line p = None ↔ pd_steps p = [].
Proof.
  unfold path_line. rewrite <- last_None.
  destruct (last (pd_steps p)); cbn; split; intros; done.
Qed.

(** The digest raises exactly when one of the first three paths has no
    step. *)
Lemma build_context_None (evidence : Evidence.t Score) :
  _build_context_from_evidence evidence = None ↔
  ∃ p, p ∈ take 3 (default [] (ev_paths evidence)) ∧ pd_steps p = [].
Proof.
  unfold _build_context_from_evidence.
  set (b1 := digest_block (ev_paths evidence) _).
  assert (b1 = None ↔
          ∃ p, p ∈ take 3 (default [] (ev_paths evidence)) ∧ pd_steps p = [])
    as Hb1.
  { unfold b1, digest_block.
    destruct (ev_paths evidence) as [[|p0 paths]|]; cbn [default].
    - split; [done | intros (p & ?%elem_of_nil & _); done].
    - destruct (mapM path_line (take 3 (p0 :: paths))) as [ls|] eqn:Hm;
        cbn [mbind option_bind].
      + split; [done|]. intros (p & Hp & Hsteps).
        apply mapM_Some_1 in Hm.
        apply list_elem_of_lookup in Hp as [i Hi].
        destruct (Forall2_lookup_l _ _ _ _ _ Hm Hi) as (y & _ & Hy).
        apply path_line_None in Hsteps. congruence.
      + split; [|done]. intros _. apply mapM_None_1 in Hm.
        apply Exists_exists in Hm as (p & Hp & Hnone).
        exists p. split; [done | by apply path_line_None].
    - split; [done | intros (p & ?%elem_of_nil & _); done]. }
  destruct b1 as [l1|]; cbn [mbind option_bind].
  + split; [|intros H; by apply Hb1 in H].
    repeat match goal with
           | |- context [digest_block ?i ?b] =>
               let H := fresh in
               destruct (digest_block_total i b) as [? H];
               [intros; by eexists | rewrite H; cbn [mbind option_bind]]
           end.
    done.
  + split; [intros _; by apply Hb1 | done].
Qed.

(** X7.  The digest of an evidence record raises in one case only: one of
    the first three paths has no step.  A record all of whose lists are
    absent or empty has the digest [No specific graph evidence found.] *)
Theorem build_context_raises_only_on_stepless_path (evidence : Evidence.t Score) :
  (_build_context_from_evidence evidence = None ↔
   ∃ p, p ∈ take 3 (default [] (ev_paths evidence)) ∧ pd_steps p = []) ∧
  (default [] (ev_paths evidence) = [] →
   default [] (ev_dependencies evidence) = [] →
   default [] (ev_gaps evidence) = [] →
   default [] (ev_affected evidence) = [] →
   default [] (ev_key_concepts evidence) = [] →
   default [] (ev_locations evidence) = [] →
   _build_context_from_evidence evidence
   = Some "No specific graph evidence found.").
Proof.
  split; [apply build_context_None|].
  intros H1 H2 H3 H4 H5 H6. unfold _build_context_from_evidence, digest_block.
  destruct (ev_paths evidence) as [[|]|]; [|done|];
  destruct (ev_dependencies evidence) as [[|]|]; try done;
  destruct (ev_gaps evidence) as [[|]|]; try done;
  destruct (ev_affected evidence) as [[|]|]; try done;
  destruct (ev_key_concepts evidence) as [[|]|]; try done;
  destruct (ev_locations evidence) as [[|]|]; try done.
Qed.

(** X8.  The summary strategy returns a record without [count]: the
    fallback sentence of a summary always reports 0 results.  The record
    has at most ten key concepts and at most five bridge nodes, and no
    bridge node when the graph has two nodes or fewer. *)
Theorem summary_has_no_count {SO : SetOrder} (g : DiGraph.t) (query : string)
    (entities : list string) (ev : Evidence.t Score) :
  _handle_summary_query g query entities = Some ev →
  ev_count ev = None ∧
  _generate_fallback_answer ev
  = "Found 0 summary results in the graph. Check the visualization for details." ∧
  (∃ concepts, ev_key_concepts ev = Some concepts ∧ (length concepts ≤ 10)%nat) ∧
  (∃ bridges, ev_bridge_nodes ev = Some bridges ∧ (length bridges ≤ 5)%nat
              ∧ ((number_of_nodes g ≤ 2)%nat → bridges = [])).
Proof.
  unfold _handle_summary_query.
  set (top := take 10 _).
  destruct (foldM (summary_turn g) (∅, []) top) as [found|] eqn:Hfold; [|done].
  cbn [mbind option_bind]. intros [= <-]. cbn.
  split_and!; [done | done | |].
  - eexists. split; [done|].
    apply (foldM_measure (λ t, length t.2) 1) in Hfold.
    + cbn in Hfold. unfold top in Hfold. rewrite length_take in Hfold. lia.
    + intros t x t1 _. unfold summary_turn.
      destruct (node_data g x.1); [|done]. cbn. intros [= <-]. cbn.
      rewrite length_app. cbn. lia.
  - eexists. split; [done|]. split.
    + rewrite length_fmap.
      destruct (number_of_nodes g) as [|[|[|k]]]; cbn [length]; try lia.
      rewrite length_take. lia.
    + intros Hn. destruct (number_of_nodes g) as [|[|[|k]]]; [done..|lia].
Qed.
End RendererFacts.

Section SummaryExample.
Import DiGraph Evidence LLMAnalyzer GraphQueryEngine.

(** The summary of the first scenario, with the degree as score. *)
Lemma summary_has_no_count_witness :
  ∃ ev, _handle_summary_query (SO := elements_order) (NX := degree_scores)
          Scenario.scenario1 "summarize" [] = Some ev
        ∧ ev_count ev = None
        ∧ _generate_fallback_answer ev
          = "Found 0 summary results in the graph. Check the visualization for details.".
Proof.
  eexists. split; [vm_compute; reflexivity|].
  pose proof (summary_has_no_count (NX := degree_scores) (SO := elements_order)
                Scenario.scenario1 "summarize" [] _
                ltac:(vm_compute; reflexivity)) as (H1 & H2 & _).
  split; [exact H1 | exact H2].
Defined.
End SummaryExample.

(** * Shortest paths and the path strategy *)

Section WalkFacts.
Import DiGraph Walk.
Implicit Types (g : DiGraph.t) (p path : list string).

Lemma last_rev p : last (rev p) = head p.
Proof. destruct p as [|x p]; [done|]. cbn. by rewrite last_snoc. Qed.

Lemma head_rev p : head (rev p) = last p.
Proof. rewrite <- (rev_involutive p) at 2. by rewrite last_rev. Qed.

Lemma is_walk_snoc g path h v :
  is_walk g path → last path = Some h → is_Some (edge_data g h v) →
  is_walk g (path ++ [v]).
Proof.
  intros Hw Hlast He i u w Hu Hw'.
  destruct (decide (S i < length path)%nat) as [Hlt|Hge].
  - rewrite lookup_app_l in Hu by lia. rewrite lookup_app_l in Hw' by lia.
    by apply (Hw i).
  - assert (S i = length path) as Hi.
    { apply lookup_lt_Some in Hw'. rewrite length_app in Hw'. cbn in Hw'. lia. }
    rewrite lookup_app_l in Hu by lia.
    rewrite lookup_app_r in Hw' by lia.
    rewrite Hi, Nat.sub_diag in Hw'. cbn in Hw'. injection Hw' as <-.
    rewrite last_lookup in Hlast.
    replace (pred (length path)) with i in Hlast by lia.
    rewrite Hu in Hlast. by injection Hlast as ->.
Qed.

(** What the search keeps about every path of the frontier (paths are
    held reversed). *)
Lemma bfs_expand_paths g frontier seen p' :
  p' ∈ (bfs_expand g frontier seen).1 →
  ∃ p v, p ∈ frontier ∧ v ∈ succ_list g (path_head p) ∧ p' = v :: p.
Proof.
  revert seen. induction frontier as [|p frontier IH]; intros seen; cbn.
  - by intros ?%elem_of_nil.
  - destruct (bfs_expand g frontier _) as [next seen'] eqn:Hrec. cbn.
    intros [Hin|Hin]%elem_of_app.
    + apply list_elem_of_fmap in Hin as (v & -> & Hv).
      apply elem_of_remove_dups, list_elem_of_In, filter_In in Hv as [Hv _].
      exists p, v. split_and!; [left | by apply list_elem_of_In | done].
    + destruct (IH (seen ++ remove_dups
                      (List.filter (λ v, bool_decide (v ∉ seen))
                                   (succ_list g (path_head p))))%list)
        as (q & v & Hq & Hv & ->).
      { by rewrite Hrec. }
      exists q, v. split_and!; [by right | done | done].
Qed.

Lemma bfs_walk g source target fuel frontier seen path :
  (∀ p, p ∈ frontier → p ≠ [] ∧ last p = Some source ∧ is_walk g (rev p)) →
  bfs g target fuel frontier seen = Some path →
  walk_from_to g path source target.
Proof.
  revert frontier seen.
  induction fuel as [|fuel IH]; intros frontier seen Hinv; cbn [bfs].
  - destruct (List.find _ frontier) as [p|] eqn:Hfind; [|done].
    intros [= <-]. apply find_some in Hfind as [Hp%list_elem_of_In Hhead].
    apply bool_decide_eq_true in Hhead.
    destruct (Hinv p Hp) as (Hne & Hlast & Hw).
    split_and!; [by rewrite head_rev | | done].
    rewrite last_rev. destruct p; [done|]. cbn in *. by subst.
  - destruct (List.find _ frontier) as [p|] eqn:Hfind.
    + intros [= <-]. apply find_some in Hfind as [Hp%list_elem_of_In Hhead].
      apply bool_decide_eq_true in Hhead.
      destruct (Hinv p Hp) as (Hne & Hlast & Hw).
      split_and!; [by rewrite head_rev | | done].
      rewrite last_rev. destruct p; [done|]. cbn in *. by subst.
    + destruct (bfs_expand g frontier seen) as [next seen'] eqn:Hexp.
      destruct next as [|q next]; [done|].
      apply IH. intros p' Hp'.
      destruct (bfs_expand_paths g frontier seen p') as (p & v & Hp & Hv & ->).
      { by rewrite Hexp. }
      destruct (Hinv p Hp) as (Hne & Hlast & Hw).
      split_and!; [done | | ].
      * destruct p; [done|]. exact Hlast.
      * cbn [rev]. apply (is_walk_snoc g (rev p) (path_head p) v); [done | |].
        -- rewrite last_rev. by destruct p.
        -- apply edge_data_is_Some, elem_of_succ_list. done.
Qed.

(** A path returned by [shortest_path] is a walk from the source to the
    target, and both are nodes. *)
Lemma shortest_path_walk g source target path :
  shortest_path g source target = Some path →
  walk_from_to g path source target ∧
  source ∈ node_ids g ∧ target ∈ node_ids g.
Proof.
  unfold shortest_path.
  destruct (has_node g source) eqn:Hs; [|done].
  destruct (has_node g target) eqn:Ht; [|done]. cbn [andb].
  intros Hbfs. split; [|split; by apply has_node_spec].
  eapply bfs_walk; [|done].
  intros p ->%list_elem_of_singleton. split_and!; [done | done |].
  intros i u v Hu Hv. destruct i; done.
Qed.

Lemma walk_two_nodes g path a b :
  walk_from_to g path a b → a ≠ b → (2 ≤ length path)%nat.
Proof.
  intros (Hh & Hl & _) Hab. destruct path as [|x [|y path]]; cbn in *.
  - done.
  - congruence.
  - lia.
Qed.
End WalkFacts.

Section PathStrategyFacts.
Import DiGraph Walk Evidence GraphQueryEngine PathInvariant.
Context {SO : SetOrder} {NX : NxCentrality}.
Implicit Types (g : DiGraph.t).

Lemma find_nodes_modality g entities (m : string) n :
  PyStr.truthy m = true →
  n ∈ _find_nodes_by_entities g entities (Some m) →
  ∃ data, (n, data) ∈ g_nodes g ∧ n_modality data = Some m.
Proof.
  intros Hm ([k data] & Hin & Hsome)%list_elem_of_omap. cbn in Hsome.
  rewrite Hm in Hsome. cbn in Hsome.
  destruct (bool_decide (n_modality data = Some m)) eqn:Hd; cbn in Hsome; [|done].
  apply bool_decide_eq_true in Hd.
  destruct (existsb _ entities); [|done]. simplify_eq. by exists data.
Qed.

Lemma elem_of_path_pairs (paper_nodes code_nodes : list string) a b :
  (a, b) ∈ path_pairs paper_nodes code_nodes ↔
  a ∈ take 3 paper_nodes ∧ b ∈ take 3 code_nodes.
Proof.
  unfold path_pairs. rewrite list_elem_of_In, in_flat_map. split.
  - intros (x & Hx%list_elem_of_In & Hin%list_elem_of_In).
    apply list_elem_of_fmap in Hin as (y & [= -> ->] & Hy). done.
  - intros [Ha Hb]. exists a. split; [by apply list_elem_of_In|].
    apply list_elem_of_In, list_elem_of_fmap. by exists b.
Qed.

Lemma length_path_pairs (paper_nodes code_nodes : list string) :
  (length (path_pairs paper_nodes code_nodes) ≤ 9)%nat.
Proof.
  unfold path_pairs.
  assert (∀ l : list string,
            length (flat_map (λ paper_node,
                      (λ code_node, (paper_node, code_node)) <$> take 3 code_nodes) l)
            = (length l * length (take 3 code_nodes))%nat) as ->.
  { induction l as [|x l IH]; [done|]. cbn [flat_map].
    rewrite length_app, length_fmap, IH. cbn [length]. lia. }
  pose proof (length_take paper_nodes 3). pose proof (length_take code_nodes 3).
  nia.
Qed.

Lemma path_reported_mono g entities (X Y : gset string) p :
  X ⊆ Y → path_reported g entities X p → path_reported g entities Y p.
Proof.
  intros HXY (a & b & Ha & Hb & Hw & Hs & Hl & Hn).
  exists a, b. split_and!; [done..|]. intros n Hin. apply HXY. by apply Hn.
Qed.

Lemma path_turn_ok g entities acc pair :
  wf g = true →
  pair ∈ path_pairs (_find_nodes_by_entities g entities (Some "paper"))
                    (_find_nodes_by_entities g entities (Some "code")) →
  Forall (path_reported g entities acc.2) acc.1 →
  ∃ acc', path_turn g acc pair = Some acc'
          ∧ Forall (path_reported g entities acc'.2) acc'.1.
Proof.
  intros Hwf Hpair Hacc. apply wf_spec in Hwf as (Hnd & _ & Hc).
  destruct pair as [a b]. apply elem_of_path_pairs in Hpair as [Ha Hb].
  unfold path_turn. cbn [fst snd].
  destruct (shortest_path g a b) as [path|] eqn:Hsp; [|by exists acc].
  apply shortest_path_walk in Hsp as (Hwalk & _ & _).
  assert (a ≠ b) as Hab.
  { intros <-.
    destruct (find_nodes_modality g entities "paper" a eq_refl
                (elem_of_take_elem _ _ _ Ha)) as (da & Hda & Hma).
    destruct (find_nodes_modality g entities "code" a eq_refl
                (elem_of_take_elem _ _ _ Hb)) as (db & Hdb & Hmb).
    apply (alist_elem_get _ _ _ Hnd) in Hda, Hdb. congruence. }
  pose proof (walk_two_nodes g path a b Hwalk Hab) as Hlen.
  destruct (path_steps_total g path Hc) as [steps Hsteps].
  { apply Hwalk. }
  destruct (path_steps_Some g path steps Hsteps) as [Hsl _].
  unfold _get_path_details. rewrite Hsteps. cbn [mbind option_bind].
  eexists. split; [done|]. cbn [fst snd]. apply Forall_app. split.
  - eapply Forall_impl; [done|]. intros p. apply path_reported_mono.
    apply union_subseteq_l.
  - apply Forall_singleton. exists a, b. cbn.
    split_and!; [done | done | done | | done |].
    + intros ->. cbn in Hsl. lia.
    + intros n Hn. apply elem_of_union. right. by apply elem_of_list_to_set.
Qed.

Lemma path_loop_ok g entities :
  wf g = true →
  ∃ found,
    foldM (path_turn g) ([], ∅)
          (path_pairs (_find_nodes_by_entities g entities (Some "paper"))
                      (_find_nodes_by_entities g entities (Some "code")))
    = Some found
    ∧ (length found.1 ≤ 9)%nat
    ∧ Forall (path_reported g entities found.2) found.1.
Proof.
  intros Hwf.
  destruct (foldM_inv (λ acc, Forall (path_reported g entities acc.2) acc.1)
              (path_turn g)
              (path_pairs (_find_nodes_by_entities g entities (Some "paper"))
                          (_find_nodes_by_entities g entities (Some "code")))
              ([], ∅)) as (found & Hfold & Hinv).
  { constructor. }
  { intros s x Hx Hs. by apply path_turn_ok. }
  exists found. split_and!; [done | | done].
  apply (foldM_measure (λ acc, length acc.1) 1) in Hfold.
  - pose proof (length_path_pairs
                  (_find_nodes_by_entities g entities (Some "paper"))
                  (_find_nodes_by_entities g entities (Some "code"))).
    cbn in Hfold. lia.
  - intros s x s1 _. unfold path_turn.
    destruct (shortest_path g x.1 x.2); [|intros [= <-]; lia].
    destruct (_get_path_details g l); [|done]. cbn. intros [= <-]. cbn.
    rewrite length_app. cbn. lia.
Qed.

(** The record the path strategy returns once its loop has ended. *)
Lemma handle_path_query_found g query entities found :
  foldM (path_turn g) ([], ∅)
        (path_pairs (_find_nodes_by_entities g entities (Some "paper"))
                    (_find_nodes_by_entities g entities (Some "code")))
  = Some found →
  ∃ nodes_in_paths : gset string,
    found.2 ⊆ nodes_in_paths ∧
    _handle_path_query g query entities
    = Some (mkEvidence Score (Some "path") (Some found.1) None None None
              None None None None (Some (set_iter nodes_in_paths)) None
              (Some (length found.1))).
Proof.
  intros Hfold. unfold _handle_path_query. rewrite Hfold.
  cbn [mbind option_bind].
  destruct (negb (nonempty found.1) && _) eqn:Hif.
  - destruct (neighborhood_subgraph_total g
                (_find_nodes_by_entities g entities (Some "paper") ++
                 _find_nodes_by_entities g entities (Some "code"))%list 2)
      as [edges ->].
    cbn. eexists. split; [|done]. apply union_subseteq_l.
  - cbn. by eexists.
Qed.

(** X9.  Over a graph that satisfies the invariant the path strategy
    always returns.  It reports at most nine paths, and [count] is their
    number; each path is a walk of the graph from one of the first three
    matching paper nodes to one of the first three matching code nodes,
    has at least one step and one step for each edge, and all its nodes
    are listed in [nodes]. *)
Theorem path_strategy_reports_walks (g : DiGraph.t) (query : string)
    (entities : list string) :
  wf g = true →
  ∃ ev paths nodes,
    _handle_path_query g query entities = Some ev ∧
    ev_type ev = Some "path" ∧
    ev_paths ev = Some paths ∧ ev_nodes ev = Some nodes ∧
    ev_count ev = Some (length paths) ∧ (length paths ≤ 9)%nat ∧
    Forall (path_reported g entities (list_to_set nodes)) paths.
Proof.
  intros Hwf. destruct (path_loop_ok g entities Hwf) as (found & Hfold & Hlen & Hall).
  destruct (handle_path_query_found g query entities found Hfold)
    as (X & HX & ->).
  eexists _, found.1, (set_iter X). split; [done|]. cbn.
  split_and!; [done..|].
  eapply Forall_impl; [done|]. intros p. apply path_reported_mono.
  intros n Hn. apply elem_of_list_to_set, set_iter_elem. by apply HX.
Qed.
End PathStrategyFacts.

Section PathStrategyExample.
Import DiGraph Walk Evidence GraphQueryEngine PathInvariant.

(** The first scenario: one path, from the paper section to the feature. *)
Lemma path_strategy_reports_walks_witness :
  ∃ ev paths nodes,
    _handle_path_query (SO := elements_order) (NX := degree_scores)
      Scenario.scenario1 Scenario.scenario1_query ["Attention"] = Some ev ∧
    ev_type ev = Some "path" ∧
    ev_paths ev = Some paths ∧ ev_nodes ev = Some nodes ∧
    ev_count ev = Some (length paths) ∧ (length paths ≤ 9)%nat ∧
    Forall (path_reported Scenario.scenario1 ["Attention"] (list_to_set nodes))
           paths.
Proof.
  apply (path_strategy_reports_walks (SO := elements_order)
           (NX := degree_scores) Scenario.scenario1 Scenario.scenario1_query
           ["Attention"]).
  vm_compute. reflexivity.
Defined.
End PathStrategyExample.


(** * The whole query *)

Section ProcessQueryFacts.
Import DiGraph Walk Evidence LLMAnalyzer GraphQueryEngine PathInvariant.
Context {SO : SetOrder} {NX : NxCentrality}.
Implicit Types (g : DiGraph.t).

Lemma classify_range (query : string) :
  _classify_query query
  ∈ ["path"; "dependency"; "gap"; "impact"; "summary"; "find"; "related"].
Proof.
  unfold _classify_query. cbv zeta.
  destruct (List.find _ query_types) as [[qtype keywords]|] eqn:Hfind.
  - apply find_some in Hfind as [Hin _]. cbn in Hin.
    destruct Hin as [Hin|[Hin|[Hin|[Hin|[Hin|[Hin|[Hin|[]]]]]]]];
      injection Hin as <- _; set_solver.
  - set_solver.
Qed.

Lemma handle_dependency_query_total g query entities :
  closed g →
  ∃ deps nodes,
    _handle_dependency_query g query entities
    = Some (mkEvidence Score (Some "dependency") None (Some deps) None None
              None None None None (Some nodes) None (Some (length deps))).
Proof.
  intros Hc. unfold _handle_dependency_query.
  destruct (foldM_inv (λ _, True) (dep_node g)
              (take 3 (_find_nodes_by_entities g entities None)) ([], ∅) I)
    as (found & -> & _).
  { intros s x Hx%elem_of_take_elem%find_nodes_are_nodes _.
    destruct (dep_node_ok g s x Hc Hx) as (acc' & ? & _). by exists acc'. }
  cbn. by eexists _, _.
Qed.

Lemma handle_impact_query_total g query entities :
  closed g →
  ∃ affected nodes,
    _handle_impact_query g query entities
    = Some (mkEvidence Score (Some "impact") None None None (Some affected)
              None None None None (Some nodes) None (Some (length affected))).
Proof.
  intros Hc. unfold _handle_impact_query.
  destruct (foldM_inv (λ _, True) (impact_node g)
              (take 3 (_find_nodes_by_entities g entities None)) ([], ∅) I)
    as (found & -> & _).
  { intros s x Hx%elem_of_take_elem%find_nodes_are_nodes _.
    destruct (impact_node_ok g s x Hc Hx) as (acc' & ? & _). by exists acc'. }
  cbn. by eexists _, _.
Qed.

Lemma handle_summary_query_total g query entities :
  (∀ item, item ∈ take 10 (sorted_by_score_desc (degree_centrality g)) →
           item.1 ∈ node_ids g) →
  ∃ ev, _handle_summary_query g query entities = Some ev
        ∧ ev_type ev = Some "summary" ∧ ev_paths ev = None.
Proof.
  intros Hkeys. unfold _handle_summary_query.
  destruct (foldM_inv (λ _, True) (summary_turn g)
              (take 10 (sorted_by_score_desc (degree_centrality g))) (∅, []) I)
    as (found & -> & _).
  { intros s x Hx _. unfold summary_turn.
    destruct (proj2 (node_data_is_Some g x.1) (Hkeys x Hx)) as [data ->].
    cbn. by eexists. }
  cbn. by eexists.
Qed.

Lemma handle_find_query_total g query entities :
  ∃ ev, _handle_find_query g query entities = Some ev
        ∧ ev_type ev = Some "find" ∧ ev_paths ev = None.
Proof.
  unfold _handle_find_query.
  destruct (find_loop g (take 10 (_find_nodes_by_entities g entities None)) [])
    as (found & -> & _).
  { by intros n Hn%elem_of_take_elem%find_nodes_are_nodes. }
  cbn. by eexists.
Qed.

Lemma handle_related_query_total g query entities :
  ∃ ev, _handle_related_query g query entities = Some ev
        ∧ ev_type ev = Some "related" ∧ ev_paths ev = None.
Proof.
  unfold _handle_related_query.
  set (seeds := if nonempty _ then _ else _).
  destruct (neighborhood_subgraph_total g seeds 2) as [edges ->].
  cbn. by eexists.
Qed.

(** Over a well-formed graph every strategy returns, with the label it
    was chosen by and with paths that all have a step. *)
Lemma run_strategy_ok g (query : string) (entities : list string) :
  wf g = true →
  (_classify_query query = "summary" →
   ∀ item, item ∈ take 10 (sorted_by_score_desc (degree_centrality g)) →
           item.1 ∈ node_ids g) →
  ∃ ev, run_strategy g (_classify_query query) query entities = Some ev
        ∧ ev_type ev = Some (_classify_query query)
        ∧ ∀ p, p ∈ default [] (ev_paths ev) → pd_steps p ≠ [].
Proof.
  intros Hwf Hsum. pose proof Hwf as (_ & _ & Hc)%wf_spec.
  pose proof (classify_range query) as Hrange.
  unfold run_strategy.
  repeat (apply elem_of_cons in Hrange as [Hq|Hrange]; [rewrite Hq in *; cbn|]).
  - destruct (path_loop_ok g entities Hwf) as (found & Hfold & _ & Hall).
    destruct (handle_path_query_found g query entities found Hfold)
      as (X & _ & ->).
    eexists. split; [done|]. cbn. split; [done|].
    intros p Hp. rewrite Forall_forall in Hall.
    by destruct (Hall p Hp) as (a & b & _ & _ & _ & Hs & _).
  - destruct (handle_dependency_query_total g query entities Hc)
      as (deps & nodes & ->).
    eexists. split; [done|]. cbn. split; [done|]. by intros p ?%elem_of_nil.
  - rewrite handle_gap_query_spec. cbv zeta.
    eexists. split; [done|]. cbn. split; [done|]. by intros p ?%elem_of_nil.
  - destruct (handle_impact_query_total g query entities Hc)
      as (affected & nodes & ->).
    eexists. split; [done|]. cbn. split; [done|]. by intros p ?%elem_of_nil.
  - destruct (handle_summary_query_total g query entities (Hsum eq_refl))
      as (ev & -> & Ht & Hp).
    exists ev. rewrite Hp. split_and!; [done..|]. by intros p ?%elem_of_nil.
  - destruct (handle_find_query_total g query entities) as (ev & -> & Ht & Hp).
    exists ev. rewrite Hp. split_and!; [done..|]. by intros p ?%elem_of_nil.
  - destruct (handle_related_query_total g query entities) as (ev & -> & Ht & Hp).
    exists ev. rewrite Hp. split_and!; [done..|]. by intros p ?%elem_of_nil.
  - by apply elem_of_nil in Hrange.
Qed.

(** X10.  Over a graph that satisfies the invariant, [process_query]
    returns a result for every query and every behaviour of the language
    model (for a query classified summary: provided the ten highest
    entries of the degree centrality are nodes of the graph).  The result
    repeats the query, carries the label of the classifier both as
    [query_type] and as the type of the evidence, and its highlighted
    nodes and paths are those of the evidence. *)
Theorem process_query_returns (g : DiGraph.t)
    (llm : string → nat → call_outcome) (query : string) :
  wf g = true →
  (_classify_query query = "summary" →
   ∀ item, item ∈ take 10 (sorted_by_score_desc (degree_centrality g)) →
           item.1 ∈ node_ids g) →
  ∃ r, process_query g llm query = Some r ∧
       qr_query r = query ∧
       qr_query_type r = _classify_query query ∧
       ev_type (qr_graph_evidence r) = Some (_classify_query query) ∧
       qr_highlighted_nodes r = default [] (ev_nodes (qr_graph_evidence r)) ∧
       qr_paths r = default [] (ev_paths (qr_graph_evidence r)).
Proof.
  intros Hwf Hsum. unfold process_query. cbv zeta.
  destruct (run_strategy_ok g query (_extract_entities g query) Hwf Hsum)
    as (ev & -> & Htype & Hsteps).
  cbn [mbind option_bind]. unfold _enhance_with_llm.
  destruct (_build_context_from_evidence ev) as [context|] eqn:Hctx.
  - cbn [mbind option_bind].
    destruct (llm _ _); cbn; eexists; (split; [done|]); cbn; done.
  - apply build_context_None in Hctx as (p & Hp%elem_of_take_elem & Hnil).
    by destruct (Hsteps p Hp).
Qed.
End ProcessQueryFacts.

Section ProcessQueryExample.
Import DiGraph Evidence LLMAnalyzer GraphQueryEngine.

(** A summary of the first scenario, asked of a collaborator whose call
    raises. *)
Lemma process_query_returns_witness :
  ∃ r, process_query (SO := elements_order) (NX := degree_scores)
         Scenario.scenario1 Scenario.raising_llm "Give me an overview" = Some r ∧
       qr_query r = "Give me an overview" ∧
       qr_query_type r = "summary".
Proof.
  destruct (process_query_returns (SO := elements_order) (NX := degree_scores)
              Scenario.scenario1 Scenario.raising_llm "Give me an overview")
    as (r & Hr & Hq & Ht & _).
  - vm_compute. reflexivity.
  - intros _ item Hin. vm_compute in Hin.
    apply elem_of_cons in Hin as [->|Hin]; [vm_compute; set_solver|].
    apply elem_of_cons in Hin as [->|Hin]; [vm_compute; set_solver|].
    by apply elem_of_nil in Hin.
  - exists r. split_and!; [done | done |]. rewrite Ht. vm_compute. reflexivity.
Defined.
End ProcessQueryExample.

(** * The classifier, the related strategy and the repository's analyzer *)

Section ClassifierMore.
Import GraphQueryEngine.

Lemma lower_char_idemp (c : ascii) :
  PyStr.lower_char (PyStr.lower_char c) = PyStr.lower_char c.
Proof. destruct c as [[] [] [] [] [] [] [] []]; reflexivity. Qed.

Lemma lower_idemp (s : string) : PyStr.lower (PyStr.lower s) = PyStr.lower s.
Proof.
  induction s as [|c s IH]; [done|]. cbn. by rewrite lower_char_idemp, IH.
Qed.

(** X11.  The classifier always answers with one of the seven labels and
    does not depend on the case of the query.  A query with a trigger of
    path is classified path whatever else it contains, and the label
    related is the answer exactly when no trigger of the six labels
    before it occurs: the triggers of related itself never decide. *)
Theorem classify_labels (query : string) :
  _classify_query query
  ∈ ["path"; "dependency"; "gap"; "impact"; "summary"; "find"; "related"] ∧
  _classify_query (PyStr.lower query) = _classify_query query ∧
  (any_keyword (PyStr.lower query) (triggers "path") = true →
   _classify_query query = "path") ∧
  (_classify_query query = "related" ↔
   ∀ entry, entry ∈ take 6 query_types →
            any_keyword (PyStr.lower query) entry.2 = false).
Proof.
  split_and!.
  - apply classify_range.
  - unfold _classify_query. by rewrite lower_idemp.
  - unfold _classify_query, query_types. cbv zeta. cbn [List.find snd].
    change ["how"; "implemented"; "realize"; "from paper to code"; "chain"]
      with (triggers "path").
    by intros ->.
  - unfold _classify_query, query_types. cbv zeta. cbn [List.find snd take].
    set (q := PyStr.lower query).
    destruct (any_keyword q ["how"; "implemented"; "realize"; "from paper to code"; "chain"])
      eqn:H1.
    { split; [done|]. intros H.
      specialize (H ("path", ["how"; "implemented"; "realize"; "from paper to code"; "chain"])
                    ltac:(set_solver)).
      cbn [snd] in H. congruence. }
    destruct (any_keyword q ["depends"; "requires"; "needs"; "prerequisite"; "based on"])
      eqn:H2.
    { split; [done|]. intros H.
      specialize (H ("dependency", ["depends"; "requires"; "needs"; "prerequisite"; "based on"])
                    ltac:(set_solver)).
      cbn [snd] in H. congruence. }
    destruct (any_keyword q ["missing"; "not implemented"; "gaps"; "lacking"; "unimplemented"])
      eqn:H3.
    { split; [done|]. intros H.
      specialize (H ("gap", ["missing"; "not implemented"; "gaps"; "lacking"; "unimplemented"])
                    ltac:(set_solver)).
      cbn [snd] in H. congruence. }
    destruct (any_keyword q ["affect"; "modify"; "change"; "impact"; "downstream"; "breaks"])
      eqn:H4.
    { split; [done|]. intros H.
      specialize (H ("impact", ["affect"; "modify"; "change"; "impact"; "downstream"; "breaks"])
                    ltac:(set_solver)).
      cbn [snd] in H. congruence. }
    destruct (any_keyword q ["summarize"; "overview"; "explain"; "architecture"; "structure"])
      eqn:H5.
    { split; [done|]. intros H.
      specialize (H ("summary", ["summarize"; "overview"; "explain"; "architecture"; "structure"])
                    ltac:(set_solver)).
      cbn [snd] in H. congruence. }
    destruct (any_keyword q ["where"; "locate"; "find"; "show me"; "which files"])
      eqn:H6.
    { split; [done|]. intros H.
      specialize (H ("find", ["where"; "locate"; "find"; "show me"; "which files"])
                    ltac:(set_solver)).
      cbn [snd] in H. congruence. }
    split.
    + intros _ entry Hin.
      repeat (apply elem_of_cons in Hin as [->|Hin]; [done|]).
      by apply elem_of_nil in Hin.
    + intros _.
      by destruct (any_keyword q ["related to"; "connected to";
                                  "associated with"; "linked"]).
Qed.
End ClassifierMore.

Section RelatedFacts.
Import DiGraph Evidence GraphQueryEngine.
Context {SO : SetOrder} {NX : NxCentrality}.
Implicit Types (g : DiGraph.t).

Lemma length_insert_desc {A} (x : A * nat) (l : list (A * nat)) :
  length (insert_desc x l) = S (length l).
Proof.
  induction l as [|y l IH]; [done|]. cbn [insert_desc].
  destruct (x.2 <? y.2)%nat; cbn [length]; by rewrite ?IH.
Qed.

Lemma length_sorted_desc {A} (l : list (A * nat)) :
  length (sorted_desc l) = length l.
Proof.
  unfold sorted_desc. induction l as [|x l IH]; [done|]. cbn [foldr length].
  by rewrite length_insert_desc, IH.
Qed.

Lemma hop_new_empty g : hop_new g ∅ = ∅.
Proof.
  apply set_eq. intros x. rewrite elem_of_hop_new. split.
  - by intros (n & ?%elem_of_empty & _).
  - by intros ?%elem_of_empty.
Qed.

Lemma expand_hops_empty g hops : expand_hops g hops ∅ = ∅.
Proof.
  induction hops as [|hops IH]; [done|]. cbn [expand_hops].
  rewrite hop_new_empty, union_empty_l_L. by case_match.
Qed.

Lemma set_iter_empty : set_iter (∅ : gset string) = [].
Proof.
  apply Permutation_nil_r. rewrite (set_iter_perm ∅). by rewrite elements_empty.
Qed.

(** The seeds of the related strategy. *)
Lemma related_seeds_nonempty g (found : list string) :
  g_nodes g ≠ [] →
  (if nonempty found then found
   else if nonempty (degree g) then (take 5 (sorted_desc (degree g))).*1
        else found) ≠ [].
Proof.
  intros Hg. destruct found as [|n found]; [|done]. cbn [nonempty].
  assert (length (degree g) = length (g_nodes g)) as Hlen.
  { unfold degree, node_ids. by rewrite !length_fmap. }
  destruct (degree g) as [|d ds] eqn:Hd.
  - destruct (g_nodes g); [done|]. cbn in Hlen. lia.
  - cbn [nonempty]. intros Hnil. apply (f_equal length) in Hnil.
    rewrite length_fmap, length_take, length_sorted_desc in Hnil.
    cbn in Hnil. lia.
Qed.

(** X12.  The related strategy always returns, and [count] is the number
    of its nodes.  Every node that matches an entity is among them; over a
    graph with at least one node the list is never empty (when nothing
    matches, the search starts from the nodes of highest degree), and over
    a graph without nodes it is empty, as is the list of edges. *)
Theorem related_query_returns_nodes (g : DiGraph.t) (query : string)
    (entities : list string) :
  ∃ ev nodes edges,
    _handle_related_query g query entities = Some ev ∧
    ev_type ev = Some "related" ∧
    ev_nodes ev = Some nodes ∧ ev_edges ev = Some edges ∧
    ev_count ev = Some (length nodes) ∧
    (∀ n, n ∈ _find_nodes_by_entities g entities None → n ∈ nodes) ∧
    (g_nodes g ≠ [] → nodes ≠ []) ∧
    (g_nodes g = [] → nodes = [] ∧ edges = []).
Proof.
  unfold _handle_related_query.
  set (found := _find_nodes_by_entities g entities None).
  set (seeds := if nonempty found then _ else _).
  destruct (neighborhood_subgraph_total g seeds 2) as [edges Hsub].
  rewrite Hsub. cbn [mbind option_bind sg_nodes sg_edges].
  eexists _, (set_iter (neighborhood_nodes g seeds 2)), edges.
  split; [done|]. cbn [ev_type ev_nodes ev_edges ev_count].
  assert (∀ n, n ∈ seeds → n ∈ set_iter (neighborhood_nodes g seeds 2)) as Hseeds.
  { intros n Hn. apply set_iter_elem. apply expand_hops_extends.
    by apply elem_of_list_to_set. }
  split_and!; [done..| | |].
  - intros n Hn. apply Hseeds. unfold seeds.
    destruct found; [by apply elem_of_nil in Hn | done].
  - intros Hg Hnil.
    pose proof (related_seeds_nonempty g found Hg) as Hne. fold seeds in Hne.
    destruct seeds as [|s seeds']; [done|].
    specialize (Hseeds s (list_elem_of_here _ _)). rewrite Hnil in Hseeds.
    by apply elem_of_nil in Hseeds.
  - intros Hg.
    assert (seeds = []) as Hs.
    { unfold seeds, found, _find_nodes_by_entities, degree, node_ids.
      by rewrite Hg. }
    split.
    + rewrite Hs. unfold neighborhood_nodes. cbn [list_to_set foldr].
      rewrite expand_hops_empty. apply set_iter_empty.
    + unfold _get_neighborhood_subgraph, edges_iter, node_ids in Hsub.
      rewrite Hg in Hsub. cbn in Hsub. by injection Hsub as <-.
Qed.
End RelatedFacts.

Section AnalyzerFacts.
Import DiGraph Evidence LLMAnalyzer GraphQueryEngine.
Context {SO : SetOrder} {NX : NxCentrality}.

(** X13.  With the repository's [LLMAnalyzer] as collaborator the answer
    of a query is what the API client returned, or, when the request of
    the client fails with a message, the text [Error calling LLM: ]
    followed by the message: the fallback sentence is not the answer of a
    failed request. *)
Theorem analyzer_error_is_the_answer (g : DiGraph.t)
    (client : string → nat → client_outcome) (query : string)
    (r : QueryResult) :
  process_query g (as_llm client) query = Some r →
  ∃ prompt,
    match client prompt 500 with
    | Completion content => qr_answer r = content
    | ClientError msg =>
        qr_answer r = Text ("Error calling LLM: " ++ msg) ∧
        qr_answer r ≠ Text (_generate_fallback_answer (qr_graph_evidence r))
    end.
Proof.
  unfold process_query. cbv zeta.
  destruct (run_strategy _ _ _ _) as [ev|]; [|done]. cbn [mbind option_bind].
  unfold _enhance_with_llm.
  destruct (_build_context_from_evidence ev) as [context|]; [|done].
  cbn [mbind option_bind]. unfold as_llm, _call_llm. intros [= <-].
  exists (prompt_of query ev context). cbn [qr_answer qr_graph_evidence].
  destruct (client _ _) as [content|msg]; [done|].
  split; [done|]. unfold _generate_fallback_answer. cbn. discriminate.
Qed.
End AnalyzerFacts.

Section AnalyzerExample.
Import DiGraph Evidence LLMAnalyzer GraphQueryEngine.

(** The first scenario with a client whose request fails. *)
Lemma analyzer_error_is_the_answer_witness :
  ∃ r, process_query (SO := elements_order) (NX := degree_scores)
         Scenario.scenario1 (as_llm Scenario.failing_client)
         Scenario.scenario1_query = Some r
       ∧ qr_answer r = Text "Error calling LLM: connection refused".
Proof.
  eexists. split; [vm_compute; reflexivity|].
  destruct (analyzer_error_is_the_answer (SO := elements_order)
              (NX := degree_scores) Scenario.scenario1
              Scenario.failing_client Scenario.scenario1_query _
              ltac:(vm_compute; reflexivity)) as [prompt Hp].
  cbn in Hp. destruct Hp as [Hp _]. exact Hp.
Defined.
End AnalyzerExample.

(** * What the builds leave in the graph *)

Section BuiltNodeFacts.
Import DiGraph GraphBuilder.
Implicit Types (g : DiGraph.t) (n u v : string).

Lemma node_data_add_node g k attrs n :
  node_data (add_node g k attrs) n
  = if decide (k = n)
    then Some (update_node (default no_node_attrs (node_data g n)) attrs)
    else node_data g n.
Proof.
  unfold node_data, add_node. cbn [g_nodes]. destruct (decide (k = n)) as [->|Hne].
  - rewrite alist_get_upsert_eq. by destruct (alist_get n (g_nodes g)).
  - by apply alist_get_upsert_ne.
Qed.

(** The records of [xs] about the key [n], in order. *)
Lemma filter_snoc {A} (f : A → bool) (xs : list A) (x : A) :
  List.filter f (xs ++ [x]) = (List.filter f xs ++ if f x then [x] else [])%list.
Proof. rewrite List.filter_app. cbn. by destruct (f x). Qed.

(** A loop of [add_node] whose attribute dictionaries all have the same
    keys: the last record about a node decides its attributes. *)
Lemma foldl_add_node_data {A} (key : A → string) (attrs : A → NodeData) xs g n :
  (∀ old a b, update_node (update_node old (attrs a)) (attrs b)
              = update_node old (attrs b)) →
  node_data (foldl (λ g x, add_node g (key x) (attrs x)) g xs) n
  = match last (List.filter (λ x, bool_decide (key x = n)) xs) with
    | Some x => Some (update_node (default no_node_attrs (node_data g n)) (attrs x))
    | None => node_data g n
    end.
Proof.
  intros Hshape. induction xs as [|x xs IH] using rev_ind; [done|].
  rewrite foldl_app. cbn [foldl]. rewrite node_data_add_node, filter_snoc.
  destruct (decide (key x = n)) as [Hk|Hk].
  - rewrite (bool_decide_eq_true_2 _ Hk), last_snoc, IH.
    destruct (last _) as [y|]; [|done]. cbn. by rewrite Hshape.
  - rewrite (bool_decide_eq_false_2 _ Hk), app_nil_r. apply IH.
Qed.

Lemma feature_attrs_shape old a b :
  update_node (update_node old (feature_attrs a)) (feature_attrs b)
  = update_node old (feature_attrs b).
Proof. done. Qed.

Lemma paper_attrs_shape old a b :
  update_node (update_node old (paper_attrs a)) (paper_attrs b)
  = update_node old (paper_attrs b).
Proof. done. Qed.

Lemma code_attrs_shape old a b :
  update_node (update_node old (code_attrs a)) (code_attrs b)
  = update_node old (code_attrs b).
Proof. done. Qed.

(** A loop of guarded [add_edge] over a graph whose edges all come from
    the loop: the last record about an edge decides its attributes. *)
Lemma foldl_edges_data (attrs : EdgeRec → EdgeData) es g u v :
  (∀ old a b, update_edge (update_edge old (attrs a)) (attrs b)
              = update_edge old (attrs b)) →
  (∀ a b, update_edge (attrs a) (attrs b) = attrs b) →
  edge_data (foldl (add_edge_if_known attrs) g es) u v
  = if has_node g u && has_node g v then
      match last (List.filter (λ e, bool_decide (edge_key e = (u, v))) es) with
      | Some e => Some (match edge_data g u v with
                        | Some old => update_edge old (attrs e)
                        | None => attrs e
                        end)
      | None => edge_data g u v
      end
    else edge_data g u v.
Proof.
  intros Hshape Hfresh. induction es as [|e es IH] using rev_ind.
  - cbn. by destruct (_ && _).
  - rewrite foldl_app. cbn [foldl].
    rewrite edge_data_add_edge_if_known, filter_snoc.
    assert (∀ m, has_node (foldl (add_edge_if_known attrs) g es) m = has_node g m)
      as Hsame.
    { intros m. unfold has_node. by rewrite foldl_edges_nodes. }
    rewrite !Hsame.
    destruct (bool_decide ((u, v) = edge_key e)) eqn:Hk.
    + apply bool_decide_eq_true in Hk. unfold edge_key in Hk.
      injection Hk as -> ->.
      rewrite (bool_decide_eq_true_2 (edge_key e = _)) by done.
      rewrite last_snoc, andb_true_r, IH.
      destruct (has_node g (r_source e) && has_node g (r_target e)); [|done].
      destruct (last _) as [e'|]; [|done].
      destruct (edge_data g (r_source e) (r_target e));
        by rewrite ?Hshape, ?Hfresh.
    + apply bool_decide_eq_false in Hk.
      rewrite (bool_decide_eq_false_2 (edge_key e = _)) by congruence.
      by rewrite andb_false_r, app_nil_r, IH.
Qed.

Section Built.
Context {P : Type}.
Implicit Types (self : GraphBuilder.t P).

Lemma build_graph_node_data self (fd : FeatureData) (parsed : P) n :
  node_data (graph (build_graph self fd parsed)) n
  = feature_attrs
      <$> last (List.filter (λ f, bool_decide (f_id f = n)) (features fd)).
Proof.
  rewrite build_graph_eq. unfold node_data, add_relationship.
  rewrite foldl_edges_nodes. fold (node_data (foldl add_feature empty (features fd)) n).
  unfold add_feature.
  rewrite (foldl_add_node_data f_id feature_attrs) by apply feature_attrs_shape.
  by destruct (last _).
Qed.

(** X14.  After [build_graph] the builder holds the parsed data of the
    call, and for both nodes and edges the last record decides: the
    attributes of a node are those of the last feature with its id (no
    node if there is none), and the attributes of an edge are those of
    the last relationship from its source to its target, with the
    defaults of the missing keys, provided both ends are ids of
    features (no edge otherwise). *)
Theorem build_graph_last_record_wins self (fd : FeatureData) (parsed : P) :
  parsed_data (build_graph self fd parsed) = Some parsed ∧
  (∀ n, node_data (graph (build_graph self fd parsed)) n
        = feature_attrs
            <$> last (List.filter (λ f, bool_decide (f_id f = n)) (features fd))) ∧
  (∀ u v, edge_data (graph (build_graph self fd parsed)) u v
          = if bool_decide (u ∈ f_id <$> features fd) &&
               bool_decide (v ∈ f_id <$> features fd)
            then rel_attrs
                   <$> last (List.filter (λ r, bool_decide (edge_key r = (u, v)))
                                         (relationships fd))
            else None).
Proof.
  split; [done|]. split; [apply build_graph_node_data|].
  intros u v. rewrite build_graph_eq. unfold add_relationship.
  rewrite foldl_edges_data by done.
  assert (∀ m, has_node (foldl add_feature empty (features fd)) m
               = bool_decide (m ∈ f_id <$> features fd)) as Hhas.
  { intros m. symmetry. unfold add_feature.
    destruct (has_node _ m) eqn:Hm.
    - apply bool_decide_eq_true_2.
      apply has_node_spec, (foldl_add_node_ids f_id feature_attrs) in Hm
        as [?%elem_of_nil|?]; done.
    - apply bool_decide_eq_false_2. intros Hin.
      apply not_true_iff_false in Hm. apply Hm, has_node_spec.
      apply (foldl_add_node_ids f_id feature_attrs). by right. }
  rewrite !Hhas.
  assert (edge_data (foldl add_feature empty (features fd)) u v = None) as ->.
  { unfold edge_data, add_feature.
    by rewrite (foldl_add_node_edges f_id feature_attrs). }
  destruct (_ && _); [|done]. by destruct (last _).
Qed.

Lemma unified_node_data_eq self (pn : list PaperNode) (cn : list CodeNode)
    (ce : list EdgeRec) (pe : option (list EdgeRec)) n :
  node_data (graph (build_unified_graph self pn cn ce pe)) n
  = node_data (foldl add_code_node (foldl add_paper_node empty pn) cn) n.
Proof.
  rewrite build_unified_graph_eq.
  unfold node_data, add_cross_edge, add_paper_edge.
  by rewrite !foldl_edges_nodes.
Qed.

Lemma unified_node_ids self (pn : list PaperNode) (cn : list CodeNode)
    (ce : list EdgeRec) (pe : option (list EdgeRec)) n :
  n ∈ node_ids (graph (build_unified_graph self pn cn ce pe))
  ↔ n ∈ p_id <$> pn ∨ n ∈ c_id <$> cn.
Proof.
  rewrite <- node_data_is_Some, unified_node_data_eq, node_data_is_Some.
  unfold add_code_node, add_paper_node.
  rewrite (foldl_add_node_ids c_id code_attrs),
          (foldl_add_node_ids p_id paper_attrs).
  split; [intros [[?%elem_of_nil|?]|?]; auto; done | intros [?|?]; auto].
Qed.

Lemma unified_node_data self (pn : list PaperNode) (cn : list CodeNode)
    (ce : list EdgeRec) (pe : option (list EdgeRec)) n data :
  node_data (graph (build_unified_graph self pn cn ce pe)) n = Some data →
  n_modality data
  = Some (if bool_decide (n ∈ c_id <$> cn) then "code" else "paper") ∧
  is_Some (n_name data) ∧ is_Some (n_description data) ∧
  n_full_content data
  = (λ p, default "" (p_full_content p))
      <$> last (List.filter (λ p, bool_decide (p_id p = n)) pn).
Proof.
  rewrite unified_node_data_eq. unfold add_code_node, add_paper_node.
  rewrite (foldl_add_node_data c_id code_attrs) by apply code_attrs_shape.
  rewrite (foldl_add_node_data p_id paper_attrs) by apply paper_attrs_shape.
  assert (last (List.filter (λ c, bool_decide (c_id c = n)) cn) = None
          ↔ n ∉ c_id <$> cn) as Hlast.
  { rewrite last_None. split.
    - intros Hnil (c & -> & Hc)%list_elem_of_fmap.
      assert (c ∈ List.filter (λ c0, bool_decide (c_id c0 = c_id c)) cn) as Hin.
      { apply list_elem_of_In, filter_In. split; [by apply list_elem_of_In|].
        by apply bool_decide_eq_true. }
      rewrite Hnil in Hin. by apply elem_of_nil in Hin.
    - intros Hn. destruct (List.filter _ cn) as [|c l] eqn:Hf; [done|].
      assert (c ∈ List.filter (λ c0, bool_decide (c_id c0 = n)) cn) as Hin
        by (rewrite Hf; left).
      apply list_elem_of_In, filter_In in Hin as [Hin%list_elem_of_In Hc].
      apply bool_decide_eq_true in Hc. destruct Hn.
      apply list_elem_of_fmap. by exists c. }
  destruct (last (List.filter _ cn)) as [c|] eqn:Hc.
  + assert (n ∈ c_id <$> cn) as Hin.
    { destruct (decide (n ∈ c_id <$> cn)) as [|Hn]; [done|].
      apply Hlast in Hn. done. }
    rewrite (bool_decide_eq_true_2 _ Hin). intros [= <-].
    destruct (last (List.filter _ pn)) as [p|]; cbn; by eauto.
  + rewrite (bool_decide_eq_false_2 _ (proj1 Hlast eq_refl)).
    destruct (last (List.filter _ pn)) as [p|]; cbn; [|done].
    intros [= <-]. cbn. by eauto.
Qed.

(** X15.  After [build_unified_graph] the nodes are the ids of the
    paper and of the code records.  A node whose id is the id of a code
    record has the modality code, also when a paper record has the same
    id, and every other node the modality paper; every node has a name
    and a description; and [full_content] is that of the last paper
    record with the id, being absent only when there is none. *)
Theorem unified_nodes_modality self (pn : list PaperNode) (cn : list CodeNode)
    (ce : list EdgeRec) (pe : option (list EdgeRec)) :
  (∀ n, n ∈ node_ids (graph (build_unified_graph self pn cn ce pe))
        ↔ n ∈ p_id <$> pn ∨ n ∈ c_id <$> cn) ∧
  ∀ n data,
    node_data (graph (build_unified_graph self pn cn ce pe)) n = Some data →
    n_modality data
    = Some (if bool_decide (n ∈ c_id <$> cn) then "code" else "paper") ∧
    is_Some (n_name data) ∧ is_Some (n_description data) ∧
    n_full_content data
    = (λ p, default "" (p_full_content p))
        <$> last (List.filter (λ p, bool_decide (p_id p = n)) pn).
Proof.
  split; [apply unified_node_ids | apply unified_node_data].
Qed.
End Built.
End BuiltNodeFacts.

(** * The read operations of the builder *)

Section DetailFacts.
Import DiGraph GraphBuilder BuilderQueries.
Implicit Types (self : GraphBuilder.t Parsed) (files : list FileRec).

Lemma find_in_functions_Some path name funcs info :
  find_in_functions path name funcs = Some info →
  ∃ func, func ∈ funcs ∧ fn_name func = name ∧
          info = mkFunctionInfo name path (default "" (fn_code func))
                                (default 0%Z (fn_lineno func))
                                (default [] (fn_args func)).
Proof.
  induction funcs as [|func funcs IH]; [done|]. cbn [find_in_functions].
  case_bool_decide as Hname.
  - intros [= <-]. exists func. rewrite Hname. split_and!; [left | done | done].
  - intros (f & Hf & ?)%IH. exists f. split; [by right | done].
Qed.

Lemma find_in_functions_None path name funcs :
  find_in_functions path name funcs = None ↔
  ∀ func, func ∈ funcs → fn_name func ≠ name.
Proof.
  induction funcs as [|func funcs IH]; cbn [find_in_functions].
  - split; [by intros _ f ?%elem_of_nil | done].
  - case_bool_decide as Hname.
    + split; [done|]. intros H. destruct (H func); [left | done].
    + rewrite IH. split.
      * intros H f [->|Hf]%elem_of_cons; [done | by apply H].
      * intros H f Hf. apply H. by right.
Qed.

Lemma find_in_files_Some name files info :
  find_in_files name files = Some info →
  ∃ file func, file ∈ files ∧ func ∈ fl_functions file ∧ fn_name func = name ∧
               info = mkFunctionInfo name (fl_path file)
                                     (default "" (fn_code func))
                                     (default 0%Z (fn_lineno func))
                                     (default [] (fn_args func)).
Proof.
  induction files as [|file files IH]; [done|]. cbn [find_in_files].
  destruct (find_in_functions _ _ _) as [i|] eqn:Hf.
  - intros [= <-]. apply find_in_functions_Some in Hf as (func & ? & ? & ?).
    exists file, func. split_and!; [left | done..].
  - intros (f & func & ? & ?)%IH. exists f, func. split; [by right | done].
Qed.

Lemma find_in_files_None name files :
  find_in_files name files = None ↔
  ∀ file func, file ∈ files → func ∈ fl_functions file → fn_name func ≠ name.
Proof.
  induction files as [|file files IH]; cbn [find_in_files].
  - split; [by intros _ f func ?%elem_of_nil | done].
  - destruct (find_in_functions _ _ _) as [i|] eqn:Hf.
    + split; [done|]. intros H.
      apply find_in_functions_Some in Hf as (func & Hin & Hname & _).
      destruct (H file func); [left | done | done].
    + rewrite IH. rewrite find_in_functions_None in Hf. split.
      * intros H f func [->|Hin]%elem_of_cons; [by apply Hf | by apply H].
      * intros H f func Hin. apply H. by right.
Qed.

(** X16.  The lookup of a function in the parsed data returns a record
    only for a function of that name in some parsed file, with the path of
    the file and the defaults of the missing keys; it returns [None]
    exactly when the builder holds no parsed data or no function of any
    file has the name. *)
Theorem find_function_spec self (func_name : string) :
  (∀ info, _find_function_in_parsed_data self func_name = Some info →
     fi_name info = func_name ∧
     ∃ parsed file func,
       parsed_data self = Some parsed ∧ file ∈ ps_files parsed ∧
       func ∈ fl_functions file ∧ fn_name func = func_name ∧
       fi_file info = fl_path file ∧
       fi_code info = default "" (fn_code func) ∧
       fi_lineno info = default 0%Z (fn_lineno func) ∧
       fi_args info = default [] (fn_args func)) ∧
  (_find_function_in_parsed_data self func_name = None ↔
   ∀ parsed file func,
     parsed_data self = Some parsed → file ∈ ps_files parsed →
     func ∈ fl_functions file → fn_name func ≠ func_name).
Proof.
  unfold _find_function_in_parsed_data. split.
  - intros info. destruct (parsed_data self) as [parsed|]; [|done].
    intros (file & func & ? & ? & ? & ->)%find_in_files_Some. cbn.
    split; [done|]. by exists parsed, file, func.
  - destruct (parsed_data self) as [parsed|].
    + rewrite find_in_files_None. split.
      * intros H p file func [= <-]. apply H.
      * intros H file func. by apply H.
    + split; [by intros _ p file func [=] | done].
Qed.

Lemma has_node_node_data (g : DiGraph.t) n :
  has_node g n = bool_decide (is_Some (node_data g n)).
Proof. done. Qed.

Lemma omap_all_None {A B} (f : A → option B) (l : list A) :
  (∀ x, f x = None) → omap f l = [].
Proof. intros H. induction l as [|x l IH]; [done|]. cbn. by rewrite H. Qed.

(** X17.  After [build_graph], [get_feature_details] never raises: it
    returns [None] for an id that no feature has, and for the id of a
    feature the name, description and files of the last feature with that
    id, the modality code, the type feature, an empty [full_content], and
    for its function names, in order, the records found in the parsed data
    of the same call (names that are not found are left out).  After
    [build_unified_graph] it never raises either: it returns [None]
    exactly for an id of no record, and otherwise a record with that id
    and the modality of the node, without functions for a paper node, and
    without functions at all when the builder held no parsed data before
    the call. *)
Theorem feature_details_after_build self (fd : FeatureData) (parsed : Parsed)
    (pn : list PaperNode) (cn : list CodeNode) (ce : list EdgeRec)
    (pe : option (list EdgeRec)) (feature_id : string) :
  get_feature_details (build_graph self fd parsed) feature_id
  = Some (match last (List.filter (λ f, bool_decide (f_id f = feature_id))
                                  (features fd)) with
          | None => None
          | Some f =>
              Some (mkFeatureDetails feature_id (f_name f) (f_description f)
                      (f_files f)
                      (omap (_find_function_in_parsed_data
                               (build_graph self fd parsed)) (f_functions f))
                      "code" "" "feature")
          end) ∧
  ∃ r, get_feature_details (build_unified_graph self pn cn ce pe) feature_id
       = Some r ∧
       (r = None ↔ (feature_id ∉ p_id <$> pn) ∧ (feature_id ∉ c_id <$> cn)) ∧
       ∀ d, r = Some d →
         fd_id d = feature_id ∧
         fd_modality d
         = (if bool_decide (feature_id ∈ c_id <$> cn) then "code" else "paper") ∧
         ((feature_id ∉ c_id <$> cn) → fd_functions d = []) ∧
         (parsed_data self = None → fd_functions d = []).
Proof.
  split.
  - unfold get_feature_details.
    rewrite has_node_node_data, build_graph_node_data.
    destruct (last _) as [f|]; [|done]. cbn.
    by rewrite bool_decide_eq_false_2.
  - unfold get_feature_details. rewrite has_node_node_data.
    pose proof (unified_node_ids self pn cn ce pe feature_id) as Hids.
    rewrite <- node_data_is_Some in Hids.
    destruct (node_data _ feature_id) as [data|] eqn:Hdata.
    + rewrite (bool_decide_eq_true_2 (is_Some _)) by by eexists.
      cbn [negb mbind option_bind].
      destruct (unified_node_data self pn cn ce pe feature_id data Hdata)
        as (Hm & [name Hname] & [description Hdescr] & _).
      rewrite Hname, Hdescr, Hm. cbn [mbind option_bind default].
      eexists. split; [done|]. split.
      * split; [done|]. intros [Hp Hc].
        destruct (proj1 Hids) as [?|?]; [by eexists | done | done].
      * intros d [= <-]. cbn. split_and!; [done | done | |].
        -- intros Hc. by rewrite (bool_decide_eq_false_2 _ Hc).
        -- intros Hnone. case_match; [|done]. cbn.
           apply omap_all_None. intros x.
           unfold _find_function_in_parsed_data. cbn. by rewrite Hnone.
    + rewrite (bool_decide_eq_false_2 (is_Some _)) by by intros [? ?].
      cbn. eexists. split; [done|]. split; [|done]. split; [|done].
      intros _. split; intros Hin.
      * by destruct (proj2 Hids (or_introl Hin)).
      * by destruct (proj2 Hids (or_intror Hin)).
Qed.
End DetailFacts.

Section CountFacts.
Import DiGraph GraphBuilder BuilderQueries.

Lemma upsert_count_sum (k : string) (l : list (string * nat)) :
  list_sum (alist_upsert k (λ c, (c + 1)%nat) (0 + 1)%nat l).*2
  = S (list_sum l.*2).
Proof.
  induction l as [|[k' c] l IH]; [done|]. cbn [alist_upsert].
  destruct (decide (k = k')); rewrite !fmap_cons; cbn [snd];
    unfold list_sum in *; cbn [fold_right]; [lia | rewrite IH; lia].
Qed.

Lemma upsert_count_positive (k : string) (l : list (string * nat)) :
  Forall (λ kc, (0 < kc.2)%nat) l →
  Forall (λ kc, (0 < kc.2)%nat)
         (alist_upsert k (λ c, (c + 1)%nat) (0 + 1)%nat l).
Proof.
  induction 1 as [|[k' c] l Hc Hl IH]; cbn [alist_upsert].
  - apply Forall_singleton. cbn. lia.
  - destruct (decide (k = k')); constructor; [cbn; lia | done | done | done].
Qed.

(** X18.  The dictionary of [_count_node_types] has each type once, with
    a node without type counted as [unknown]; the count of a type is the
    number of nodes of that type, a type without node is not in the
    dictionary (no count is zero), and the counts add up to the number of
    nodes. *)
Theorem count_node_types_spec {P : Type} (self : GraphBuilder.t P) :
  NoDup (_count_node_types self).*1 ∧
  (∀ t, default 0%nat (alist_get t (_count_node_types self))
        = length (List.filter
                    (λ nd : string * NodeData,
                       bool_decide (default "unknown" (n_type nd.2) = t))
                    (g_nodes (graph self)))) ∧
  Forall (λ kc, (0 < kc.2)%nat) (_count_node_types self) ∧
  list_sum (_count_node_types self).*2 = number_of_nodes (graph self).
Proof.
  unfold _count_node_types, number_of_nodes.
  induction (g_nodes (graph self)) as [|nd nodes IH] using rev_ind.
  - cbn. split_and!; [constructor | done | constructor | done].
  - destruct IH as (Hnd & Hget & Hpos & Hsum).
    rewrite foldl_app. cbn [foldl]. split_and!.
    + by apply alist_upsert_NoDup.
    + intros t. rewrite filter_snoc, length_app.
      destruct (decide (default "unknown" (n_type nd.2) = t)) as [Ht|Ht].
      * subst t. rewrite bool_decide_eq_true_2 by done.
        rewrite alist_get_upsert_eq.
        specialize (Hget (default "unknown" (n_type nd.2))). rewrite <- Hget.
        destruct (alist_get _ _); cbn; lia.
      * rewrite (bool_decide_eq_false_2 _ Ht), alist_get_upsert_ne by done.
        rewrite Hget. cbn. lia.
    + by apply upsert_count_positive.
    + rewrite upsert_count_sum, Hsum, length_app. cbn. lia.
Qed.
End CountFacts.

(** * The export for the front end *)

Section ExportFacts.
Import DiGraph GraphBuilder BuilderQueries.
Implicit Types (g : DiGraph.t) (column : list (string * NodeData))
               (pos : list (string * (Z * Z))).

Lemma dict_set_get_eq {V} (k : string) (v : V) (d : list (string * V)) :
  alist_get k (dict_set k v d) = Some v.
Proof.
  unfold dict_set. rewrite alist_get_upsert_eq. by destruct (alist_get k d).
Qed.

Lemma layout_column_other x idx column pos n :
  n ∉ column.*1 →
  alist_get n (layout_column x idx column pos) = alist_get n pos.
Proof.
  revert idx pos. induction column as [|nd column IH]; intros idx pos Hn; [done|].
  cbn [layout_column]. rewrite fmap_cons, not_elem_of_cons in Hn.
  destruct Hn as [Hne Hn]. rewrite IH by done.
  unfold dict_set. by apply alist_get_upsert_ne.
Qed.

Lemma layout_column_at x idx column pos j nd :
  NoDup column.*1 → column !! j = Some nd →
  alist_get nd.1 (layout_column x idx column pos)
  = Some (x, (Z.of_nat (idx + j) * 80)%Z).
Proof.
  revert idx pos j. induction column as [|nd0 column IH]; intros idx pos j Hnd Hj;
    [done|].
  rewrite fmap_cons in Hnd. apply NoDup_cons in Hnd as [Hfresh Hnd].
  cbn [layout_column]. destruct j as [|j].
  - injection Hj as <-. rewrite layout_column_other by done.
    rewrite dict_set_get_eq. by rewrite Nat.add_0_r.
  - rewrite (IH (S idx) _ j) by done. do 3 f_equal. lia.
Qed.

Lemma filter_keys_sublist (f : string * NodeData → bool) column :
  sublist (List.filter f column).*1 column.*1.
Proof.
  induction column as [|nd column IH]; [done|]. cbn.
  destruct (f nd); csimpl; [by apply sublist_skip | by apply sublist_cons].
Qed.

Lemma elem_of_filter_keys (f : string * NodeData → bool) column n :
  NoDup column.*1 →
  n ∈ (List.filter f column).*1 ↔ ∃ data, (n, data) ∈ column ∧ f (n, data) = true.
Proof.
  intros Hnd. rewrite list_elem_of_fmap. split.
  - intros ([m data] & -> & Hin). exists data.
    by apply list_elem_of_In, filter_In in Hin as [Hin%list_elem_of_In Hf].
  - intros (data & Hin & Hf). exists (n, data). split; [done|].
    apply list_elem_of_In, filter_In. split; [by apply list_elem_of_In | done].
Qed.

(** The place of a node in the layout: its column by modality, and its
    rank in the column. *)
Lemma positions_at g nd :
  NoDup (node_ids g) → nd ∈ g_nodes g →
  ∃ j, List.filter (λ nd', bool_decide (is_paper nd' = is_paper nd)) (g_nodes g) !! j
       = Some nd
       ∧ alist_get nd.1 (positions g)
         = Some (if is_paper nd then (-200)%Z else 200%Z, (Z.of_nat j * 80)%Z).
Proof.
  intros Hnd Hin. unfold positions.
  assert ((0 <? number_of_nodes g)%nat = true) as ->.
  { apply Nat.ltb_lt. unfold number_of_nodes. destruct (g_nodes g); [|cbn; lia].
    by apply elem_of_nil in Hin. }
  assert (nd ∈ List.filter (λ nd', bool_decide (is_paper nd' = is_paper nd))
                           (g_nodes g)) as Hcol.
  { apply list_elem_of_In, filter_In. split; [by apply list_elem_of_In|].
    by apply bool_decide_eq_true. }
  apply list_elem_of_lookup in Hcol as [j Hj]. exists j. split; [done|].
  assert (∀ f, NoDup (List.filter f (g_nodes g)).*1) as Hcols.
  { intros f. eapply sublist_NoDup; [|apply filter_keys_sublist]. done. }
  destruct (is_paper nd) eqn:Hp.
  - rewrite layout_column_other.
    + rewrite (List.filter_ext _ is_paper) in Hj.
      * by rewrite (layout_column_at _ 0 _ _ j nd).
      * intros nd'. destruct (is_paper nd'); by cbn.
    + rewrite elem_of_filter_keys by done. intros (data & Hin' & Hf).
      assert (nd = (nd.1, data)) as Heq.
      { destruct nd as [n d]. cbn in *. f_equal.
        apply (alist_elem_get _ _ _ Hnd) in Hin, Hin'. congruence. }
      rewrite <- Heq, Hp in Hf. done.
  - rewrite (List.filter_ext _ (λ nd', negb (is_paper nd'))) in Hj.
    + by rewrite (layout_column_at _ 0 _ _ j nd).
    + intros nd'. destruct (is_paper nd'); by cbn.
Qed.

(** Out-edges grouped by source are all the edges, once each. *)
Lemma filter_disjoint_app {A} (p q : A → bool) (l : list A) :
  (∀ x, p x = true → q x = true → False) →
  (List.filter p l ++ List.filter q l)%list ≡ₚ List.filter (λ x, p x || q x) l.
Proof.
  intros Hpq. induction l as [|x l IH]; [done|]. cbn.
  destruct (p x) eqn:Hp, (q x) eqn:Hq; cbn.
  - by destruct (Hpq x).
  - by rewrite IH.
  - rewrite <- IH. by rewrite Permutation_middle.
  - done.
Qed.

Lemma items_by_key {A} (key : A → string) (es : list A) (ns : list string) :
  NoDup ns →
  flat_map (λ n, List.filter (λ e, bool_decide (key e = n)) es) ns
  ≡ₚ List.filter (λ e, bool_decide (key e ∈ ns)) es.
Proof.
  induction 1 as [|n ns Hn Hnd IH]; cbn [flat_map].
  - induction es as [|e es IHes]; [done|]. cbn.
    rewrite bool_decide_eq_false_2 by apply not_elem_of_nil. done.
  - rewrite IH, filter_disjoint_app.
    + apply Permutation_refl'. apply List.filter_ext. intros e.
      apply eq_true_iff_eq. rewrite orb_true_iff, !bool_decide_eq_true.
      rewrite elem_of_cons. done.
    + intros e ->%bool_decide_eq_true ?%bool_decide_eq_true. done.
Qed.

Lemma edges_by_source (es : list ((string * string) * EdgeData)) (ns : list string) :
  NoDup ns →
  flat_map (λ n, List.filter (λ e, bool_decide (e.1.1 = n)) es) ns
  ≡ₚ List.filter (λ e, bool_decide (e.1.1 ∈ ns)) es.
Proof. apply (items_by_key (λ e, e.1.1)). Qed.

Lemma filter_all {A} (f : A → bool) (l : list A) :
  (∀ x, x ∈ l → f x = true) → List.filter f l = l.
Proof.
  induction l as [|x l IH]; intros Hall; [done|]. cbn.
  rewrite (Hall x) by left. f_equal. apply IH. intros y Hy. apply Hall. by right.
Qed.

Lemma edges_data_iter_perm g : wf g = true → edges_data_iter g ≡ₚ g_edges g.
Proof.
  intros (Hnd & _ & Hc)%wf_spec. unfold edges_data_iter.
  rewrite edges_by_source by done.
  apply Permutation_refl'. apply filter_all. intros [[u v] d] Hin.
  apply bool_decide_eq_true. cbn.
  destruct (Hc u v) as [Hu _]; [|done].
  apply list_elem_of_fmap. by exists (u, v, d).
Qed.

Lemma vd_modality_paper (nd : string * NodeData) :
  bool_decide (default "code" (n_modality nd.2) = "paper") = is_paper nd.
Proof.
  unfold is_paper. destruct (n_modality nd.2) as [m|]; cbn.
  - apply bool_decide_ext. split; [by intros -> | by intros [= ->]].
  - done.
Qed.

(** X19.  Over a graph that satisfies the invariant, the export lists the
    nodes in the order of the graph and every edge of the graph exactly
    once, so that both ends of every exported edge are exported nodes.
    Before the conversion to floating point, a paper node is placed at
    x = -200 and every other node at x = 200, and no two nodes are placed
    at the same point. *)
Theorem export_for_visualization_spec {P : Type} (self : GraphBuilder.t P) :
  wf (graph self) = true →
  vn_id <$> vz_nodes (export_for_visualization self) = node_ids (graph self) ∧
  ((λ e, (ve_source e, ve_target e)) <$> vz_edges (export_for_visualization self))
    ≡ₚ (g_edges (graph self)).*1 ∧
  (∀ e, e ∈ vz_edges (export_for_visualization self) →
        ve_source e ∈ vn_id <$> vz_nodes (export_for_visualization self) ∧
        ve_target e ∈ vn_id <$> vz_nodes (export_for_visualization self)) ∧
  (∀ a, a ∈ vz_nodes (export_for_visualization self) →
        (vn_position a).1
        = if bool_decide (vd_modality (vn_data a) = "paper")
          then (-200)%Z else 200%Z) ∧
  (∀ a b, a ∈ vz_nodes (export_for_visualization self) →
          b ∈ vz_nodes (export_for_visualization self) →
          vn_position a = vn_position b → vn_id a = vn_id b).
Proof.
  intros Hwf. pose proof Hwf as (Hnd & _ & Hc)%wf_spec.
  unfold export_for_visualization. cbv zeta. cbn [vz_nodes vz_edges].
  set (g := graph self) in *.
  assert (vn_id <$> (viz_node (positions g) <$> g_nodes g) = node_ids g) as Hids.
  { unfold node_ids. rewrite <- list_fmap_compose. by apply list_fmap_ext. }
  assert (((λ e, (ve_source e, ve_target e)) <$> (viz_edge <$> edges_data_iter g))
            ≡ₚ (g_edges g).*1) as Hedges.
  { rewrite <- list_fmap_compose, (edges_data_iter_perm g Hwf).
    apply Permutation_refl'. apply list_fmap_ext. by intros _ [[u v] d] _. }
  assert (∀ nd, nd ∈ g_nodes g →
            vn_position (viz_node (positions g) nd)
            = ((if is_paper nd then (-200)%Z else 200%Z),
               (vn_position (viz_node (positions g) nd)).2)
            ∧ ∃ j, List.filter (λ nd', bool_decide (is_paper nd' = is_paper nd))
                               (g_nodes g) !! j = Some nd
                   ∧ (vn_position (viz_node (positions g) nd)).2
                     = (Z.of_nat j * 80)%Z) as Hpos.
  { intros nd Hin. destruct (positions_at g nd Hnd Hin) as (j & Hj & Hget).
    cbn [viz_node vn_position]. rewrite Hget. cbn. split; [done|]. by exists j. }
  split_and!; [done | done | | |].
  - intros e He.
    assert ((ve_source e, ve_target e) ∈ (g_edges g).*1) as Hkey.
    { rewrite <- Hedges. apply list_elem_of_fmap. by exists e. }
    rewrite Hids. apply Hc, Hkey.
  - intros a (nd & -> & Hin)%list_elem_of_fmap.
    destruct (Hpos nd Hin) as [-> _]. cbn [fst].
    cbn [viz_node vn_data vd_modality]. by rewrite vd_modality_paper.
  - intros a b (nda & -> & Ha)%list_elem_of_fmap (ndb & -> & Hb)%list_elem_of_fmap.
    destruct (Hpos nda Ha) as [Hxa (ja & Hja & Hya)].
    destruct (Hpos ndb Hb) as [Hxb (jb & Hjb & Hyb)].
    intros Heq. rewrite Hxa, Hxb, Hya, Hyb in Heq.
    injection Heq as Hx Hy.
    assert (is_paper nda = is_paper ndb) as Hp.
    { destruct (is_paper nda), (is_paper ndb); done. }
    assert (ja = jb) as -> by lia.
    rewrite Hp, Hjb in Hja. by injection Hja as ->.
Qed.
End ExportFacts.

Section ExportExample.
Import DiGraph GraphBuilder BuilderQueries.

(** The export of the first scenario: two nodes, one on each side. *)
Lemma export_for_visualization_spec_witness :
  vn_id <$> vz_nodes (export_for_visualization Scenario.scenario1_builder)
  = ["paper_section_0"; "feature_0"]
  ∧ vn_position <$> vz_nodes (export_for_visualization Scenario.scenario1_builder)
    = [((-200)%Z, 0%Z); (200%Z, 0%Z)].
Proof.
  destruct (export_for_visualization_spec Scenario.scenario1_builder
              ltac:(vm_compute; reflexivity)) as (Hids & _).
  split; [rewrite Hids|]; vm_compute; reflexivity.
Defined.
End ExportExample.

(** * The first query engine *)

Section QueryEngineFacts.
Import DiGraph Walk Evidence GraphQueryEngine QueryEngine.
Context {SO : SetOrder}.
Implicit Types (g : DiGraph.t).

Lemma find_node_by_name_Some g name node :
  _find_node_by_name g name = Some node →
  ∃ data, (node, data) ∈ g_nodes g ∧
          PyStr.lower (default "" (n_name data)) = PyStr.lower name.
Proof.
  unfold _find_node_by_name. cbv zeta.
  destruct (List.find _ (g_nodes g)) as [[n data]|] eqn:Hfind; [|done].
  cbn. intros [= <-]. apply find_some in Hfind as [Hin%list_elem_of_In Heq].
  apply bool_decide_eq_true in Heq. by exists data.
Qed.

Lemma find_node_by_name_None g name :
  _find_node_by_name g name = None ↔
  ∀ node data, (node, data) ∈ g_nodes g →
               PyStr.lower (default "" (n_name data)) ≠ PyStr.lower name.
Proof.
  unfold _find_node_by_name. cbv zeta. split.
  - destruct (List.find _ (g_nodes g)) eqn:Hfind; [done|]. intros _ node data Hin.
    apply list_elem_of_In in Hin.
    apply (find_none _ _ Hfind (node, data)) in Hin.
    by apply bool_decide_eq_false in Hin.
  - intros Hall. induction (g_nodes g) as [|[node data] l IH]; [done|]. cbn.
    rewrite bool_decide_eq_false_2 by (apply (Hall node data); left).
    apply IH. intros n d Hin. apply (Hall n d). by right.
Qed.

(** X20.  [find_path] never raises, on any graph.  It returns the empty
    list when no node has the source name or none has the target name
    (names are compared in lower case, a missing name being the empty
    string), and every non-empty list it returns is a walk of the graph
    from a node with the source name to a node with the target name. *)
Theorem find_path_returns_walk (g : DiGraph.t) (source target : string) :
  ∃ path,
    find_path g source target = Some path ∧
    (∀ name, name = source ∨ name = target →
       (∀ node data, (node, data) ∈ g_nodes g →
                     PyStr.lower (default "" (n_name data)) ≠ PyStr.lower name) →
       path = []) ∧
    (path ≠ [] →
     ∃ a b da db,
       (a, da) ∈ g_nodes g ∧ (b, db) ∈ g_nodes g ∧
       PyStr.lower (default "" (n_name da)) = PyStr.lower source ∧
       PyStr.lower (default "" (n_name db)) = PyStr.lower target ∧
       walk_from_to g path a b).
Proof.
  unfold find_path.
  destruct (_find_node_by_name g source) as [a|] eqn:Ha;
    [|exists []; split_and!; done].
  destruct (_find_node_by_name g target) as [b|] eqn:Hb;
    [|exists []; split_and!; done].
  destruct (PyStr.truthy a && PyStr.truthy b); [|exists []; split_and!; done].
  destruct (find_node_by_name_Some g source a Ha) as (da & Hda & Hna).
  destruct (find_node_by_name_Some g target b Hb) as (db & Hdb & Hnb).
  assert (has_node g a = true) as ->.
  { apply has_node_spec, list_elem_of_fmap. by exists (a, da). }
  assert (has_node g b = true) as ->.
  { apply has_node_spec, list_elem_of_fmap. by exists (b, db). }
  cbn [andb]. eexists. split; [done|]. split.
  - intros name [->| ->] Hnone%find_node_by_name_None; congruence.
  - destruct (shortest_path g a b) as [path|] eqn:Hsp; [|done]. cbn.
    intros _. apply shortest_path_walk in Hsp as [Hwalk _].
    by exists a, b, da, db.
Qed.

Lemma elem_of_insert_desc {A} (x y : A * nat) (l : list (A * nat)) :
  y ∈ insert_desc x l ↔ y = x ∨ y ∈ l.
Proof.
  induction l as [|z l IH]; cbn [insert_desc].
  - rewrite list_elem_of_singleton, elem_of_nil. tauto.
  - destruct (x.2 <? z.2)%nat; rewrite !elem_of_cons, ?IH; tauto.
Qed.

Lemma elem_of_sorted_desc {A} (y : A * nat) (l : list (A * nat)) :
  y ∈ sorted_desc l ↔ y ∈ l.
Proof.
  unfold sorted_desc. induction l as [|x l IH]; [done|]. cbn [foldr].
  by rewrite elem_of_insert_desc, elem_of_cons, IH.
Qed.

Lemma relevant_nodes_are_nodes g entities n :
  n ∈ relevant_nodes g entities → n ∈ node_ids g.
Proof.
  unfold relevant_nodes. cbv zeta.
  assert (n ∈ matching_nodes g entities → n ∈ node_ids g) as Hm.
  { intros ([k data] & Hin & Hsome)%list_elem_of_omap. cbn in Hsome.
    destruct (existsb _ entities); [|done]. simplify_eq.
    apply list_elem_of_fmap. by exists (n, data). }
  destruct (_ && _); [|done].
  intros ([k d] & -> & Hin%elem_of_take_elem)%list_elem_of_fmap.
  apply (proj1 (elem_of_sorted_desc _ _)) in Hin. unfold degree in Hin. apply list_elem_of_fmap in Hin as (m & [= -> ->] & Hin).
  done.
Qed.

Lemma relevant_nodes_nonempty g entities :
  g_nodes g ≠ [] → relevant_nodes g entities ≠ [].
Proof.
  intros Hg. unfold relevant_nodes. cbv zeta.
  destruct (matching_nodes g entities) as [|m ms]; [|done]. cbn [nonempty negb andb].
  assert ((0 <? number_of_nodes g)%nat = true) as ->.
  { apply Nat.ltb_lt. unfold number_of_nodes. destruct (g_nodes g); [done|cbn; lia]. }
  intros Hnil. apply (f_equal length) in Hnil.
  rewrite length_fmap, length_take, length_sorted_desc in Hnil.
  unfold degree, node_ids in Hnil. rewrite !length_fmap in Hnil.
  destruct (g_nodes g); [done|]. cbn in Hnil. lia.
Qed.

(** The 1-hop loop over nodes of the graph. *)
Lemma add_neighbours_loop g (l : list string) (acc : gset string) :
  (∀ m, m ∈ l → m ∈ node_ids g) →
  ∃ X : gset string,
    foldM (add_neighbours g) acc l = Some X ∧
    ∀ n, n ∈ X ↔ n ∈ acc ∨ ∃ m, m ∈ l ∧ adjacent g m n.
Proof.
  revert acc. induction l as [|m l IH]; intros acc Hl.
  - exists acc. split; [done|]. intros n. split; [by left|].
    intros [?|(m & ?%elem_of_nil & _)]; done.
  - cbn [foldM]. unfold add_neighbours at 1.
    rewrite successors_node, predecessors_node by (apply Hl; left).
    cbn [mbind option_bind].
    destruct (IH (acc ∪ list_to_set (succ_list g m) ∪ list_to_set (pred_list g m)))
      as (X & -> & HX).
    { intros k Hk. apply Hl. by right. }
    exists X. split; [done|]. intros n. rewrite HX.
    rewrite !elem_of_union, !elem_of_list_to_set. unfold adjacent. split.
    + intros [[[?|?]|?]|(k & Hk & Hadj)].
      * by left.
      * right. exists m. split; [left | by left].
      * right. exists m. split; [left | by right].
      * right. exists k. split; [by right | done].
    + intros [?|(k & [->|Hk]%elem_of_cons & Hadj)].
      * by left; left; left.
      * left. destruct Hadj; [left; by right | by right].
      * right. by exists k.
Qed.

(** The node loop over a list of nodes of the graph. *)
Lemma sub_nodes_loop g (l : list string) (acc : list SubNode) :
  (∀ n, n ∈ l → n ∈ node_ids g) →
  ∃ found,
    foldM (λ nodes node,
             if has_node g node then
               data ← node_data g node;
               Some (nodes ++ [mkSubNode node data])%list
             else Some nodes) acc l = Some (acc ++ found)%list
    ∧ sn_id <$> found = l
    ∧ ∀ n, n ∈ found → node_data g (sn_id n) = Some (sn_data n).
Proof.
  revert acc. induction l as [|x l IH]; intros acc Hl.
  - exists []. rewrite app_nil_r. split_and!; [done | done |].
    by intros n ?%elem_of_nil.
  - cbn [foldM].
    assert (x ∈ node_ids g) as Hx by (apply Hl; left).
    rewrite (proj2 (has_node_spec g x) Hx).
    destruct (proj2 (node_data_is_Some g x) Hx) as [data Hdata].
    rewrite Hdata. cbn [mbind option_bind].
    destruct (IH (acc ++ [mkSubNode x data])%list) as (found & -> & Hids & Hdat).
    { intros n Hn. apply Hl. by right. }
    exists (mkSubNode x data :: found). rewrite <- app_assoc. cbn.
    split_and!; [done | by rewrite Hids |].
    intros n [->|Hn]%elem_of_cons; [done | by apply Hdat].
Qed.

(** X21.  Over a graph that satisfies the invariant, the search for the
    relevant subgraph always returns.  With [X] the set of the relevant
    nodes and their successors and predecessors, the node list holds the
    first twenty members of [X] as Python lists the set, each with its
    attributes, and is not empty when the graph has a node; the edge list
    is not cut: it holds exactly the edges of the graph with both ends in
    [X], so an edge may name a node that is not in the node list. *)
Theorem relevant_subgraph_spec (g : DiGraph.t) (entities : list string)
    (scope : string) :
  wf g = true →
  ∃ (sub : RelevantSubgraph) (X : gset string),
    _find_relevant_subgraph g entities scope = Some sub ∧
    (∀ n, n ∈ X ↔ n ∈ relevant_nodes g entities
                  ∨ ∃ m, m ∈ relevant_nodes g entities ∧ adjacent g m n) ∧
    sn_id <$> rs_nodes sub = take 20 (set_iter X) ∧
    _get_highlighted_nodes sub = take 20 (set_iter X) ∧
    (∀ n, n ∈ rs_nodes sub → node_data g (sn_id n) = Some (sn_data n)) ∧
    (g_nodes g ≠ [] → rs_nodes sub ≠ []) ∧
    ∀ e, e ∈ rs_edges sub ↔
      se_source e ∈ X ∧ se_target e ∈ X ∧
      ∃ edge, edge_data g (se_source e) (se_target e) = Some edge
              ∧ se_relation e = default "" (e_relation edge).
Proof.
  intros (_ & _ & Hc)%wf_spec. unfold _find_relevant_subgraph. cbv zeta.
  destruct (add_neighbours_loop g (relevant_nodes g entities)
              (list_to_set (relevant_nodes g entities)))
    as (X & -> & HX).
  { apply relevant_nodes_are_nodes. }
  cbn [mbind option_bind].
  assert (∀ n, n ∈ X ↔ n ∈ relevant_nodes g entities
                       ∨ ∃ m, m ∈ relevant_nodes g entities ∧ adjacent g m n) as HX'.
  { intros n. by rewrite HX, elem_of_list_to_set. }
  assert (∀ n, n ∈ X → n ∈ node_ids g) as Hnodes.
  { intros n [Hn|(m & Hm & [Hs|Hp])]%HX'.
    - by apply relevant_nodes_are_nodes in Hn.
    - by destruct (closed_succ g m n Hc Hs) as (_ & _ & _ & ?).
    - by destruct (closed_pred g n m Hc Hp) as (_ & _ & _ & ?). }
  destruct (sub_nodes_loop g (take 20 (set_iter X)) []) as (nodes & -> & Hids & Hdat).
  { intros n Hn%elem_of_take_elem%set_iter_elem. by apply Hnodes. }
  cbn [mbind option_bind app].
  destruct (induced_edges_total g X []) as [edges Hedges].
  rewrite Hedges. cbn [mbind option_bind].
  exists (mkRelevant nodes edges), X. cbn [rs_nodes rs_edges].
  split_and!; [done | done | done | done | done | |].
  - intros Hg Hnil. rewrite Hnil in Hids. cbn in Hids.
    pose proof (relevant_nodes_nonempty g entities Hg) as Hne.
    destruct (relevant_nodes g entities) as [|m ms] eqn:Hrel; [done|].
    assert (m ∈ set_iter X) as Hm.
    { apply set_iter_elem, HX'. left. left. }
    destruct (set_iter X); [by apply elem_of_nil in Hm | done].
  - by apply (induced_edges_spec g X edges Hc).
Qed.
End QueryEngineFacts.

Section QueryEngineExample.
Import DiGraph Walk Evidence GraphQueryEngine QueryEngine.

(** The chain, asked about its middle node. *)
Lemma relevant_subgraph_spec_witness :
  ∃ (sub : RelevantSubgraph) (X : gset string),
    _find_relevant_subgraph (SO := elements_order) Scenario.chain ["y"] "global"
    = Some sub ∧
    (∀ n, n ∈ X ↔ n ∈ relevant_nodes Scenario.chain ["y"]
                  ∨ ∃ m, m ∈ relevant_nodes Scenario.chain ["y"]
                         ∧ adjacent Scenario.chain m n) ∧
    sn_id <$> rs_nodes sub = take 20 (set_iter (SetOrder := elements_order) X).
Proof.
  destruct (relevant_subgraph_spec (SO := elements_order) Scenario.chain ["y"]
              "global" ltac:(vm_compute; reflexivity))
    as (sub & X & H1 & H2 & H3 & _).
  by exists sub, X.
Defined.
End QueryEngineExample.

(** * The find strategy *)

Section FindFacts.
Import DiGraph Evidence GraphQueryEngine.
Context {SO : SetOrder} {NX : NxCentrality}.
Implicit Types (g : DiGraph.t).

Lemma slice_to_length (n : nat) (s : string) :
  (String.length (PyStr.slice_to n s) ≤ n)%nat.
Proof.
  revert s. induction n as [|n IH]; intros [|c s]; cbn; try lia.
  specialize (IH s). lia.
Qed.

Lemma slice_to_prefix (n : nat) (s : string) :
  String.prefix (PyStr.slice_to n s) s = true.
Proof.
  revert s. induction n as [|n IH]; intros [|c s]; cbn; try done.
  destruct (ascii_dec c c); [apply IH | done].
Qed.

Lemma find_loop_locations g nodes locations found :
  foldM (find_turn g) locations nodes = Some found →
  Forall (λ loc, ∃ data, node_data g (l_node loc) = Some data
                         ∧ loc = location_of (l_node loc) data) locations →
  Forall (λ loc, ∃ data, node_data g (l_node loc) = Some data
                         ∧ loc = location_of (l_node loc) data) found.
Proof.
  intros Hfold Hinit. revert Hfold. apply foldM_Some_inv; [done|].
  intros s x s1 _ Hs. unfold find_turn.
  destruct (node_data g x) as [data|] eqn:Hdata; [|done]. cbn.
  intros [= <-]. apply Forall_app. split; [done|]. apply Forall_singleton.
  exists data. unfold location_of. by case_bool_decide.
Qed.

(** X22.  The find strategy always returns, on any graph.  Its locations
    stand, in order, for the first ten matching nodes; a location carries
    the name and the type of its node; the location of a code node
    carries the files and the functions of the node and no description,
    and the location of any other node carries no files and no functions
    but the first 200 characters of the description at most. *)
Theorem find_locations_spec (g : DiGraph.t) (query : string)
    (entities : list string) :
  ∃ ev locations,
    _handle_find_query g query entities = Some ev ∧
    ev_type ev = Some "find" ∧
    ev_locations ev = Some locations ∧
    l_node <$> locations = take 10 (_find_nodes_by_entities g entities None) ∧
    ∀ loc, loc ∈ locations →
      ∃ data, node_data g (l_node loc) = Some data ∧
        l_name loc = default "" (n_name data) ∧
        l_type loc = default "" (n_type data) ∧
        if bool_decide (n_modality data = Some "code") then
          l_files loc = Some (default [] (n_files data)) ∧
          l_functions loc = Some (default [] (n_functions data)) ∧
          l_description loc = None
        else
          l_files loc = None ∧ l_functions loc = None ∧
          ∃ text, l_description loc = Some text ∧
                  (String.length text ≤ 200)%nat ∧
                  String.prefix text (default "" (n_description data)) = true.
Proof.
  unfold _handle_find_query.
  destruct (find_loop g (take 10 (_find_nodes_by_entities g entities None)) [])
    as (found & Hfold & Hids).
  { by intros n Hn%elem_of_take_elem%find_nodes_are_nodes. }
  rewrite Hfold. cbn [mbind option_bind app].
  eexists _, found. split; [done|]. cbn [ev_type ev_locations].
  split_and!; [done | done | done |].
  apply find_loop_locations in Hfold; [|constructor]. cbn [app] in Hfold.
  rewrite Forall_forall in Hfold. intros loc Hloc.
  destruct (Hfold loc Hloc) as (data & Hdata & Heq). exists data.
  split; [done|]. rewrite Heq. unfold location_of.
  case_bool_decide; cbn [l_name l_type l_files l_functions l_description];
    split_and!; try done.
  eexists. split; [done|]. split; [apply slice_to_length | apply slice_to_prefix].
Qed.
End FindFacts.

(** * The statistics of the graph *)

Section StatsFacts.
Import DiGraph GraphBuilder BuilderQueries.
Implicit Types (g : DiGraph.t).

Lemma length_succ_list g n :
  length (succ_list g n)
  = length (List.filter (λ e, bool_decide (e.1.1 = n)) (g_edges g)).
Proof.
  unfold succ_list. induction (g_edges g) as [|e es IH]; [done|]. cbn.
  destruct (decide (e.1.1 = n)) as [He|He].
  - rewrite (bool_decide_eq_true_2 _ He). cbn. by rewrite IH.
  - by rewrite (bool_decide_eq_false_2 _ He).
Qed.

Lemma length_pred_list g n :
  length (pred_list g n)
  = length (List.filter (λ e, bool_decide (e.1.2 = n)) (g_edges g)).
Proof.
  unfold pred_list. induction (g_edges g) as [|e es IH]; [done|]. cbn.
  destruct (decide (e.1.2 = n)) as [He|He].
  - rewrite (bool_decide_eq_true_2 _ He). cbn. by rewrite IH.
  - by rewrite (bool_decide_eq_false_2 _ He).
Qed.

Lemma length_flat_map_sum {A B} (f : A → list B) (l : list A) :
  length (flat_map f l) = list_sum ((λ x, length (f x)) <$> l).
Proof.
  induction l as [|x l IH]; [done|]. cbn [flat_map].
  rewrite length_app, IH, fmap_cons. done.
Qed.

Lemma list_sum_add {A} (f h : A → nat) (l : list A) :
  list_sum ((λ x, f x + h x)%nat <$> l)
  = (list_sum (f <$> l) + list_sum (h <$> l))%nat.
Proof.
  induction l as [|x l IH]; [done|]. rewrite !fmap_cons.
  unfold list_sum in *. cbn [fold_right]. rewrite IH. lia.
Qed.

(** Every edge is counted once at its source and once at its target. *)
Lemma degree_sum g :
  wf g = true → list_sum (degree g).*2 = (2 * number_of_edges g)%nat.
Proof.
  intros (Hnd & _ & Hc)%wf_spec. unfold degree, number_of_edges.
  rewrite <- list_fmap_compose.
  rewrite (list_fmap_ext _ (λ n, length (pred_list g n) + length (succ_list g n))%nat
             (node_ids g)) by done.
  rewrite list_sum_add.
  assert (∀ key : (string * string) * EdgeData → string,
            (∀ e, e ∈ g_edges g → key e ∈ node_ids g) →
            list_sum ((λ n, length (List.filter (λ e, bool_decide (key e = n))
                                                (g_edges g))) <$> node_ids g)
            = length (g_edges g)) as Hgroup.
  { intros key Hkey. rewrite <- length_flat_map_sum.
    rewrite (items_by_key key (g_edges g) (node_ids g) Hnd).
    rewrite filter_all; [done|]. intros e He. apply bool_decide_eq_true.
    by apply Hkey. }
  assert (∀ e, e ∈ g_edges g → e.1.1 ∈ node_ids g ∧ e.1.2 ∈ node_ids g) as Hends.
  { intros [[u v] d] He. apply Hc. apply list_elem_of_fmap. by exists (u, v, d). }
  rewrite (list_fmap_ext _ (λ n, length (List.filter (λ e, bool_decide (e.1.2 = n))
                                                     (g_edges g)))
             (node_ids g))
    by (intros; apply length_pred_list).
  rewrite (list_fmap_ext (λ n, length (succ_list g n))
             (λ n, length (List.filter (λ e, bool_decide (e.1.1 = n)) (g_edges g)))
             (node_ids g))
    by (intros; apply length_succ_list).
  rewrite (Hgroup (λ e, e.1.2)) by (intros e He; by apply Hends).
  rewrite (Hgroup (λ e, e.1.1)) by (intros e He; by apply Hends).
  lia.
Qed.

Lemma count_node_types_sum {P : Type} (self : GraphBuilder.t P) :
  list_sum (_count_node_types self).*2 = number_of_nodes (graph self).
Proof.
  unfold _count_node_types, number_of_nodes.
  induction (g_nodes (graph self)) as [|nd nodes IH] using rev_ind; [done|].
  rewrite foldl_app. cbn [foldl]. rewrite upsert_count_sum, IH, length_app.
  cbn. lia.
Qed.

(** X23.  Over a well-formed graph, [get_graph_stats] reports the number
    of nodes and of edges, type counts that add up to the number of nodes,
    and as average degree the integer 0 for a graph without nodes and
    otherwise twice the number of edges divided by the number of nodes
    (every edge counts at both of its ends). *)
Theorem graph_stats_spec `{PF : PyFloat} {P : Type} (self : GraphBuilder.t P) :
  wf (graph self) = true →
  gs_total_nodes (get_graph_stats self) = number_of_nodes (graph self) ∧
  gs_total_edges (get_graph_stats self) = number_of_edges (graph self) ∧
  list_sum (gs_node_types (get_graph_stats self)).*2
  = gs_total_nodes (get_graph_stats self) ∧
  gs_avg_degree (get_graph_stats self)
  = if (0 <? number_of_nodes (graph self))%nat
    then FloatValue (truediv (2 * number_of_edges (graph self))
                             (number_of_nodes (graph self)))
    else IntValue 0.
Proof.
  intros Hwf. unfold get_graph_stats. cbv zeta.
  cbn [gs_total_nodes gs_total_edges gs_node_types gs_avg_degree].
  split_and!; [done | done | apply count_node_types_sum |].
  by rewrite (degree_sum _ Hwf).
Qed.
End StatsFacts.

Section StatsExample.
Import DiGraph GraphBuilder BuilderQueries.

(** The first scenario: two nodes and one edge, average degree 2/2. *)
Lemma graph_stats_spec_witness :
  gs_avg_degree (get_graph_stats (PF := exact_ratio) Scenario.scenario1_builder)
  = FloatValue (2, 2)%nat.
Proof.
  destruct (graph_stats_spec (PF := exact_ratio) Scenario.scenario1_builder
              ltac:(vm_compute; reflexivity)) as (_ & _ & _ & ->).
  vm_compute. reflexivity.
Defined.
End StatsExample.

(** * The two patterns of the entity resolver *)

Section PatternFacts.
Import Regex.

Lemma list_ascii_snoc (acc : string) (c : ascii) :
  list_ascii_of_string (acc ++ String c EmptyString)
  = (list_ascii_of_string acc ++ [c])%list.
Proof.
  induction acc as [|a acc IH]; [done|].
  change (a :: list_ascii_of_string (acc ++ String c EmptyString)
          = a :: (list_ascii_of_string acc ++ [c])%list).
  by rewrite IH.
Qed.

Lemma string_app_nil_r (s : string) : s ++ EmptyString = s.
Proof.
  induction s as [|a s IH]; [done|].
  change (String a (s ++ EmptyString) = String a s). by rewrite IH.
Qed.

Lemma string_app_assoc (a b c : string) : (a ++ b) ++ c = a ++ (b ++ c).
Proof.
  induction a as [|x a IH]; [done|].
  change (String x ((a ++ b) ++ c) = String x (a ++ (b ++ c))). by rewrite IH.
Qed.

Lemma quoted_scan_shape (open : option string) (s e : string) :
  (∀ acc, open = Some acc →
          ∀ c, c ∈ list_ascii_of_string acc → is_quote c = false) →
  e ∈ quoted_scan open s →
  e ≠ EmptyString ∧ ∀ c, c ∈ list_ascii_of_string e → is_quote c = false.
Proof.
  revert open. induction s as [|c s IH]; intros open Hopen; cbn [quoted_scan].
  - by intros ?%elem_of_nil.
  - destruct open as [acc|].
    + destruct (is_quote c) eqn:Hc.
      * destruct (PyStr.truthy acc) eqn:Hacc.
        -- intros [->|He]%elem_of_cons.
           ++ split; [by destruct acc | by apply Hopen].
           ++ apply (IH None); [done | done].
        -- apply IH. intros ? [= <-] ? ?%elem_of_nil. done.
      * apply IH. intros ? [= <-] c'. rewrite list_ascii_snoc.
        intros [Hin| ->%list_elem_of_singleton]%elem_of_app; [|done].
        by apply (Hopen acc).
    + destruct (is_quote c).
      * apply IH. intros ? [= <-] ? ?%elem_of_nil. done.
      * apply IH. done.
Qed.

Lemma span_head (p : ascii → bool) (s run rest : string) :
  span p s = (run, rest) → PyStr.truthy run = true →
  ∃ c run', run = String c run' ∧ p c = true.
Proof.
  destruct s as [|c s]; cbn; [by intros [= <- <-]|].
  destruct (p c) eqn:Hc; [|by intros [= <- <-]].
  destruct (span p s) as [run0 rest0]. intros [= <- <-] _. by exists c, run0.
Qed.

Lemma cap_word_shape (s w rest : string) :
  cap_word s = Some (w, rest) →
  ∃ c1 c2 tail, w = String c1 (String c2 tail)
                ∧ PyStr.is_upper c1 = true ∧ PyStr.is_lower c2 = true.
Proof.
  destruct s as [|c s]; cbn; [done|].
  destruct (PyStr.is_upper c) eqn:Hc; [|done].
  destruct (span PyStr.is_lower s) as [run r] eqn:Hspan.
  destruct (PyStr.truthy run) eqn:Hrun; [|done]. intros [= <- <-].
  destruct (span_head _ _ _ _ Hspan Hrun) as (c2 & run' & -> & Hc2).
  by exists c, c2, run'.
Qed.

Lemma cap_chain_extends (fuel : nat) (matched rest : string) cand :
  cand ∈ cap_chain fuel matched rest → ∃ more, cand.1 = matched ++ more.
Proof.
  revert matched rest. induction fuel as [|fuel IH]; intros matched rest;
    cbn [cap_chain].
  - intros ->%list_elem_of_singleton. exists EmptyString.
    by rewrite string_app_nil_r.
  - assert (cand ∈ [(matched, rest)] → ∃ more, cand.1 = matched ++ more) as Hbase.
    { intros ->%list_elem_of_singleton. exists EmptyString.
      by rewrite string_app_nil_r. }
    destruct (span PyStr.is_space rest) as [ws r1].
    destruct (PyStr.truthy ws); [|done].
    destruct (cap_word r1) as [[w r2]|]; [|done].
    intros [Hin|Hin]%elem_of_app; [|by apply Hbase].
    apply IH in Hin as [more Hmore]. exists (ws ++ w ++ more).
    by rewrite Hmore, !string_app_assoc.
Qed.

Lemma cap_match_shape (s m rest : string) :
  cap_match s = Some (m, rest) →
  ∃ c1 c2 tail, m = String c1 (String c2 tail)
                ∧ PyStr.is_upper c1 = true ∧ PyStr.is_lower c2 = true.
Proof.
  unfold cap_match. destruct (cap_word s) as [[w r]|] eqn:Hw; [|done].
  intros [Hin%list_elem_of_In _]%find_some.
  apply cap_chain_extends in Hin as [more Hm]. cbn in Hm. subst m.
  apply cap_word_shape in Hw as (c1 & c2 & tail & -> & H1 & H2).
  by exists c1, c2, (tail ++ more).
Qed.

Lemma cap_scan_shape (fuel : nat) (prev_word : bool) (s e : string) :
  e ∈ cap_scan fuel prev_word s →
  ∃ c1 c2 tail, e = String c1 (String c2 tail)
                ∧ PyStr.is_upper c1 = true ∧ PyStr.is_lower c2 = true.
Proof.
  revert prev_word s. induction fuel as [|fuel IH]; intros prev_word s;
    cbn [cap_scan]; [by intros ?%elem_of_nil|].
  destruct s as [|c s]; [by intros ?%elem_of_nil|].
  destruct (if prev_word then None else cap_match (String c s))
    as [[m rest]|] eqn:Hm.
  - intros [->|He]%elem_of_cons; [|by apply IH in He].
    destruct prev_word; [done|]. by apply cap_match_shape in Hm.
  - apply IH.
Qed.

(** X24.  What the two patterns of the entity resolver can return: a
    quoted phrase is never empty and contains no double quote; a
    capitalised phrase begins with an upper-case letter followed by a
    lower-case letter. *)
Theorem entity_patterns_shape (query e : string) :
  (e ∈ findall_quoted query →
   e ≠ EmptyString ∧ ∀ c, c ∈ list_ascii_of_string e → is_quote c = false) ∧
  (e ∈ findall_cap_phrases query →
   ∃ c1 c2 tail, e = String c1 (String c2 tail)
                 ∧ PyStr.is_upper c1 = true ∧ PyStr.is_lower c2 = true).
Proof.
  split.
  - apply quoted_scan_shape. done.
  - apply cap_scan_shape.
Qed.
End PatternFacts.
